(** * Transformers from scratch: attention, blocks, stacks and greedy decoding

    A shallow embedding of the PyTorch notebooks [Encoder_Decoder.ipynb] and
    [Decoder.ipynb].  Tensors are nested lists; a batch is the list of its
    elements.  Floating-point numbers are idealised as real numbers extended
    with [NaN] (values) and with minus infinity (attention scores), which is
    what the masking logic needs; rounding is not modelled.  Python exceptions
    are modelled by the [result] type. *)

From Stdlib Require Import Reals Lra Lia List ZArith Bool Arith PeanoNat.
Import ListNotations.

Set Implicit Arguments.

(** ** Exceptions *)

Inductive exn : Type :=
| IndexError          (* an index outside a table, a sequence or a dimension *)
| ShapeError          (* torch RuntimeError: sizes that do not match or broadcast *)
| AttributeError      (* an attribute that was never set *)
| ValueError          (* an argument outside its domain *)
| ZeroDivisionError.  (* Python float division by an integer zero *)

Inductive result (A : Type) : Type :=
| Ok (a : A)
| Raise (e : exn).

Arguments Ok {A} a.
Arguments Raise {A} e.

Definition bind {A B : Type} (c : result A) (f : A -> result B) : result B :=
  match c with
  | Ok a => f a
  | Raise e => Raise e
  end.

Declare Scope result_scope.
Delimit Scope result_scope with result.
Notation "x <- c ;; k" := (bind c (fun x => k))
  (at level 61, c at next level, right associativity) : result_scope.
Open Scope result_scope.

Fixpoint mapM {A B : Type} (f : A -> result B) (l : list A) : result (list B) :=
  match l with
  | [] => Ok []
  | x :: l' => y <- f x ;; ys <- mapM f l' ;; Ok (y :: ys)
  end.

(** [enumerate l] pairs every element with its index, as Python's [enumerate]. *)
Definition enumerate {A : Type} (l : list A) : list (nat * A) :=
  combine (seq 0 (length l)) l.

(** ** Numbers *)

(** A value: a finite real or NaN.  Every arithmetic operation propagates NaN. *)
Inductive val : Type :=
| NaN
| Fin (r : R).

Definition vadd (a b : val) : val :=
  match a, b with
  | Fin x, Fin y => Fin (x + y)
  | _, _ => NaN
  end.

Definition vsub (a b : val) : val :=
  match a, b with
  | Fin x, Fin y => Fin (x - y)
  | _, _ => NaN
  end.

Definition vmul (a b : val) : val :=
  match a, b with
  | Fin x, Fin y => Fin (x * y)
  | _, _ => NaN
  end.

(** Division.  The divisions by zero of the program are all [0 / 0] (an empty
    dot product over [sqrt 0], a softmax row without mass), which is NaN. *)
Definition vdiv (a b : val) : val :=
  match a, b with
  | Fin x, Fin y => if Req_dec_T y 0 then NaN else Fin (x / y)
  | _, _ => NaN
  end.

Definition vsum (l : list val) : val := fold_right vadd (Fin 0) l.

Definition vdot (x y : list val) : val :=
  vsum (map (fun p => vmul (fst p) (snd p)) (combine x y)).

(** An attention score: a value, or the minus infinity written by
    [masked_fill]. *)
Inductive score : Type :=
| NegInf
| SVal (v : val).

Abbreviation vec := (list val) (only parsing).       (* (D) *)
Abbreviation mat := (list (list val)) (only parsing).       (* (T, D) *)
Abbreviation tensor3 := (list (list (list val))) (only parsing).   (* (N, T, D) *)

(** ** Broadcasting *)

(** A dimension of size [length xs] used where size [n] is expected: it fits,
    or it has size 1 and is repeated, or the operation raises. *)
Definition broadcast_to {A : Type} (n : nat) (xs : list A) : result (list A) :=
  if length xs =? n then Ok xs
  else match xs with
       | [x] => Ok (repeat x n)
       | _ => Raise ShapeError
       end.

(** ** torch.nn.Linear *)

Record Linear : Type := {
  in_features : nat;
  out_features : nat;
  weight : nat -> nat -> R;   (* (out_features, in_features) *)
  bias : nat -> R             (* (out_features) *)
}.

(** The initial parameters of a layer, drawn at random by torch. *)
Definition LinearInit : Type := ((nat -> nat -> R) * (nat -> R))%type.

Definition nn_Linear (i o : nat) (p : LinearInit) : Linear :=
  {| in_features := i; out_features := o; weight := fst p; bias := snd p |}.

Definition Linear_row (l : Linear) (o : nat) : vec :=
  map (fun i => Fin (weight l o i)) (seq 0 (in_features l)).

(** [y = x W^T + b] on the last axis. *)
Definition Linear_apply (l : Linear) (x : vec) : result vec :=
  if length x =? in_features l
  then Ok (map (fun o => vadd (vdot x (Linear_row l o)) (Fin (bias l o)))
               (seq 0 (out_features l)))
  else Raise ShapeError.

Definition Linear_forward (l : Linear) (x : tensor3) : result tensor3 :=
  mapM (mapM (Linear_apply l)) x.

(** ** torch.softmax over the last axis *)

Definition sexp (s : score) : val :=
  match s with
  | NegInf => Fin 0
  | SVal NaN => NaN
  | SVal (Fin r) => Fin (exp r)
  end.

(** [softmax(x)_j = exp(x_j) / sum_l exp(x_l)], with [exp(-inf) = 0]; a row of
    minus infinities has no mass and comes out as NaN. *)
Definition softmax (row : list score) : list val :=
  let e := map sexp row in
  map (fun x => vdiv x (vsum e)) e.

(** ** MultiHeadAttention *)

Definition ones (r c : nat) : list (list Z) := repeat (repeat 1%Z c) r.

(** [torch.tril]: keeps the entries on and below the diagonal. *)
Definition tril (m : list (list Z)) : list (list Z) :=
  map (fun ir =>
         map (fun jx => if (fst jx <=? fst ir)%nat then snd jx else 0%Z)
             (enumerate (snd ir)))
      (enumerate m).

Record MultiHeadAttention : Type := {
  d_k : nat;
  n_heads : nat;
  key : Linear;
  query : Linear;
  value : Linear;
  fc : Linear;
  causal : bool;
  causal_mask : option (list (list Z))   (* registered only when causal *)
}.

Record MHAInit : Type := {
  key_init : LinearInit;
  query_init : LinearInit;
  value_init : LinearInit;
  fc_init : LinearInit
}.

Definition MultiHeadAttention_init (d_k d_model n_heads max_len : nat)
    (causal : bool) (p : MHAInit) : MultiHeadAttention :=
  {| d_k := d_k;
     n_heads := n_heads;
     key := nn_Linear d_model (d_k * n_heads) (key_init p);
     query := nn_Linear d_model (d_k * n_heads) (query_init p);
     value := nn_Linear d_model (d_k * n_heads) (value_init p);
     fc := nn_Linear (d_k * n_heads) d_model (fc_init p);
     causal := causal;
     causal_mask := if causal then Some (tril (ones max_len max_len)) else None |}.

(** [x.view(N, T, n_heads, d_k).transpose(1, 2)] for one batch element:
    head [h] of a token is the slice [h*d_k, (h+1)*d_k) of its vector. *)
Definition split_heads (m : MultiHeadAttention) (x : mat) : result (list mat) :=
  if forallb (fun row => length row =? n_heads m * d_k m) x
  then Ok (map (fun h => map (fun row => firstn (d_k m) (skipn (h * d_k m) row)) x)
               (seq 0 (n_heads m)))
  else Raise ShapeError.

(** [q @ k.transpose(-2, -1) / math.sqrt(d_k)] for one head. *)
Definition scaled_scores (m : MultiHeadAttention) (qh kh : mat) : list (list score) :=
  map (fun qi =>
         map (fun kj => SVal (vdiv (vdot qi kj) (Fin (sqrt (INR (d_k m)))))) kh)
      qh.

(** [scores.masked_fill(mask == 0, -inf)] on the scores (T_output, T_input) of
    one head, for a mask whose two last axes are [mask]. *)
Definition fill (mz : Z) (s : score) : score :=
  if (mz =? 0)%Z then NegInf else s.

Definition masked_fill_row (mrow : list Z) (srow : list score) : result (list score) :=
  mrow' <- broadcast_to (length srow) mrow ;;
  Ok (map (fun p => fill (fst p) (snd p)) (combine mrow' srow)).

Definition masked_fill (mask : list (list Z)) (scores : list (list score))
  : result (list (list score)) :=
  mask' <- broadcast_to (length scores) mask ;;
  mapM (fun p => masked_fill_row (fst p) (snd p)) (combine mask' scores).

(** The attention weights of one batch element, per head: the scores, the
    padding mask [pad_row] of this element ([pad_mask[:, None, None, :]] is one
    row for all heads and queries), the causal mask sliced to
    [:T_output, :T_input], the softmax. *)
Definition attn_weights_elem (m : MultiHeadAttention) (q k : mat)
    (pad_row : option (list Z)) : result (list (list (list val))) :=
  let T_output := length q in
  let T_input := length k in
  qs <- split_heads m q ;;
  ks <- split_heads m k ;;
  mapM (fun qk =>
          let attn_scores := scaled_scores m (fst qk) (snd qk) in
          attn_scores <-
            match pad_row with
            | Some row => masked_fill [row] attn_scores
            | None => Ok attn_scores
            end ;;
          attn_scores <-
            (if causal m
             then match causal_mask m with
                  | Some cm =>
                      masked_fill (firstn T_output (map (firstn T_input) cm))
                                  attn_scores
                  | None => Raise AttributeError
                  end
             else Ok attn_scores) ;;
          Ok (map softmax attn_scores))
       (combine qs ks).

(** The local variable [attn_weights] of [MultiHeadAttention.forward], of
    shape (N, n_heads, T_output, T_input). *)
Definition MultiHeadAttention_attn_weights (m : MultiHeadAttention)
    (q k : tensor3) (pad_mask : option (list (list Z)))
  : result (list (list (list (list val)))) :=
  q <- Linear_forward (query m) q ;;
  k <- Linear_forward (key m) k ;;
  let N := length q in
  pad_rows <-
    match pad_mask with
    | Some pm => rows <- broadcast_to N pm ;; Ok (map Some rows)
    | None => Ok (repeat None N)
    end ;;
  if length k =? N
  then mapM (fun e => attn_weights_elem m (fst (fst e)) (snd (fst e)) (snd e))
            (combine (combine q k) pad_rows)
  else Raise ShapeError.

(** [attn_weights @ v] for one head: (T_output, T_input) x (T_input, d_k). *)
Definition weighted_values (m : MultiHeadAttention) (w : list (list val)) (vh : mat)
  : result mat :=
  mapM (fun wrow =>
          if length wrow =? length vh
          then Ok (map (fun d => vdot wrow (map (fun vj => nth d vj NaN) vh))
                       (seq 0 (d_k m)))
          else Raise ShapeError)
       w.

(** [A.transpose(1, 2).contiguous().view(N, T_output, d_k * n_heads)] for one
    batch element: the heads of a token side by side. *)
Definition merge_heads (T_output : nat) (A : list mat) : mat :=
  map (fun i => concat (map (fun Ah => nth i Ah []) A)) (seq 0 T_output).

Definition attend_elem (m : MultiHeadAttention) (T_output T_input : nat)
    (w : list (list (list val))) (v : mat) : result mat :=
  if length v =? T_input
  then vs <- split_heads m v ;;
       A <- mapM (fun wv => weighted_values m (fst wv) (snd wv)) (combine w vs) ;;
       mapM (Linear_apply (fc m)) (merge_heads T_output A)
  else Raise ShapeError.

(** [x.view(N, T, ...)] on the first two axes of a contiguous tensor: the
    token vectors, in order, are regrouped into [N] sequences of [T]; the
    number of tokens has to be [N * T]. *)
Fixpoint chunks {A : Type} (T N : nat) (l : list A) : list (list A) :=
  match N with
  | O => []
  | S N' => firstn T l :: chunks T N' (skipn T l)
  end.

Definition view_tokens (N T : nat) (x : tensor3) : result tensor3 :=
  let tokens := concat x in
  if length tokens =? N * T then Ok (chunks T N tokens) else Raise ShapeError.

(** [x.shape[1]]. *)
Definition shape1 {A : Type} (x : list (list A)) : nat := length (hd [] x).

Definition MultiHeadAttention_forward (m : MultiHeadAttention)
    (q k v : tensor3) (pad_mask : option (list (list Z))) : result tensor3 :=
  attn_weights <- MultiHeadAttention_attn_weights m q k pad_mask ;;
  v <- Linear_forward (value m) v ;;
  let N := length q in
  let T_input := shape1 k in
  v <- view_tokens N T_input v ;;
  mapM (fun e =>
          attend_elem m (length (fst (fst (fst e)))) (length (snd (fst (fst e))))
                      (snd (fst e)) (snd e))
       (combine (combine (combine q k) attn_weights) v).

(** ** Element-wise addition with broadcasting *)

(** Two dimensions that meet in an element-wise operation: equal sizes are
    paired, a size 1 is repeated along the other, anything else raises. *)
Definition broadcast2 {A B : Type} (xs : list A) (ys : list B) : result (list (A * B)) :=
  if length xs =? length ys then Ok (combine xs ys)
  else match xs, ys with
       | [x], _ => Ok (map (pair x) ys)
       | _, [y] => Ok (map (fun x => (x, y)) xs)
       | _, _ => Raise ShapeError
       end.

Definition vec_add (x y : vec) : result vec :=
  ps <- broadcast2 x y ;; Ok (map (fun p => vadd (fst p) (snd p)) ps).

Definition mat_add (x y : mat) : result mat :=
  ps <- broadcast2 x y ;; mapM (fun p => vec_add (fst p) (snd p)) ps.

Definition tensor_add (x y : tensor3) : result tensor3 :=
  ps <- broadcast2 x y ;; mapM (fun p => mat_add (fst p) (snd p)) ps.

(** ** torch.nn.Dropout *)

Inductive Dropout : Type := mkDropout (p : R).

(** [nn.Dropout(p)] raises unless [0 <= p <= 1]. *)
Definition nn_Dropout (p : R) : result Dropout :=
  if Rle_dec 0 p then if Rle_dec p 1 then Ok (mkDropout p) else Raise ValueError
  else Raise ValueError.

(** The modules are modelled in evaluation mode ([model.eval()]), where dropout
    is the identity; the random masks of training mode are not modelled. *)
Definition Dropout_forward {A : Type} (d : Dropout) (x : A) : A := x.

(** ** torch.nn.LayerNorm *)

Record LayerNorm : Type := {
  normalized_shape : nat;
  ln_weight : nat -> R;
  ln_bias : nat -> R;
  eps : R
}.

Definition LayerNormInit : Type := ((nat -> R) * (nat -> R))%type.

Definition nn_LayerNorm (d : nat) (p : LayerNormInit) : LayerNorm :=
  {| normalized_shape := d; ln_weight := fst p; ln_bias := snd p; eps := 1 / 100000 |}.

Definition vsqrt (a : val) : val :=
  match a with
  | Fin x => if Rlt_dec x 0 then NaN else Fin (sqrt x)
  | NaN => NaN
  end.

Definition mean (x : vec) : val := vdiv (vsum x) (Fin (INR (length x))).

(** [(x - E[x]) / sqrt(Var[x] + eps) * weight + bias] over the last axis, with
    the biased variance. *)
Definition LayerNorm_apply (ln : LayerNorm) (x : vec) : result vec :=
  if length x =? normalized_shape ln
  then let mu := mean x in
       let var := mean (map (fun xi => vmul (vsub xi mu) (vsub xi mu)) x) in
       Ok (map (fun ix =>
                  vadd (vmul (vdiv (vsub (snd ix) mu) (vsqrt (vadd var (Fin (eps ln)))))
                             (Fin (ln_weight ln (fst ix))))
                       (Fin (ln_bias ln (fst ix))))
               (enumerate x))
  else Raise ShapeError.

Definition LayerNorm_forward (ln : LayerNorm) (x : tensor3) : result tensor3 :=
  mapM (mapM (LayerNorm_apply ln)) x.

(** ** PositionalEncoding *)

Record PositionalEncoding : Type := {
  pe_dropout : Dropout;
  pe : list (list R)   (* the buffer (1, max_len, d_model), without its axis of size 1 *)
}.

(** [torch.arange(start, stop, 2)]. *)
Definition arange2 (start stop : nat) : list nat :=
  map (fun k => start + 2 * k)%nat (seq 0 ((stop + 1 - start) / 2)).

(** [dst[:, start::2] = src] for [dst] of shape (rows, dst_width) and [src] of
    shape (rows, src_width): the value is copied into the selected columns when
    it has as many columns as the selection, repeated when it has one column,
    and the assignment raises otherwise. *)
Definition setitem_cols (start : nat) (src_width : nat) (src : list (list R))
    (dst_width : nat) (dst : list (list R)) : result (list (list R)) :=
  let n_cols := length (arange2 start dst_width) in
  if (src_width =? n_cols) || (src_width =? 1)
  then Ok (map (fun sd =>
                  map (fun jx =>
                         let j := fst jx in
                         if (start <=? j) && Nat.even (j - start)
                         then nth (if src_width =? n_cols then (j - start) / 2 else 0)
                                  (fst sd) 0%R
                         else snd jx)
                      (enumerate (snd sd)))
               (combine src dst))
  else Raise ShapeError.

Definition PositionalEncoding_init (d_model max_len : nat) (dropout_prob : R)
  : result PositionalEncoding :=
  dropout <- nn_Dropout dropout_prob ;;
  let position := map INR (seq 0 max_len) in
  let exp_term := map INR (arange2 0 d_model) in
  if d_model =? 0 then Raise ZeroDivisionError else
  let div_term := map (fun e => exp (e * (- ln 10000 / INR d_model))%R) exp_term in
  let pe := repeat (repeat 0%R d_model) max_len in
  let angle := map (fun pos => map (fun d => (pos * d)%R) div_term) position in
  pe <- setitem_cols 0 (length div_term) (map (map sin) angle) d_model pe ;;
  pe <- setitem_cols 1 (length div_term) (map (map cos) angle) d_model pe ;;
  Ok {| pe_dropout := dropout; pe := pe |}.

Definition PositionalEncoding_forward (m : PositionalEncoding) (x : tensor3)
  : result tensor3 :=
  x <- mapM (fun xn => mat_add xn (map (map Fin) (firstn (length xn) (pe m)))) x ;;
  Ok (Dropout_forward (pe_dropout m) x).

(** ** torch.nn.Embedding *)

Record Embedding : Type := {
  num_embeddings : nat;
  embedding_dim : nat;
  emb_weight : nat -> nat -> R
}.

Definition nn_Embedding (n d : nat) (w : nat -> nat -> R) : Embedding :=
  {| num_embeddings := n; embedding_dim := d; emb_weight := w |}.

(** The row of one token id; an id outside [0, num_embeddings) raises. *)
Definition Embedding_lookup (e : Embedding) (id : Z) : result vec :=
  if (0 <=? id)%Z && (id <? Z.of_nat (num_embeddings e))%Z
  then Ok (map (fun i => Fin (emb_weight e (Z.to_nat id) i)) (seq 0 (embedding_dim e)))
  else Raise IndexError.

Definition Embedding_forward (e : Embedding) (x : list (list Z)) : result tensor3 :=
  mapM (mapM (Embedding_lookup e)) x.

(** ** Blocks and stacks *)

Section Blocks.

(** [torch.nn.GELU] on a real number, [x * Phi(x)] with [Phi] the standard
    normal distribution function; the blocks are parametrised by it. *)
Variable GELU : R -> R.

Definition GELU_forward (x : tensor3) : tensor3 :=
  map (map (map (fun a => match a with Fin r => Fin (GELU r) | NaN => NaN end))) x.

(** [nn.Sequential(nn.Linear(d_model, 4 d_model), nn.GELU(),
    nn.Linear(4 d_model, d_model), nn.Dropout(dropout_prob))]. *)
Record FeedForward : Type := {
  ann_0 : Linear;
  ann_2 : Linear;
  ann_3 : Dropout
}.

Definition FeedForward_init (d_model : nat) (dropout_prob : R)
    (p : LinearInit * LinearInit) : result FeedForward :=
  d <- nn_Dropout dropout_prob ;;
  Ok {| ann_0 := nn_Linear d_model (d_model * 4) (fst p);
        ann_2 := nn_Linear (d_model * 4) d_model (snd p);
        ann_3 := d |}.

Definition FeedForward_forward (f : FeedForward) (x : tensor3) : result tensor3 :=
  x <- Linear_forward (ann_0 f) x ;;
  let x := GELU_forward x in
  x <- Linear_forward (ann_2 f) x ;;
  Ok (Dropout_forward (ann_3 f) x).

Record EncoderBlock : Type := {
  enc_ln1 : LayerNorm;
  enc_ln2 : LayerNorm;
  enc_mha : MultiHeadAttention;
  enc_ann : FeedForward;
  enc_dropout : Dropout
}.

Record EncoderBlockInit : Type := {
  eb_ln1 : LayerNormInit;
  eb_ln2 : LayerNormInit;
  eb_mha : MHAInit;
  eb_ann : LinearInit * LinearInit
}.

Definition EncoderBlock_init (d_k d_model n_heads max_len : nat) (dropout_prob : R)
    (p : EncoderBlockInit) : result EncoderBlock :=
  ann <- FeedForward_init d_model dropout_prob (eb_ann p) ;;
  dropout <- nn_Dropout dropout_prob ;;
  Ok {| enc_ln1 := nn_LayerNorm d_model (eb_ln1 p);
        enc_ln2 := nn_LayerNorm d_model (eb_ln2 p);
        enc_mha := MultiHeadAttention_init d_k d_model n_heads max_len false (eb_mha p);
        enc_ann := ann;
        enc_dropout := dropout |}.

Definition EncoderBlock_forward (b : EncoderBlock) (x : tensor3)
    (pad_mask : option (list (list Z))) : result tensor3 :=
  a <- MultiHeadAttention_forward (enc_mha b) x x x pad_mask ;;
  s <- tensor_add x a ;;
  x <- LayerNorm_forward (enc_ln1 b) s ;;
  a <- FeedForward_forward (enc_ann b) x ;;
  s <- tensor_add x a ;;
  x <- LayerNorm_forward (enc_ln2 b) s ;;
  Ok (Dropout_forward (enc_dropout b) x).

Record DecoderBlock : Type := {
  ln1 : LayerNorm;
  ln2 : LayerNorm;
  ln3 : LayerNorm;
  mha1 : MultiHeadAttention;
  mha2 : MultiHeadAttention;
  ann : FeedForward;
  dropout : Dropout
}.

Record DecoderBlockInit : Type := {
  db_ln1 : LayerNormInit;
  db_ln2 : LayerNormInit;
  db_ln3 : LayerNormInit;
  db_mha1 : MHAInit;
  db_mha2 : MHAInit;
  db_ann : LinearInit * LinearInit
}.

Definition DecoderBlock_init (d_k d_model n_heads max_len : nat) (dropout_prob : R)
    (p : DecoderBlockInit) : result DecoderBlock :=
  ann <- FeedForward_init d_model dropout_prob (db_ann p) ;;
  dropout <- nn_Dropout dropout_prob ;;
  Ok {| ln1 := nn_LayerNorm d_model (db_ln1 p);
        ln2 := nn_LayerNorm d_model (db_ln2 p);
        ln3 := nn_LayerNorm d_model (db_ln3 p);
        mha1 := MultiHeadAttention_init d_k d_model n_heads max_len true (db_mha1 p);
        mha2 := MultiHeadAttention_init d_k d_model n_heads max_len false (db_mha2 p);
        ann := ann;
        dropout := dropout |}.

Definition DecoderBlock_forward (b : DecoderBlock) (enc_output dec_input : tensor3)
    (enc_mask dec_mask : option (list (list Z))) : result tensor3 :=
  (* self-attention on decoder input *)
  a <- MultiHeadAttention_forward (mha1 b) dec_input dec_input dec_input dec_mask ;;
  s <- tensor_add dec_input a ;;
  x <- LayerNorm_forward (ln1 b) s ;;
  (* multi-head attention including encoder output *)
  a <- MultiHeadAttention_forward (mha2 b) x enc_output enc_output enc_mask ;;
  s <- tensor_add x a ;;
  x <- LayerNorm_forward (ln2 b) s ;;
  a <- FeedForward_forward (ann b) x ;;
  s <- tensor_add x a ;;
  x <- LayerNorm_forward (ln3 b) s ;;
  Ok (Dropout_forward (dropout b) x).

Record Encoder : Type := {
  enc_embedding : Embedding;
  enc_pos_encoding : PositionalEncoding;
  enc_transformer_blocks : list EncoderBlock;
  enc_ln : LayerNorm
}.

Record EncoderInit : Type := {
  ei_embedding : nat -> nat -> R;
  ei_blocks : nat -> EncoderBlockInit;
  ei_ln : LayerNormInit
}.

Definition Encoder_init (vocab_size max_len d_k d_model n_heads n_layers : nat)
    (dropout_prob : R) (p : EncoderInit) : result Encoder :=
  pos_encoding <- PositionalEncoding_init d_model max_len dropout_prob ;;
  transformer_blocks <-
    mapM (fun l => EncoderBlock_init d_k d_model n_heads max_len dropout_prob
                                     (ei_blocks p l))
         (seq 0 n_layers) ;;
  Ok {| enc_embedding := nn_Embedding vocab_size d_model (ei_embedding p);
        enc_pos_encoding := pos_encoding;
        enc_transformer_blocks := transformer_blocks;
        enc_ln := nn_LayerNorm d_model (ei_ln p) |}.

(** [for block in blocks: x = block(x, ...)]. *)
Fixpoint apply_blocks {B : Type} (f : B -> tensor3 -> result tensor3)
    (blocks : list B) (x : tensor3) : result tensor3 :=
  match blocks with
  | [] => Ok x
  | block :: rest => x <- f block x ;; apply_blocks f rest x
  end.

Definition Encoder_forward (m : Encoder) (x : list (list Z))
    (pad_mask : option (list (list Z))) : result tensor3 :=
  x <- Embedding_forward (enc_embedding m) x ;;
  x <- PositionalEncoding_forward (enc_pos_encoding m) x ;;
  x <- apply_blocks (fun block x => EncoderBlock_forward block x pad_mask)
                    (enc_transformer_blocks m) x ;;
  LayerNorm_forward (enc_ln m) x.

Record Decoder : Type := {
  embedding : Embedding;
  pos_encoding : PositionalEncoding;
  transformer_blocks : list DecoderBlock;
  dec_ln : LayerNorm;
  dec_fc : Linear
}.

Record DecoderInit : Type := {
  di_embedding : nat -> nat -> R;
  di_blocks : nat -> DecoderBlockInit;
  di_ln : LayerNormInit;
  di_fc : LinearInit
}.

Definition Decoder_init (vocab_size max_len d_k d_model n_heads n_layers : nat)
    (dropout_prob : R) (p : DecoderInit) : result Decoder :=
  pos_encoding <- PositionalEncoding_init d_model max_len dropout_prob ;;
  transformer_blocks <-
    mapM (fun l => DecoderBlock_init d_k d_model n_heads max_len dropout_prob
                                     (di_blocks p l))
         (seq 0 n_layers) ;;
  Ok {| embedding := nn_Embedding vocab_size d_model (di_embedding p);
        pos_encoding := pos_encoding;
        transformer_blocks := transformer_blocks;
        dec_ln := nn_LayerNorm d_model (di_ln p);
        dec_fc := nn_Linear d_model vocab_size (di_fc p) |}.

Definition Decoder_forward (m : Decoder) (enc_output : tensor3)
    (dec_input : list (list Z)) (enc_mask dec_mask : option (list (list Z)))
  : result tensor3 :=
  x <- Embedding_forward (embedding m) dec_input ;;
  x <- PositionalEncoding_forward (pos_encoding m) x ;;
  x <- apply_blocks (fun block x => DecoderBlock_forward block enc_output x enc_mask dec_mask)
                    (transformer_blocks m) x ;;
  x <- LayerNorm_forward (dec_ln m) x ;;
  Linear_forward (dec_fc m) x.   (* many-to-many *)

Record Transformer : Type := {
  encoder : Encoder;
  decoder : Decoder
}.

Definition Transformer_forward (m : Transformer) (enc_input dec_input : list (list Z))
    (enc_mask dec_mask : list (list Z)) : result tensor3 :=
  enc_output <- Encoder_forward (encoder m) enc_input (Some enc_mask) ;;
  dec_output <- Decoder_forward (decoder m) enc_output dec_input
                                (Some enc_mask) (Some dec_mask) ;;
  Ok dec_output.

End Blocks.

(** ** Greedy decoding *)

(** [a] replaces the running maximum [best]: NaN counts as the largest value,
    and of equal values the first one is kept. *)
Definition beats (a best : val) : bool :=
  match a, best with
  | _, NaN => false
  | NaN, Fin _ => true
  | Fin x, Fin y => if Rlt_dec y x then true else false
  end.

Fixpoint argmax_from (best_i : nat) (best : val) (i : nat) (l : list val) : nat :=
  match l with
  | [] => best_i
  | x :: l' =>
      if beats x best then argmax_from i x (S i) l'
      else argmax_from best_i best (S i) l'
  end.

(** [torch.argmax] over one axis; an axis of size 0 raises. *)
Definition argmax (l : vec) : result nat :=
  match l with
  | [] => Raise ShapeError
  | x :: l' => Ok (argmax_from 0 x 1 l')
  end.

(** [x[:, -1, :]]. *)
Definition last_position (x : tensor3) : result (list vec) :=
  mapM (fun xn => match rev xn with
                  | [] => Raise IndexError
                  | row :: _ => Ok row
                  end) x.

(** [torch.argmax(dec_output[:, -1, :], axis=-1)]. *)
Definition predict (dec_output : tensor3) : result (list Z) :=
  rows <- last_position dec_output ;;
  mapM (fun row => i <- argmax row ;; Ok (Z.of_nat i)) rows.

(** [torch.hstack((ids, prediction_id.view(1, 1)))]: the view needs a single
    prediction, the stacking a single row. *)
Definition hstack_prediction (ids : list (list Z)) (prediction_id : list Z)
  : result (list (list Z)) :=
  match prediction_id, ids with
  | [p], [row] => Ok [row ++ [p]]
  | _, _ => Raise ShapeError
  end.

Definition ones_like (x : list (list Z)) : list (list Z) :=
  map (fun row => repeat 1%Z (length row)) x.

(** The loop of [translate] and of the generation cells: [call] is the
    forward call of the model on the current ids and mask, [eos] the id that
    ends the generation. *)
Section GreedyLoop.

Variable call : list (list Z) -> list (list Z) -> result tensor3.
Variable eos : Z.

(** The variables that the loop updates: the ids and their mask. *)
Definition gen_state : Type := (list (list Z) * list (list Z))%type.

(** One pass through the body of the loop; the flag tells whether it ended in
    [break]. *)
Definition greedy_step (st : gen_state) : result (gen_state * bool) :=
  let dec_input_ids := fst st in
  let dec_attn_mask := snd st in
  dec_output <- call dec_input_ids dec_attn_mask ;;
  (* choose the best value (or sample) *)
  prediction_id <- predict dec_output ;;
  (* append to decoder input *)
  dec_input_ids <- hstack_prediction dec_input_ids prediction_id ;;
  (* recreate mask *)
  let dec_attn_mask := ones_like dec_input_ids in
  (* exit when reach </s> *)
  Ok ((dec_input_ids, dec_attn_mask),
      match prediction_id with
      | [p] => (p =? eos)%Z
      | _ => false
      end).

(** [for _ in range(n): body]. *)
Fixpoint greedy_loop (n : nat) (st : gen_state) : result gen_state :=
  match n with
  | O => Ok st
  | S n' =>
      r <- greedy_step st ;;
      if snd r then Ok (fst r) else greedy_loop n' (fst r)
  end.

(** The state after [k] passes none of which ended in [break], if the loop
    gets that far. *)
Fixpoint after_steps (k : nat) (st : gen_state) : option gen_state :=
  match k with
  | O => Some st
  | S k' =>
      match greedy_step st with
      | Ok (st', false) => after_steps k' st'
      | _ => None
      end
  end.

End GreedyLoop.

Section Translate.

Variable GELU : R -> R.
Variable encoder : Encoder.
Variable decoder : Decoder.

(** The designated end-of-sequence id of [translate], [</s>]. *)
Definition eos_id : Z := 0.

Definition max_steps : nat := 32.

Definition start_id : Z := 65001.

(** The decoder call of the loop: the encoder output and the encoder mask are
    those computed before the loop. *)
Definition translate_call (enc_output : tensor3) (attention_mask : list (list Z))
    (dec_input_ids dec_attn_mask : list (list Z)) : result tensor3 :=
  Decoder_forward GELU decoder enc_output dec_input_ids
                  (Some attention_mask) (Some dec_attn_mask).

(** The state before the first pass. *)
Definition translate_start : gen_state :=
  let dec_input_ids := [[start_id]] in
  (dec_input_ids, ones_like dec_input_ids).

Definition translate_loop (enc_output : tensor3) (attention_mask : list (list Z))
  : result gen_state :=
  greedy_loop (translate_call enc_output attention_mask) eos_id max_steps
              translate_start.

(** [translate], from the token ids and the attention mask that the tokenizer
    gives for the sentence to the ids handed to [tokenizer.decode]. *)
Definition translate (input_ids attention_mask : list (list Z)) : result (list Z) :=
  (* get encoder output first *)
  enc_output <- Encoder_forward GELU encoder input_ids (Some attention_mask) ;;
  st <- translate_loop enc_output attention_mask ;;
  match fst st with
  | row :: _ => Ok (tl row)
  | [] => Raise IndexError
  end.

End Translate.

(** * The decoder-only model of [Decoder.ipynb] *)

Module DecoderOnly.

(** [CausalSelfAttention] has the attributes of [MultiHeadAttention] with
    the causal mask always registered; [PositionalEncoding] is the class
    above, word for word. *)
Definition CausalSelfAttention : Type := MultiHeadAttention.

Definition CausalSelfAttention_init (d_k d_model n_heads max_len : nat) (p : MHAInit)
  : CausalSelfAttention :=
  MultiHeadAttention_init d_k d_model n_heads max_len true p.

(** One batch element of [CausalSelfAttention.forward]: all three views use
    the length [T] of the query, and the causal mask is sliced to [:T, :T]. *)
Definition CausalSelfAttention_elem (m : CausalSelfAttention) (q k v : mat)
    (pad_row : option (list Z)) : result mat :=
  let T := length q in
  if (length k =? T) && (length v =? T)
  then
    qs <- split_heads m q ;;
    ks <- split_heads m k ;;
    vs <- split_heads m v ;;
    A <- mapM (fun qkv =>
                 let attn_scores := scaled_scores m (fst (fst qkv)) (snd (fst qkv)) in
                 attn_scores <-
                   match pad_row with
                   | Some row => masked_fill [row] attn_scores
                   | None => Ok attn_scores
                   end ;;
                 attn_scores <-
                   match causal_mask m with
                   | Some cm => masked_fill (firstn T (map (firstn T) cm)) attn_scores
                   | None => Raise AttributeError
                   end ;;
                 let attn_weights := map softmax attn_scores in
                 weighted_values m attn_weights (snd qkv))
              (combine (combine qs ks) vs) ;;
    mapM (Linear_apply (fc m)) (merge_heads T A)
  else Raise ShapeError.

Definition CausalSelfAttention_forward (m : CausalSelfAttention) (q k v : tensor3)
    (pad_mask : option (list (list Z))) : result tensor3 :=
  q <- Linear_forward (query m) q ;;
  k <- Linear_forward (key m) k ;;
  v <- Linear_forward (value m) v ;;
  let N := length q in
  let T := shape1 q in
  k <- view_tokens N T k ;;
  v <- view_tokens N T v ;;
  pad_rows <-
    match pad_mask with
    | Some pm => rows <- broadcast_to N pm ;; Ok (map Some rows)
    | None => Ok (repeat None N)
    end ;;
  mapM (fun e =>
          CausalSelfAttention_elem m (fst (fst (fst e))) (snd (fst (fst e)))
                                   (snd (fst e)) (snd e))
       (combine (combine (combine q k) v) pad_rows).

Section Blocks.

Variable GELU : R -> R.

Record TransformerBlock : Type := {
  ln1 : LayerNorm;
  ln2 : LayerNorm;
  mha : CausalSelfAttention;
  ann : FeedForward;
  dropout : Dropout
}.

Definition TransformerBlock_init (d_k d_model n_heads max_len : nat) (dropout_prob : R)
    (p : EncoderBlockInit) : result TransformerBlock :=
  ann <- FeedForward_init d_model dropout_prob (eb_ann p) ;;
  dropout <- nn_Dropout dropout_prob ;;
  Ok {| ln1 := nn_LayerNorm d_model (eb_ln1 p);
        ln2 := nn_LayerNorm d_model (eb_ln2 p);
        mha := CausalSelfAttention_init d_k d_model n_heads max_len (eb_mha p);
        ann := ann;
        dropout := dropout |}.

Definition TransformerBlock_forward (b : TransformerBlock) (x : tensor3)
    (pad_mask : option (list (list Z))) : result tensor3 :=
  a <- CausalSelfAttention_forward (mha b) x x x pad_mask ;;
  s <- tensor_add x a ;;
  x <- LayerNorm_forward (ln1 b) s ;;
  a <- FeedForward_forward GELU (ann b) x ;;
  s <- tensor_add x a ;;
  x <- LayerNorm_forward (ln2 b) s ;;
  Ok (Dropout_forward (dropout b) x).

Record Decoder : Type := {
  embedding : Embedding;
  pos_encoding : PositionalEncoding;
  transformer_blocks : list TransformerBlock;
  ln : LayerNorm;
  fc : Linear
}.

Definition Decoder_init (vocab_size max_len d_k d_model n_heads n_layers : nat)
    (dropout_prob : R) (p : EncoderInit) (p_fc : LinearInit) : result Decoder :=
  pos_encoding <- PositionalEncoding_init d_model max_len dropout_prob ;;
  transformer_blocks <-
    mapM (fun l => TransformerBlock_init d_k d_model n_heads max_len dropout_prob
                                         (ei_blocks p l))
         (seq 0 n_layers) ;;
  Ok {| embedding := nn_Embedding vocab_size d_model (ei_embedding p);
        pos_encoding := pos_encoding;
        transformer_blocks := transformer_blocks;
        ln := nn_LayerNorm d_model (ei_ln p);
        fc := nn_Linear d_model vocab_size p_fc |}.

Definition Decoder_forward (m : Decoder) (x : list (list Z))
    (pad_mask : option (list (list Z))) : result tensor3 :=
  x <- Embedding_forward (embedding m) x ;;
  x <- PositionalEncoding_forward (pos_encoding m) x ;;
  x <- apply_blocks (fun block x => TransformerBlock_forward block x pad_mask)
                    (transformer_blocks m) x ;;
  x <- LayerNorm_forward (ln m) x ;;
  Linear_forward (fc m) x.   (* many-to-many *)

(** The generation cell: the prompt without its final separator, twenty
    passes, [tokenizer.sep_token_id] as the id that ends the generation. *)
Definition generation_steps : nat := 20.

Definition generate (model : Decoder) (sep_token_id : Z)
    (input_ids mask : list (list Z)) : result gen_state :=
  greedy_loop (fun input_ids mask => Decoder_forward model input_ids (Some mask))
              sep_token_id generation_steps (input_ids, mask).

End Blocks.

End DecoderOnly.

(** * The inputs of the training loops *)

(** [torch.roll(x, shifts, dims=1)] on one row: the entry at position [i]
    moves to position [(i + shifts) mod T]. *)
Definition roll_row (A : Type) (shifts : Z) (row : list A) : list A :=
  match length row with
  | O => row
  | S _ =>
      let T := length row in
      let s := Z.to_nat (shifts mod Z.of_nat T) in
      skipn (T - s) row ++ firstn (T - s) row
  end.

Definition roll (A : Type) (shifts : Z) (x : list (list A)) : list (list A) :=
  map (roll_row shifts) x.

(** [x[:, j] = v] for a Python index [j], negative indices counting from the
    end; an index outside a row raises.  (A batch without rows has no width
    in this representation and is left unchanged.) *)
Definition setitem_col (j : Z) (v : Z) (x : list (list Z)) : result (list (list Z)) :=
  mapM (fun row =>
          let T := Z.of_nat (length row) in
          let pos := if (j <? 0)%Z then (T + j)%Z else j in
          if (0 <=? pos)%Z && (pos <? T)%Z
          then Ok (firstn (Z.to_nat pos) row ++ v :: skipn (S (Z.to_nat pos)) row)
          else Raise IndexError)
       x.

(** [x == c]. *)
Definition eq_scalar (c : Z) (x : list (list Z)) : list (list bool) :=
  map (map (fun z => (z =? c)%Z)) x.

(** [x.masked_fill(mask, v)] for a boolean [mask] of the shape of [x]. *)
Definition masked_fill_where (mask : list (list bool)) (v : Z) (x : list (list Z))
  : list (list Z) :=
  map (fun p : list bool * list Z =>
         map (fun e : bool * Z => if fst e then v else snd e) (combine (fst p) (snd p)))
      (combine mask x).

(** The decoder input that [train] of [Encoder_Decoder.ipynb] makes from the
    labels of a batch. *)
Definition train_dec_input (pad_token_id : Z) (targets : list (list Z))
  : result (list (list Z)) :=
  (* shift targets forwards to get decoder_input *)
  let dec_input := targets in
  let dec_input := roll 1 dec_input in
  dec_input <- setitem_col 0 start_id dec_input ;;
  (* also convert all -100 to pad token id *)
  Ok (masked_fill_where (eq_scalar (-100) dec_input) pad_token_id dec_input).

(** The decoder mask that [train] makes from the decoder input. *)
Definition train_dec_mask (pad_token_id : Z) (dec_input : list (list Z))
  : list (list Z) :=
  let dec_mask := ones_like dec_input in
  masked_fill_where (eq_scalar pad_token_id dec_input) 0 dec_mask.

(** The targets that [train] of [Decoder.ipynb] makes from the input ids of
    a batch. *)
Definition train_targets (pad_token_id : Z) (input_ids : list (list Z))
  : result (list (list Z)) :=
  (* shift targets backwards *)
  let targets := input_ids in
  let targets := roll (-1) targets in
  setitem_col (-1) pad_token_id targets.

(** * Vocabulary of the statements *)

Definition is_finite (v : val) : Prop := exists r, v = Fin r.

Definition finite_vec (x : vec) : Prop := Forall is_finite x.
Definition finite_mat (x : mat) : Prop := Forall finite_vec x.
Definition finite_tensor (x : tensor3) : Prop := Forall finite_mat x.

(** The sum of a list of reals. *)
Definition rsum (l : list R) : R := fold_right Rplus 0%R l.

(** The mass a score has under the exponential. *)
Definition rexp (s : score) : R :=
  match s with
  | SVal (Fin r) => exp r
  | _ => 0%R
  end.

Definition score_not_nan (s : score) : Prop := s <> SVal NaN.

(** The entry (i, j) of the lower-triangular matrix of ones. *)
Definition causal_entry (i j : nat) : Z := if (j <=? i)%nat then 1%Z else 0%Z.

(** Key position [j] is open to query position [i]: its padding-mask entry is
    not 0 and, under a causal mask, it is not later than [i]. *)
Definition pad_open (pad_row : option (list Z)) (j : nat) : bool :=
  match pad_row with
  | Some row => negb (nth j row 0%Z =? 0)%Z
  | None => true
  end.

Definition causal_open (causal : bool) (i j : nat) : bool :=
  negb causal || (j <=? i)%nat.

Definition key_open (causal : bool) (pad_row : option (list Z)) (i j : nat) : bool :=
  pad_open pad_row j && causal_open causal i j.

(** The padding mask has the shape (N, T_input) of the keys. *)
Definition pad_mask_fits (pad_mask : option (list (list Z))) (k : tensor3) : Prop :=
  match pad_mask with
  | Some pm => Forall2 (fun row kn => length row = length kn) pm k
  | None => True
  end.

(** The padding-mask row of batch element [n]. *)
Definition pad_row_of (pad_mask : option (list (list Z))) (n : nat) : option (list Z) :=
  option_map (fun pm => nth n pm []) pad_mask.

(** Every sequence of the batch has at most [max_len] positions. *)
Definition within_max_len (max_len : nat) (x : tensor3) : Prop :=
  Forall (fun xn => (length xn <= max_len)%nat) x.

(** Key position [j] is masked for query position [i] of batch element [n]:
    its padding-mask entry is 0, or the module is causal and [j] is later
    than [i]. *)
Definition key_masked (causal : bool) (pad_mask : option (list (list Z)))
    (n i j : nat) : Prop :=
  (exists pm, pad_mask = Some pm /\ nth j (nth n pm []) 0%Z = 0%Z) \/
  (causal = true /\ (i < j)%nat).

Definition all_NaN (x : list val) : Prop := Forall (fun c => c = NaN) x.

(** The positional signal in the words of the specification:
    [sin(pos / 10000^(2 floor(i/2) / d_model))] for even [i] and the cosine of
    the same angle for odd [i]. *)
Definition sinusoid (d_model pos i : nat) : R :=
  let angle := (INR pos / Rpower 10000 (2 * INR (i / 2) / INR d_model))%R in
  if Nat.even i then sin angle else cos angle.

(** The table [PE] of shape (max_len, d_model). *)
Definition sinusoid_table (d_model max_len : nat) : list (list R) :=
  map (fun pos => map (sinusoid d_model pos) (seq 0 d_model)) (seq 0 max_len).

(** The tensor has the shape (N, T, d_model) for some [T <= max_len]. *)
Definition embedded_shape (d_model max_len : nat) (x : tensor3) : Prop :=
  Forall (fun xn => (length xn <= max_len)%nat /\
                    Forall (fun row => length row = d_model) xn) x.

(** [x + PE[:T, :]], broadcast over the batch. *)
Definition add_positions (d_model : nat) (x : tensor3) : tensor3 :=
  map (fun xn =>
         map (fun trow =>
                map (fun ia => vadd (snd ia) (Fin (sinusoid d_model (fst trow) (fst ia))))
                    (enumerate (snd trow)))
             (enumerate xn))
      x.

(** [LayerNorm(x + Sublayer(x))], where [sub] is the outcome of the sublayer
    on [x]. *)
Definition residual_norm (norm : LayerNorm) (x : tensor3) (sub : result tensor3)
  : result tensor3 :=
  match sub with
  | Ok a =>
      match tensor_add x a with
      | Ok s => LayerNorm_forward norm s
      | Raise e => Raise e
      end
  | Raise e => Raise e
  end.

(** The decoder block in the words of the specification: causal
    self-attention on the decoder input under the decoder mask, cross-attention
    from that result to the encoder output under the encoder mask,
    feed-forward, each wrapped in residual and normalisation, then dropout.
    [self_attention] and [cross_attention] are the two attention modules. *)
Definition decoder_block_composition (GELU : R -> R)
    (self_attention cross_attention : MultiHeadAttention) (b : DecoderBlock)
    (enc_output dec_input : tensor3) (enc_mask dec_mask : option (list (list Z)))
  : result tensor3 :=
  match residual_norm (ln1 b) dec_input
          (MultiHeadAttention_forward self_attention
             dec_input dec_input dec_input dec_mask) with
  | Ok x1 =>
      match residual_norm (ln2 b) x1
              (MultiHeadAttention_forward cross_attention
                 x1 enc_output enc_output enc_mask) with
      | Ok x2 =>
          match residual_norm (ln3 b) x2 (FeedForward_forward GELU (ann b) x2) with
          | Ok x3 => Ok (Dropout_forward (dropout b) x3)
          | Raise e => Raise e
          end
      | Raise e => Raise e
      end
  | Raise e => Raise e
  end.

(** [Decoder.forward(Encoder.forward(enc_input, enc_mask), dec_input,
    enc_mask, dec_mask)]. *)
Definition encoder_then_decoder (GELU : R -> R) (enc : Encoder) (dec : Decoder)
    (enc_input dec_input enc_mask dec_mask : list (list Z)) : result tensor3 :=
  match Encoder_forward GELU enc enc_input (Some enc_mask) with
  | Ok enc_output =>
      Decoder_forward GELU dec enc_output dec_input (Some enc_mask) (Some dec_mask)
  | Raise e => Raise e
  end.

(** Some token id of the batch is outside [0, vocab_size). *)
Definition id_out_of_range (vocab_size : nat) (x : list (list Z)) : Prop :=
  exists row id, In row x /\ In id row /\
                 ((id < 0)%Z \/ (Z.of_nat vocab_size <= id)%Z).

(** ** One row of attention *)

(** [Linear_apply] on a vector of [in_features] entries. *)
Definition Linear_out (l : Linear) (x : vec) : vec :=
  map (fun o => vadd (vdot x (Linear_row l o)) (Fin (bias l o))) (seq 0 (out_features l)).

(** The part of a projected token vector that belongs to head [h]. *)
Definition head_slice (m : MultiHeadAttention) (h : nat) (row : vec) : vec :=
  firstn (d_k m) (skipn (h * d_k m) row).

(** The scores of one query position of one head after both masks. *)
Definition masked_scores (m : MultiHeadAttention) (pad_row : option (list Z)) (i : nat)
    (qih : vec) (kh : mat) : list score :=
  map (fun jk => if key_open (causal m) pad_row i (fst jk)
                 then SVal (vdiv (vdot qih (snd jk)) (Fin (sqrt (INR (d_k m)))))
                 else NegInf)
      (enumerate kh).

(** The attention-weighted values of one query position in head [h]. *)
Definition head_out (m : MultiHeadAttention) (pad_row : option (list Z)) (i : nat)
    (qi : vec) (k v : mat) (h : nat) : vec :=
  let w := softmax (masked_scores m pad_row i (head_slice m h qi)
                                  (map (head_slice m h) k)) in
  map (fun d => vdot w (map (fun vj => nth d vj NaN) (map (head_slice m h) v)))
      (seq 0 (d_k m)).

(** The output of the attention at query position [i], from the projected
    query vector and the projected keys and values of the sequence. *)
Definition attention_row (m : MultiHeadAttention) (pad_row : option (list Z)) (i : nat)
    (qi : vec) (k v : mat) : vec :=
  Linear_out (fc m) (concat (map (head_out m pad_row i qi k v) (seq 0 (n_heads m)))).

(** One batch element of the attention, from the inputs of the projections. *)
Definition attention_out (m : MultiHeadAttention) (pad_row : option (list Z))
    (qn kn vn : mat) : mat :=
  map (fun iq => attention_row m pad_row (fst iq) (Linear_out (query m) (snd iq))
                   (map (Linear_out (key m)) kn) (map (Linear_out (value m)) vn))
      (enumerate qn).

(** The tensor has the shape (N, T, D). *)
Definition has_shape (N T D : nat) (x : tensor3) : Prop :=
  length x = N /\
  Forall (fun xn => length xn = T /\ Forall (fun row => length row = D) xn) x.

(** ** The layers on vectors of the right length *)

(** [LayerNorm_apply] on a vector of [normalized_shape] entries. *)
Definition LayerNorm_out (ln : LayerNorm) (x : vec) : vec :=
  let mu := mean x in
  let var := mean (map (fun xi => vmul (vsub xi mu) (vsub xi mu)) x) in
  map (fun ix =>
         vadd (vmul (vdiv (vsub (snd ix) mu) (vsqrt (vadd var (Fin (eps ln)))))
                    (Fin (ln_weight ln (fst ix))))
              (Fin (ln_bias ln (fst ix))))
      (enumerate x).

(** [vec_add] on two vectors of one length. *)
Definition vec_sum (x y : vec) : vec :=
  map (fun p => vadd (fst p) (snd p)) (combine x y).

Definition mat_sum (x y : mat) : mat :=
  map (fun p => vec_sum (fst p) (snd p)) (combine x y).

Definition tensor_sum (x y : tensor3) : tensor3 :=
  map (fun p => mat_sum (fst p) (snd p)) (combine x y).

Definition GELU_vec (GELU : R -> R) (x : vec) : vec :=
  map (fun a => match a with Fin r => Fin (GELU r) | NaN => NaN end) x.

(** [FeedForward_forward] at one position. *)
Definition FeedForward_out (GELU : R -> R) (f : FeedForward) (x : vec) : vec :=
  Linear_out (ann_2 f) (GELU_vec GELU (Linear_out (ann_0 f) x)).

(** The attention at query position [i] of one batch element, from the
    inputs of the projections. *)
Definition attention_at (m : MultiHeadAttention) (pad_row : option (list Z)) (i : nat)
    (xi : vec) (kn vn : mat) : vec :=
  attention_row m pad_row i (Linear_out (query m) xi)
                (map (Linear_out (key m)) kn) (map (Linear_out (value m)) vn).

(** A tensor computed position by position from the tensor [x]: the entry at
    position [i] of batch element [n] is [F n i] of the vector that [x] has
    there. *)
Definition per_position (N : nat) (x : tensor3) (F : nat -> nat -> vec -> vec) : tensor3 :=
  map (fun n => map (fun iq => F n (fst iq) (snd iq)) (enumerate (nth n x []))) (seq 0 N).

(** ** The blocks, position by position *)

(** [LayerNorm(x + a)] at one position. *)
Definition residual_row (norm : LayerNorm) (xi a : vec) : vec :=
  LayerNorm_out norm (vec_sum xi a).

Section BlockRows.

Variable GELU : R -> R.

(** [EncoderBlock.forward] at position [i] of a sequence [xn]. *)
Definition EncoderBlock_row (b : EncoderBlock) (pad_row : option (list Z)) (xn : mat)
    (i : nat) (xi : vec) : vec :=
  let x1 := residual_row (enc_ln1 b) xi (attention_at (enc_mha b) pad_row i xi xn xn) in
  residual_row (enc_ln2 b) x1 (FeedForward_out GELU (enc_ann b) x1).

(** [DecoderBlock.forward] at position [i] of a decoder sequence [xn], with
    the encoder output [enc_n] of the same batch element. *)
Definition DecoderBlock_row (b : DecoderBlock) (enc_row dec_row : option (list Z))
    (enc_n xn : mat) (i : nat) (xi : vec) : vec :=
  let x1 := residual_row (ln1 b) xi (attention_at (mha1 b) dec_row i xi xn xn) in
  let x2 := residual_row (ln2 b) x1 (attention_at (mha2 b) enc_row i x1 enc_n enc_n) in
  residual_row (ln3 b) x2 (FeedForward_out GELU (ann b) x2).

(** [TransformerBlock.forward] of the decoder-only model at position [i]. *)
Definition TransformerBlock_row (b : DecoderOnly.TransformerBlock)
    (pad_row : option (list Z)) (xn : mat) (i : nat) (xi : vec) : vec :=
  let x1 := residual_row (DecoderOnly.ln1 b) xi
                         (attention_at (DecoderOnly.mha b) pad_row i xi xn xn) in
  residual_row (DecoderOnly.ln2 b) x1 (FeedForward_out GELU (DecoderOnly.ann b) x1).

End BlockRows.

(** Every query position of every batch element has a key position that
    neither mask closes. *)
Definition open_key_everywhere (is_causal : bool) (pad_mask : option (list (list Z)))
    (N Tq Tk : nat) : Prop :=
  forall n i, (n < N)%nat -> (i < Tq)%nat ->
    exists j, (j < Tk)%nat /\ key_open is_causal (pad_row_of pad_mask n) i j = true.

(** A tensor of shape (N, T, D) without NaN. *)
Definition good_tensor (N T D : nat) (x : tensor3) : Prop :=
  has_shape N T D x /\ finite_tensor x.

(** A matrix of token ids or of mask entries of shape (N, T). *)
Definition matrix_shape (A : Type) (N T : nat) (m : list (list A)) : Prop :=
  length m = N /\ Forall (fun row => length row = T) m.

(** The padding mask, when there is one, has the shape (N, T). *)
Definition mask_shape (N T : nat) (pad_mask : option (list (list Z))) : Prop :=
  match pad_mask with
  | Some pm => matrix_shape N T pm
  | None => True
  end.

(** Every token id is in [0, vocab_size). *)
Definition ids_in_vocab (vocab_size : nat) (ids : list (list Z)) : Prop :=
  Forall (Forall (fun id => (0 <= id < Z.of_nat vocab_size)%Z)) ids.

(** The row of the embedding table for a token id. *)
Definition Embedding_row (e : Embedding) (id : Z) : vec :=
  map (fun i => Fin (emb_weight e (Z.to_nat id) i)) (seq 0 (embedding_dim e)).

(** The first [p] positions of every sequence of a batch: [x[:, :p]]. *)
Definition truncate (A : Type) (p : nat) (x : list (list A)) : list (list A) :=
  map (firstn p) x.



(** Every row of the mask has an entry that is not 0. *)
Definition rows_have_open (mask : list (list Z)) : Prop :=
  Forall (Exists (fun z => z <> 0%Z)) mask.

(** Every row of the mask starts with an entry that is not 0. *)
Definition rows_start_open (mask : list (list Z)) : Prop :=
  Forall (fun row => hd 0%Z row <> 0%Z) mask.

(** [0 <= p <= 1], the condition of [nn.Dropout]. *)
Definition valid_probability (p : R) : bool :=
  if Rle_dec 0 p then if Rle_dec p 1 then true else false else false.

(** The exception that the constructors of the stacks end with, if any. *)
Definition construction_error (d_model : nat) (dropout_prob : R) : option exn :=
  if valid_probability dropout_prob then
    if d_model =? 0 then Some ZeroDivisionError
    else if Nat.odd d_model && (3 <=? d_model) then Some ShapeError
    else None
  else Some ValueError.

(** The result [r] of a constructor is the exception [err], or a module. *)
Definition constructs (A : Type) (r : result A) (err : option exn) : Prop :=
  match err with
  | Some e => r = Raise e
  | None => exists m, r = Ok m
  end.

(** The padding mask, when there is one, leaves a key open in every row. *)
Definition some_key_open (pad_mask : option (list (list Z))) : Prop :=
  match pad_mask with
  | Some pm => rows_have_open pm
  | None => True
  end.

(** The padding mask, when there is one, leaves the first key of every row
    open. *)
Definition first_key_open (pad_mask : option (list (list Z))) : Prop :=
  match pad_mask with
  | Some pm => rows_start_open pm
  | None => True
  end.

(** The batch that holds only element [n] of a batch: [x[n:n+1]]. *)
Definition batch_elem (A : Type) (n : nat) (x : list (list A)) : list (list A) :=
  [nth n x []].

(** Two padding masks close the same keys of a batch of [N] sequences of
    [T] keys: their entries are 0 at the same places. *)
Definition same_closed_keys (pad_mask pad_mask' : option (list (list Z))) (N T : nat)
  : Prop :=
  forall n j, (n < N)%nat -> (j < T)%nat ->
    pad_open (pad_row_of pad_mask n) j = pad_open (pad_row_of pad_mask' n) j.

(** * Small instances *)

(** Layers whose weights are all 1 and whose biases are 0. *)
Definition unit_linear : LinearInit := (fun _ _ => 1%R, fun _ => 0%R).

Definition unit_mha : MHAInit :=
  {| key_init := unit_linear; query_init := unit_linear;
     value_init := unit_linear; fc_init := unit_linear |}.

(** Attention modules with one head and [d_k = d_model = 1]. *)
Definition tiny_attention (max_len : nat) (causal : bool) : MultiHeadAttention :=
  MultiHeadAttention_init 1 1 1 max_len causal unit_mha.

(** A batch of one sequence of two tokens, embedded as zeros. *)
Definition two_tokens : tensor3 := [[[Fin 0]; [Fin 0]]].

(** A batch of one sequence of one token. *)
Definition one_token : tensor3 := [[[Fin 0]]].

Definition unit_layer_norm : LayerNormInit := (fun _ => 1%R, fun _ => 0%R).

Definition unit_decoder_block : DecoderBlockInit :=
  {| db_ln1 := unit_layer_norm; db_ln2 := unit_layer_norm; db_ln3 := unit_layer_norm;
     db_mha1 := unit_mha; db_mha2 := unit_mha;
     db_ann := (unit_linear, unit_linear) |}.

Definition unit_encoder_block : EncoderBlockInit :=
  {| eb_ln1 := unit_layer_norm; eb_ln2 := unit_layer_norm;
     eb_mha := unit_mha; eb_ann := (unit_linear, unit_linear) |}.

(** The decoder block that [DecoderBlock(1, 2, 1, 4, 0)] builds from the
    unit parameters. *)
Definition tiny_decoder_block : DecoderBlock :=
  {| ln1 := nn_LayerNorm 2 unit_layer_norm;
     ln2 := nn_LayerNorm 2 unit_layer_norm;
     ln3 := nn_LayerNorm 2 unit_layer_norm;
     mha1 := MultiHeadAttention_init 1 2 1 4 true unit_mha;
     mha2 := MultiHeadAttention_init 1 2 1 4 false unit_mha;
     ann := {| ann_0 := nn_Linear 2 (2 * 4) unit_linear;
               ann_2 := nn_Linear (2 * 4) 2 unit_linear;
               ann_3 := mkDropout 0 |};
     dropout := mkDropout 0 |}.

(** The parameters of [tiny_decoder], and an encoder of the same size. *)
Definition tiny_decoder_init : DecoderInit :=
  {| di_embedding := fun _ _ => 0%R;
     di_blocks := fun _ => unit_decoder_block;
     di_ln := unit_layer_norm;
     di_fc := (fun _ _ => 0%R, fun o => INR o) |}.

Definition tiny_encoder_init : EncoderInit :=
  {| ei_embedding := fun _ _ => 0%R;
     ei_blocks := fun _ => unit_encoder_block;
     ei_ln := unit_layer_norm |}.

Definition tiny_encoder : Encoder :=
  {| enc_embedding := nn_Embedding 2 2 (fun _ _ => 0%R);
     enc_pos_encoding := {| pe_dropout := mkDropout 0; pe := sinusoid_table 2 4 |};
     enc_transformer_blocks := [];
     enc_ln := nn_LayerNorm 2 unit_layer_norm |}.

(** A decoder stack without blocks: two tokens in the vocabulary,
    [d_model = 2], room for four positions, a zero embedding table, and a
    final projection whose logit for token [o] is [o]. *)
Definition tiny_decoder : Decoder :=
  {| embedding := nn_Embedding 2 2 (fun _ _ => 0%R);
     pos_encoding := {| pe_dropout := mkDropout 0; pe := sinusoid_table 2 4 |};
     transformer_blocks := [];
     dec_ln := nn_LayerNorm 2 unit_layer_norm;
     dec_fc := nn_Linear 2 2 (fun _ _ => 0%R, fun o => INR o) |}.

(** A stand-in for a model in the generation loop: it prefers token 1 while
    the sequence has fewer than three ids and token 0 afterwards. *)
Definition toy_call (ids mask : list (list Z)) : result tensor3 :=
  Ok [[if (shape1 ids <? 3)%nat then [Fin 0; Fin 1] else [Fin 1; Fin 0]]].

(** The blocks and stacks that the constructors return for a valid dropout
    probability and an even [d_model]. *)
Definition built_FeedForward (d_model : nat) (dropout_prob : R)
    (p : LinearInit * LinearInit) : FeedForward :=
  {| ann_0 := nn_Linear d_model (d_model * 4) (fst p);
     ann_2 := nn_Linear (d_model * 4) d_model (snd p);
     ann_3 := mkDropout dropout_prob |}.

Definition built_EncoderBlock (d_k d_model n_heads max_len : nat) (dropout_prob : R)
    (p : EncoderBlockInit) : EncoderBlock :=
  {| enc_ln1 := nn_LayerNorm d_model (eb_ln1 p);
     enc_ln2 := nn_LayerNorm d_model (eb_ln2 p);
     enc_mha := MultiHeadAttention_init d_k d_model n_heads max_len false (eb_mha p);
     enc_ann := built_FeedForward d_model dropout_prob (eb_ann p);
     enc_dropout := mkDropout dropout_prob |}.

Definition built_DecoderBlock (d_k d_model n_heads max_len : nat) (dropout_prob : R)
    (p : DecoderBlockInit) : DecoderBlock :=
  {| ln1 := nn_LayerNorm d_model (db_ln1 p);
     ln2 := nn_LayerNorm d_model (db_ln2 p);
     ln3 := nn_LayerNorm d_model (db_ln3 p);
     mha1 := MultiHeadAttention_init d_k d_model n_heads max_len true (db_mha1 p);
     mha2 := MultiHeadAttention_init d_k d_model n_heads max_len false (db_mha2 p);
     ann := built_FeedForward d_model dropout_prob (db_ann p);
     dropout := mkDropout dropout_prob |}.

Definition built_TransformerBlock (d_k d_model n_heads max_len : nat) (dropout_prob : R)
    (p : EncoderBlockInit) : DecoderOnly.TransformerBlock :=
  {| DecoderOnly.ln1 := nn_LayerNorm d_model (eb_ln1 p);
     DecoderOnly.ln2 := nn_LayerNorm d_model (eb_ln2 p);
     DecoderOnly.mha :=
       DecoderOnly.CausalSelfAttention_init d_k d_model n_heads max_len (eb_mha p);
     DecoderOnly.ann := built_FeedForward d_model dropout_prob (eb_ann p);
     DecoderOnly.dropout := mkDropout dropout_prob |}.

Definition built_Encoder (vocab_size max_len d_k d_model n_heads n_layers : nat)
    (dropout_prob : R) (p : EncoderInit) : Encoder :=
  {| enc_embedding := nn_Embedding vocab_size d_model (ei_embedding p);
     enc_pos_encoding := {| pe_dropout := mkDropout dropout_prob;
                            pe := sinusoid_table d_model max_len |};
     enc_transformer_blocks :=
       map (fun l => built_EncoderBlock d_k d_model n_heads max_len dropout_prob
                                        (ei_blocks p l))
           (seq 0 n_layers);
     enc_ln := nn_LayerNorm d_model (ei_ln p) |}.

Definition built_Decoder (vocab_size max_len d_k d_model n_heads n_layers : nat)
    (dropout_prob : R) (p : DecoderInit) : Decoder :=
  {| embedding := nn_Embedding vocab_size d_model (di_embedding p);
     pos_encoding := {| pe_dropout := mkDropout dropout_prob;
                        pe := sinusoid_table d_model max_len |};
     transformer_blocks :=
       map (fun l => built_DecoderBlock d_k d_model n_heads max_len dropout_prob
                                        (di_blocks p l))
           (seq 0 n_layers);
     dec_ln := nn_LayerNorm d_model (di_ln p);
     dec_fc := nn_Linear d_model vocab_size (di_fc p) |}.

Definition built_DecoderOnly (vocab_size max_len d_k d_model n_heads n_layers : nat)
    (dropout_prob : R) (p : EncoderInit) (p_fc : LinearInit) : DecoderOnly.Decoder :=
  {| DecoderOnly.embedding := nn_Embedding vocab_size d_model (ei_embedding p);
     DecoderOnly.pos_encoding := {| pe_dropout := mkDropout dropout_prob;
                                    pe := sinusoid_table d_model max_len |};
     DecoderOnly.transformer_blocks :=
       map (fun l => built_TransformerBlock d_k d_model n_heads max_len dropout_prob
                                            (ei_blocks p l))
           (seq 0 n_layers);
     DecoderOnly.ln := nn_LayerNorm d_model (ei_ln p);
     DecoderOnly.fc := nn_Linear d_model vocab_size p_fc |}.

(** Stacks of one block with [d_k = 1], [d_model = 2], one head and no
    dropout, built from the unit parameters. *)
Definition small_encoder (vocab_size max_len : nat) : Encoder :=
  built_Encoder vocab_size max_len 1 2 1 1 0 tiny_encoder_init.

Definition small_decoder (vocab_size max_len : nat) : Decoder :=
  built_Decoder vocab_size max_len 1 2 1 1 0 tiny_decoder_init.

Definition small_decoder_only (vocab_size max_len : nat) : DecoderOnly.Decoder :=
  built_DecoderOnly vocab_size max_len 1 2 1 1 0 tiny_encoder_init
                    (fun _ _ => 0%R, fun o => INR o).

(** * Properties *)

Unset Implicit Arguments.

(** ** The error monad and lists *)

Lemma bind_Ok_inv {A B : Type} (c : result A) (f : A -> result B) (b : B) :
  bind c f = Ok b -> exists a, c = Ok a /\ f a = Ok b.
Proof.
  destruct c as [a|e]; simpl; intros H; [exists a; auto | discriminate].
Qed.

Tactic Notation "inv_bind" hyp(H) "as" ident(a) ident(Ha) :=
  apply bind_Ok_inv in H; destruct H as (a & Ha & H).

Lemma mapM_Forall2 {A B : Type} {f : A -> result B} {l : list A} {l' : list B} :
  mapM f l = Ok l' -> Forall2 (fun x y => f x = Ok y) l l'.
Proof.
  revert l'; induction l as [|x l IH]; simpl; intros l' H.
  - injection H as <-; constructor.
  - inv_bind H as y Hy. inv_bind H as ys Hys. injection H as <-. constructor; auto.
Qed.

Lemma Forall2_mapM {A B : Type} {f : A -> result B} {l : list A} {l' : list B} :
  Forall2 (fun x y => f x = Ok y) l l' -> mapM f l = Ok l'.
Proof.
  induction 1 as [|x y l l' Hxy _ IH]; simpl; [reflexivity|].
  rewrite Hxy; simpl; rewrite IH; reflexivity.
Qed.

Lemma Forall2_nth_error_l {A B : Type} {P : A -> B -> Prop} {l : list A} {l' : list B} :
  Forall2 P l l' ->
  forall {i y}, nth_error l' i = Some y -> exists x, nth_error l i = Some x /\ P x y.
Proof.
  induction 1 as [|x y l l' Hxy _ IH]; intros [|i] z Hz; simpl in *; try discriminate.
  - injection Hz as <-; eauto.
  - eauto.
Qed.

Lemma Forall2_nth_error_r {A B : Type} {P : A -> B -> Prop} {l : list A} {l' : list B} :
  Forall2 P l l' ->
  forall {i x}, nth_error l i = Some x -> exists y, nth_error l' i = Some y /\ P x y.
Proof.
  induction 1 as [|x y l l' Hxy _ IH]; intros [|i] z Hz; simpl in *; try discriminate.
  - injection Hz as <-; eauto.
  - eauto.
Qed.

Lemma mapM_length {A B : Type} {f : A -> result B} {l : list A} {l' : list B} :
  mapM f l = Ok l' -> length l' = length l.
Proof.
  intros H; apply mapM_Forall2 in H; symmetry; eapply Forall2_length; eauto.
Qed.

Lemma mapM_nth_error {A B : Type} {f : A -> result B} {l : list A} {l' : list B} :
  mapM f l = Ok l' ->
  forall {i y}, nth_error l' i = Some y -> exists x, nth_error l i = Some x /\ f x = Ok y.
Proof.
  intros H; apply mapM_Forall2 in H. intros i y; exact (Forall2_nth_error_l H).
Qed.

Lemma mapM_Raise_In {A B : Type} (f : A -> result B) (e : exn) (l : list A) :
  (forall x e', f x = Raise e' -> e' = e) ->
  (exists x, In x l /\ f x = Raise e) ->
  mapM f l = Raise e.
Proof.
  intros Hf (x & Hin & Hx). induction l as [|a l IH]; simpl in *; [contradiction|].
  destruct (f a) as [b|e'] eqn:Ha; simpl.
  - destruct Hin as [->|Hin]; [congruence|]. rewrite (IH Hin); reflexivity.
  - f_equal; eauto.
Qed.

Lemma nth_error_combine {A B : Type} (l : list A) (l' : list B) i p :
  nth_error (combine l l') i = Some p <->
  nth_error l i = Some (fst p) /\ nth_error l' i = Some (snd p).
Proof.
  revert l' i; induction l as [|a l IH]; intros [|b l'] [|i]; simpl;
    try (split; [discriminate | intros [? ?]; discriminate]).
  - destruct p as [x y]; simpl; split.
    + intros H; injection H as <- <-; auto.
    + intros [H1 H2]; congruence.
  - apply IH.
Qed.

Lemma nth_error_enumerate {A : Type} (l : list A) i p :
  nth_error (enumerate l) i = Some p <-> fst p = i /\ nth_error l i = Some (snd p).
Proof.
  unfold enumerate; rewrite nth_error_combine; split.
  - intros [H1 H2]; split; auto.
    assert (Hi : (i < length (seq 0 (length l)))%nat)
      by (apply nth_error_Some; congruence).
    rewrite length_seq in Hi.
    rewrite (nth_error_nth' _ 0%nat) in H1 by (rewrite length_seq; exact Hi).
    rewrite seq_nth in H1 by exact Hi. simpl in H1; congruence.
  - intros [H1 H2]; split; auto.
    assert (Hi : (i < length l)%nat) by (apply nth_error_Some; congruence).
    rewrite (nth_error_nth' _ 0%nat) by (rewrite length_seq; exact Hi).
    rewrite seq_nth by exact Hi. simpl; congruence.
Qed.

Lemma Forall_nth_error {A : Type} {P : A -> Prop} {l : list A} {i x} :
  Forall P l -> nth_error l i = Some x -> P x.
Proof.
  intros H Hi. apply (proj1 (Forall_forall P l) H). eapply nth_error_In; eauto.
Qed.

Lemma nth_error_map_Some {A B : Type} {f : A -> B} {l : list A} {i y} :
  nth_error (map f l) i = Some y -> exists x, nth_error l i = Some x /\ y = f x.
Proof.
  rewrite nth_error_map. destruct (nth_error l i) as [x|]; simpl; [|discriminate].
  intros H; injection H as <-; eauto.
Qed.

Lemma nth_error_repeat_Some {A : Type} {x : A} {n i y} :
  nth_error (repeat x n) i = Some y -> y = x /\ (i < n)%nat.
Proof.
  revert i; induction n as [|n IH]; intros [|i]; simpl; try discriminate.
  - intros H; injection H as <-; split; [reflexivity | lia].
  - intros H; destruct (IH _ H); split; [assumption | lia].
Qed.

(** ** Sums of values *)

Lemma vsum_Fin (l : list R) : vsum (map Fin l) = Fin (rsum l).
Proof.
  unfold vsum; induction l as [|x l IH]; simpl; [reflexivity|].
  rewrite IH; reflexivity.
Qed.

Lemma rsum_div (l : list R) (s : R) :
  rsum (map (fun x => x / s)%R l) = (rsum l / s)%R.
Proof.
  induction l as [|x l IH]; simpl.
  - unfold Rdiv; ring.
  - rewrite IH; unfold Rdiv; ring.
Qed.

Lemma finite_vec_map_Fin {x : vec} : finite_vec x -> exists l, x = map Fin l.
Proof.
  induction 1 as [|v x [r ->] _ [l ->]].
  - exists []; reflexivity.
  - exists (r :: l); reflexivity.
Qed.

Lemma map_Fin_finite (l : list R) : finite_vec (map Fin l).
Proof.
  induction l; constructor; [eexists; reflexivity | assumption].
Qed.

Lemma vsum_NaN_In (l : list val) : In NaN l -> vsum l = NaN.
Proof.
  unfold vsum; induction l as [|x l IH]; simpl; [contradiction|].
  intros [->|H]; [reflexivity|].
  rewrite (IH H); destruct x; reflexivity.
Qed.

Lemma vdot_finite {x y : vec} : finite_vec x -> finite_vec y -> is_finite (vdot x y).
Proof.
  intros Hx Hy.
  destruct (finite_vec_map_Fin Hx) as [a ->].
  destruct (finite_vec_map_Fin Hy) as [b ->].
  unfold vdot.
  replace (map (fun p => vmul (fst p) (snd p)) (combine (map Fin a) (map Fin b)))
    with (map Fin (map (fun p => (fst p * snd p)%R) (combine a b))).
  - rewrite vsum_Fin; eexists; reflexivity.
  - clear; revert b; induction a as [|u a IH]; intros [|w b]; simpl; try reflexivity.
    rewrite IH; reflexivity.
Qed.

(** ** Softmax *)

Lemma sexp_rexp {row : list score} :
  Forall score_not_nan row -> map sexp row = map Fin (map rexp row).
Proof.
  induction 1 as [|s row Hs _ IH]; simpl; [reflexivity|].
  rewrite IH; f_equal.
  destruct s as [|[|r]]; simpl; try reflexivity. exfalso; apply Hs; reflexivity.
Qed.

Lemma rexp_nonneg (s : score) : (0 <= rexp s)%R.
Proof.
  destruct s as [|[|r]]; simpl; try lra. left; apply exp_pos.
Qed.

Lemma rsum_rexp_nonneg (row : list score) : (0 <= rsum (map rexp row))%R.
Proof.
  induction row as [|s row IH]; simpl; [lra|].
  pose proof (rexp_nonneg s); lra.
Qed.

Lemma rsum_rexp_pos {row : list score} :
  Exists (fun s => exists r, s = SVal (Fin r)) row -> (0 < rsum (map rexp row))%R.
Proof.
  induction 1 as [s row [r ->]|s row _ IH]; simpl.
  - pose proof (exp_pos r); pose proof (rsum_rexp_nonneg row); lra.
  - pose proof (rexp_nonneg s); lra.
Qed.

Lemma softmax_defined {row : list score} :
  Forall score_not_nan row ->
  Exists (fun s => exists r, s = SVal (Fin r)) row ->
  softmax row = map (fun s => Fin (rexp s / rsum (map rexp row))) row.
Proof.
  intros Hn He. unfold softmax.
  rewrite (sexp_rexp Hn), vsum_Fin, !map_map.
  apply map_ext; intros s; simpl.
  destruct (Req_dec_T (rsum (map rexp row)) 0) as [H0|_]; [|reflexivity].
  pose proof (rsum_rexp_pos He); lra.
Qed.

Lemma softmax_sum_one (row : list score) :
  Forall score_not_nan row ->
  Exists (fun s => exists r, s = SVal (Fin r)) row ->
  vsum (softmax row) = Fin 1.
Proof.
  intros Hn He. rewrite (softmax_defined Hn He).
  pose proof (rsum_rexp_pos He) as Hpos.
  rewrite <- (map_map (fun s => (rexp s / rsum (map rexp row))%R) Fin), vsum_Fin.
  rewrite <- (map_map rexp (fun x => (x / rsum (map rexp row))%R)), rsum_div.
  f_equal; field; lra.
Qed.

Lemma softmax_masked_zero (row : list score) (j : nat) :
  Forall score_not_nan row ->
  Exists (fun s => exists r, s = SVal (Fin r)) row ->
  nth_error row j = Some NegInf ->
  nth_error (softmax row) j = Some (Fin 0).
Proof.
  intros Hn He Hj. rewrite (softmax_defined Hn He), nth_error_map, Hj; simpl.
  do 2 f_equal; unfold Rdiv; ring.
Qed.

Lemma softmax_length (row : list score) : length (softmax row) = length row.
Proof. unfold softmax; rewrite !length_map; reflexivity. Qed.

Lemma softmax_all_masked (row : list score) :
  Forall (fun s => s = NegInf) row -> Forall (fun w => w = NaN) (softmax row).
Proof.
  intros Hall. unfold softmax.
  assert (He : map sexp row = map Fin (map (fun _ => 0%R) row)).
  { induction Hall as [|s row -> _ IH]; simpl; [reflexivity | rewrite IH; reflexivity]. }
  rewrite He, vsum_Fin.
  assert (H0 : rsum (map (fun _ : score => 0%R) row) = 0%R).
  { clear; induction row; simpl; [reflexivity | lra]. }
  rewrite H0. apply Forall_forall; intros w Hw.
  apply in_map_iff in Hw; destruct Hw as (x & <- & Hx).
  apply in_map_iff in Hx; destruct Hx as (y & <- & _). simpl.
  destruct (Req_dec_T 0 0) as [_|Hne]; [reflexivity | exfalso; apply Hne; reflexivity].
Qed.

(** ** Masks *)

Lemma broadcast_to_inv {A : Type} {n : nat} {xs ys : list A} :
  broadcast_to n xs = Ok ys ->
  (ys = xs /\ length xs = n) \/ (exists x, xs = [x] /\ ys = repeat x n /\ n <> 1%nat).
Proof.
  unfold broadcast_to. destruct (Nat.eqb_spec (length xs) n) as [He|Hne].
  - intros H; injection H as <-; left; auto.
  - destruct xs as [|x [|? ?]]; try discriminate.
    intros H; injection H as <-; right; exists x; simpl in Hne; repeat split; auto.
Qed.

Lemma broadcast_to_exact {A : Type} (xs : list A) : broadcast_to (length xs) xs = Ok xs.
Proof. unfold broadcast_to; rewrite Nat.eqb_refl; reflexivity. Qed.

Lemma masked_fill_row_nth {mrow : list Z} {srow srow' : list score} :
  masked_fill_row mrow srow = Ok srow' ->
  length mrow = length srow ->
  length srow' = length srow /\
  forall j s', nth_error srow' j = Some s' ->
    exists mz s, nth_error mrow j = Some mz /\ nth_error srow j = Some s /\ s' = fill mz s.
Proof.
  unfold masked_fill_row; intros H Hlen.
  rewrite <- Hlen, broadcast_to_exact in H; simpl in H. injection H as <-.
  split.
  - rewrite length_map, length_combine; lia.
  - intros j s' Hj. rewrite nth_error_map in Hj.
    destruct (nth_error (combine mrow srow) j) as [[mz s]|] eqn:Hc; [|discriminate].
    apply nth_error_combine in Hc; destruct Hc as [H1 H2]; simpl in *.
    injection Hj as <-; eauto.
Qed.

Lemma masked_fill_nth {mask : list (list Z)} {scores scores' : list (list score)} :
  masked_fill mask scores = Ok scores' ->
  length mask = length scores ->
  length scores' = length scores /\
  forall i row', nth_error scores' i = Some row' ->
    exists mrow row, nth_error mask i = Some mrow /\ nth_error scores i = Some row /\
                     masked_fill_row mrow row = Ok row'.
Proof.
  unfold masked_fill; intros H Hlen.
  rewrite <- Hlen, broadcast_to_exact in H; simpl in H.
  split.
  - rewrite (mapM_length H), length_combine; lia.
  - intros i row' Hi.
    destruct (mapM_nth_error H Hi) as ([mrow row] & Hc & Hf).
    apply nth_error_combine in Hc; destruct Hc as [H1 H2]; simpl in *; eauto.
Qed.

Lemma masked_fill_single_nth {mrow : list Z} {scores scores' : list (list score)} :
  masked_fill [mrow] scores = Ok scores' ->
  length scores' = length scores /\
  forall i row', nth_error scores' i = Some row' ->
    exists row, nth_error scores i = Some row /\ masked_fill_row mrow row = Ok row'.
Proof.
  unfold masked_fill; intros H. inv_bind H as a Ha.
  assert (Hrows : length a = length scores /\ forall i r, nth_error a i = Some r -> r = mrow).
  { apply broadcast_to_inv in Ha; destruct Ha as [[-> Hl]|(x & Hx & -> & _)].
    - split; [exact Hl|]. intros [|[|i]] r; simpl; congruence.
    - injection Hx as <-. split; [apply repeat_length|].
      intros i r Hr; apply nth_error_repeat_Some in Hr; tauto. }
  destruct Hrows as [Hl Hr]. split.
  - rewrite (mapM_length H), length_combine; lia.
  - intros i row' Hi.
    destruct (mapM_nth_error H Hi) as ([r row] & Hc & Hf).
    apply nth_error_combine in Hc; destruct Hc as [H1 H2]; simpl in *.
    apply Hr in H1; subst r; eauto.
Qed.

Lemma enumerate_repeat {A : Type} (x : A) (n : nat) :
  enumerate (repeat x n) = map (fun i => (i, x)) (seq 0 n).
Proof.
  unfold enumerate; rewrite repeat_length.
  generalize 0%nat as s; induction n as [|n IH]; intros s; simpl; [reflexivity|].
  rewrite IH; reflexivity.
Qed.

(** The matrix [tril(ones(r, c))] in closed form. *)
Lemma tril_ones (r c : nat) :
  tril (ones r c) = map (fun i => map (causal_entry i) (seq 0 c)) (seq 0 r).
Proof.
  unfold tril, ones. rewrite enumerate_repeat, map_map.
  apply map_ext; intros i; simpl.
  rewrite enumerate_repeat, map_map.
  apply map_ext; intros j; unfold causal_entry; simpl. reflexivity.
Qed.

Lemma firstn_seq0 (n m : nat) : firstn n (seq 0 m) = seq 0 (Nat.min n m).
Proof.
  generalize 0%nat as s; revert m; induction n as [|n IH]; intros [|m] s; simpl;
    try reflexivity.
  rewrite IH; reflexivity.
Qed.

(** The causal mask sliced to [:T_output, :T_input]. *)
Lemma causal_slice (max_len T_output T_input : nat) :
  firstn T_output (map (firstn T_input) (tril (ones max_len max_len)))
  = map (fun i => map (causal_entry i) (seq 0 (Nat.min T_input max_len)))
        (seq 0 (Nat.min T_output max_len)).
Proof.
  rewrite tril_ones, map_map, firstn_map, firstn_seq0.
  apply map_ext; intros i. rewrite firstn_map, firstn_seq0; reflexivity.
Qed.

(** ** Linear layers and heads keep values finite *)

Lemma Linear_apply_finite {l : Linear} {x y : vec} :
  Linear_apply l x = Ok y -> finite_vec x -> finite_vec y.
Proof.
  unfold Linear_apply. destruct (length x =? in_features l); [|discriminate].
  intros H Hx; injection H as <-.
  apply Forall_forall; intros v Hv. apply in_map_iff in Hv; destruct Hv as (o & <- & _).
  destruct (vdot_finite Hx (map_Fin_finite (map (weight l o) (seq 0 (in_features l)))))
    as [r Hr].
  unfold Linear_row. rewrite <- (map_map (weight l o) Fin), Hr.
  eexists; reflexivity.
Qed.

Lemma Linear_apply_length {l : Linear} {x y : vec} :
  Linear_apply l x = Ok y -> length y = out_features l.
Proof.
  unfold Linear_apply. destruct (length x =? in_features l); [|discriminate].
  intros H; injection H as <-. rewrite length_map, length_seq; reflexivity.
Qed.

Lemma Linear_forward_nth {l : Linear} {x y : tensor3} :
  Linear_forward l x = Ok y ->
  length y = length x /\
  forall n yn, nth_error y n = Some yn ->
    exists xn, nth_error x n = Some xn /\ length yn = length xn /\
               (finite_mat xn -> finite_mat yn).
Proof.
  unfold Linear_forward; intros H. split; [exact (mapM_length H)|].
  intros n yn Hn. destruct (mapM_nth_error H Hn) as (xn & Hx & Hf).
  exists xn; repeat split; auto.
  - exact (mapM_length Hf).
  - intros Hfin. apply Forall_forall; intros row Hrow.
    destruct (In_nth_error _ _ Hrow) as [t Ht].
    destruct (mapM_nth_error Hf Ht) as (xrow & Hxr & Hap).
    apply (Linear_apply_finite Hap). exact (Forall_nth_error Hfin Hxr).
Qed.

Lemma firstn_skipn_finite (a b : nat) (x : vec) :
  finite_vec x -> finite_vec (firstn a (skipn b x)).
Proof.
  intros Hx; apply Forall_forall; intros v Hv.
  destruct (In_nth_error _ _ Hv) as [i Hi].
  rewrite nth_error_firstn in Hi. destruct (i <? a)%nat; [|discriminate].
  rewrite nth_error_skipn in Hi. exact (Forall_nth_error Hx Hi).
Qed.

Lemma split_heads_nth {m : MultiHeadAttention} {x : mat} {hs : list mat} {h xh} :
  split_heads m x = Ok hs -> nth_error hs h = Some xh ->
  (h < n_heads m)%nat /\
  xh = map (fun row => firstn (d_k m) (skipn (h * d_k m) row)) x.
Proof.
  unfold split_heads.
  destruct (forallb (fun row => length row =? n_heads m * d_k m) x); [|discriminate].
  intros H Hh; injection H as <-.
  rewrite nth_error_map, nth_error_seq in Hh.
  destruct (Nat.ltb_spec h (n_heads m)); [|discriminate].
  simpl in Hh; injection Hh as <-; split; auto.
Qed.

Lemma split_heads_finite {m : MultiHeadAttention} {x : mat} {hs : list mat} {h xh} :
  split_heads m x = Ok hs -> nth_error hs h = Some xh ->
  finite_mat x -> length xh = length x /\ finite_mat xh.
Proof.
  intros H Hh Hx. destruct (split_heads_nth H Hh) as [_ ->].
  split; [apply length_map|].
  apply Forall_forall; intros row Hrow.
  apply in_map_iff in Hrow; destruct Hrow as (r & <- & Hr).
  apply firstn_skipn_finite. exact (proj1 (Forall_forall _ _) Hx r Hr).
Qed.

(** ** The rows of scores before the softmax *)

Lemma scaled_scores_row (m : MultiHeadAttention) (qh kh : mat) i srow :
  nth_error (scaled_scores m qh kh) i = Some srow ->
  length srow = length kh /\
  forall j s, nth_error srow j = Some s ->
    (0 < d_k m)%nat -> finite_mat qh -> finite_mat kh -> exists r, s = SVal (Fin r).
Proof.
  unfold scaled_scores; intros Hi.
  destruct (nth_error_map_Some Hi) as (qi & Hqi & ->). split; [apply length_map|].
  intros j s Hj Hd Hq Hk. destruct (nth_error_map_Some Hj) as (kj & Hkj & ->).
  assert (Hqf : finite_vec qi) by exact (Forall_nth_error Hq Hqi).
  assert (Hkf : finite_vec kj) by exact (Forall_nth_error Hk Hkj).
  destruct (vdot_finite Hqf Hkf) as [a ->]. simpl.
  destruct (Req_dec_T (sqrt (INR (d_k m))) 0) as [H0|_]; [|eexists; reflexivity].
  exfalso. assert (0 < INR (d_k m))%R by (apply lt_0_INR; exact Hd).
  pose proof (sqrt_lt_R0 _ H); lra.
Qed.

Lemma pad_stage (pad_row : option (list Z)) (scores0 scores1 : list (list score))
    (T_input : nat) :
  match pad_row with
  | Some row => masked_fill [row] scores0
  | None => Ok scores0
  end = Ok scores1 ->
  match pad_row with Some row => length row = T_input | None => True end ->
  length scores1 = length scores0 /\
  forall i srow1, nth_error scores1 i = Some srow1 ->
    exists srow0, nth_error scores0 i = Some srow0 /\
      (length srow0 = T_input ->
       length srow1 = T_input /\
       forall j s1, nth_error srow1 j = Some s1 ->
         exists s0, nth_error srow0 j = Some s0 /\
                    s1 = if pad_open pad_row j then s0 else NegInf).
Proof.
  destruct pad_row as [row|]; intros H Hlen.
  - destruct (masked_fill_single_nth H) as [Hl Hrows]. split; [exact Hl|].
    intros i srow1 Hi. destruct (Hrows _ _ Hi) as (srow0 & H0 & Hf).
    exists srow0; split; [exact H0|]. intros HT.
    destruct (masked_fill_row_nth Hf) as [Hl1 Hent]; [congruence|].
    split; [congruence|].
    intros j s1 Hj. destruct (Hent _ _ Hj) as (mz & s0 & Hm & Hs0 & ->).
    exists s0; split; [exact Hs0|]. simpl.
    rewrite (nth_error_nth _ _ 0%Z Hm). unfold fill.
    destruct (mz =? 0)%Z; reflexivity.
  - injection H as <-. split; [reflexivity|].
    intros i srow1 Hi; exists srow1; split; [exact Hi|]. intros HT; split; [exact HT|].
    intros j s1 Hj; exists s1; split; [exact Hj | reflexivity].
Qed.

Lemma causal_stage (max_len : nat) (causal : bool) (T_output T_input : nat)
    (scores1 scores2 : list (list score)) :
  (if causal
   then match (if causal then Some (tril (ones max_len max_len)) else None) with
        | Some cm => masked_fill (firstn T_output (map (firstn T_input) cm)) scores1
        | None => Raise AttributeError
        end
   else Ok scores1) = Ok scores2 ->
  length scores1 = T_output ->
  (causal = true -> (T_output <= max_len)%nat /\ (T_input <= max_len)%nat) ->
  forall i srow2, nth_error scores2 i = Some srow2 ->
    exists srow1, nth_error scores1 i = Some srow1 /\
      (length srow1 = T_input ->
       length srow2 = T_input /\
       forall j s2, nth_error srow2 j = Some s2 ->
         exists s1, nth_error srow1 j = Some s1 /\
                    s2 = if causal_open causal i j then s1 else NegInf).
Proof.
  destruct causal; intros H Hlen Hmax.
  - destruct (Hmax eq_refl) as [Ho Hi]. rewrite causal_slice in H.
    rewrite !Nat.min_l in H by assumption.
    destruct (masked_fill_nth H) as [_ Hrows];
      [rewrite length_map, length_seq; congruence|].
    intros i srow2 Hi2. destruct (Hrows _ _ Hi2) as (mrow & srow1 & Hm & H1 & Hf).
    exists srow1; split; [exact H1|]. intros HT.
    rewrite nth_error_map, nth_error_seq in Hm.
    destruct (i <? T_output)%nat; [|discriminate]. simpl in Hm; injection Hm as <-.
    destruct (masked_fill_row_nth Hf) as [Hl2 Hent];
      [rewrite length_map, length_seq; congruence|].
    split; [congruence|].
    intros j s2 Hj. destruct (Hent _ _ Hj) as (mz & s1 & Hmz & Hs1 & ->).
    exists s1; split; [exact Hs1|].
    rewrite nth_error_map, nth_error_seq in Hmz.
    destruct (j <? T_input)%nat; [|discriminate]. simpl in Hmz; injection Hmz as <-.
    unfold causal_open, causal_entry, fill; simpl.
    destruct (j <=? i)%nat; reflexivity.
  - injection H as <-.
    intros i srow2 Hi2; exists srow2; split; [exact Hi2|]. intros HT; split; [exact HT|].
    intros j s2 Hj; exists s2; split; [exact Hj | reflexivity].
Qed.

(** ** The rows of attention weights *)

(** A row of attention weights of a module built by the constructor is the
    softmax of a row of scores that holds minus infinity at the closed key
    positions and, for finite inputs, a finite score at the open ones. *)
Lemma attn_weights_elem_row (d_k d_model n_heads max_len : nat) (causal : bool)
    (p : MHAInit) (q k : mat) (pad_row : option (list Z))
    (Wn : list (list (list val))) (h : nat) (Wh : list (list val)) (i : nat)
    (row : list val) :
  (causal = true -> (length q <= max_len)%nat /\ (length k <= max_len)%nat) ->
  match pad_row with Some r => length r = length k | None => True end ->
  attn_weights_elem (MultiHeadAttention_init d_k d_model n_heads max_len causal p)
                    q k pad_row = Ok Wn ->
  nth_error Wn h = Some Wh -> nth_error Wh i = Some row ->
  (h < n_heads)%nat /\ (i < length q)%nat /\
  exists srow, row = softmax srow /\ length srow = length k /\
    forall j s, nth_error srow j = Some s ->
      (key_open causal pad_row i j = false -> s = NegInf) /\
      (key_open causal pad_row i j = true ->
       (0 < d_k)%nat -> finite_mat q -> finite_mat k -> exists r, s = SVal (Fin r)).
Proof.
  intros Hmax Hpad H Hh Hi. unfold attn_weights_elem in H.
  inv_bind H as qs Hqs. inv_bind H as ks Hks.
  destruct (mapM_nth_error H Hh) as ([qh kh] & Hc & Hbody).
  apply nth_error_combine in Hc; destruct Hc as [Hqh Hkh]; simpl in Hqh, Hkh, Hbody.
  inv_bind Hbody as scores1 H1. inv_bind Hbody as scores2 H2. injection Hbody as <-.
  destruct (nth_error_map_Some Hi) as (srow2 & Hs2 & ->).
  destruct (split_heads_nth Hqs Hqh) as [Hhn Eqh].
  destruct (split_heads_nth Hks Hkh) as [_ Ekh]. simpl in Hhn.
  assert (Hlq : length qh = length q) by (rewrite Eqh; apply length_map).
  assert (Hlk : length kh = length k) by (rewrite Ekh; apply length_map).
  destruct (pad_stage pad_row _ _ (length k) H1 Hpad) as [Hl1 Hrows1].
  assert (Hl0 : length scores1 = length q).
  { rewrite Hl1. unfold scaled_scores. rewrite length_map. exact Hlq. }
  destruct (causal_stage max_len causal (length q) (length k) _ _ H2 Hl0 Hmax _ _ Hs2)
    as (srow1 & Hs1 & Hc2).
  destruct (Hrows1 _ _ Hs1) as (srow0 & Hs0 & Hc1).
  destruct (scaled_scores_row _ _ _ _ _ Hs0) as [Hlen0 Hfin0].
  rewrite Hlk in Hlen0.
  destruct (Hc1 Hlen0) as [Hlen1 He1]. destruct (Hc2 Hlen1) as [Hlen2 He2].
  split; [exact Hhn|]. split.
  { rewrite <- Hl0. apply nth_error_Some. congruence. }
  exists srow2; repeat split; auto.
  - intros Hclosed. destruct (He2 _ _ H0) as (s1 & Hj1 & ->).
    destruct (He1 _ _ Hj1) as (s0 & Hj0 & ->).
    unfold key_open in Hclosed.
    destruct (pad_open pad_row j), (causal_open causal i j); simpl in *;
      auto; discriminate.
  - intros Hopen Hd Hq Hk. destruct (He2 _ _ H0) as (s1 & Hj1 & ->).
    destruct (He1 _ _ Hj1) as (s0 & Hj0 & ->).
    unfold key_open in Hopen.
    destruct (pad_open pad_row j), (causal_open causal i j); simpl in *;
      try discriminate.
    apply (Hfin0 _ _ Hj0 Hd).
    + destruct (split_heads_finite Hqs Hqh Hq); assumption.
    + destruct (split_heads_finite Hks Hkh Hk); assumption.
Qed.

Lemma softmax_row_facts (causal : bool) (pad_row : option (list Z)) (i : nat)
    (srow : list score) :
  (forall j s, nth_error srow j = Some s ->
     if key_open causal pad_row i j then exists r, s = SVal (Fin r) else s = NegInf) ->
  (exists j, (j < length srow)%nat /\ key_open causal pad_row i j = true) ->
  vsum (softmax srow) = Fin 1 /\
  forall j, (j < length srow)%nat -> key_open causal pad_row i j = false ->
    nth_error (softmax srow) j = Some (Fin 0).
Proof.
  intros Hent (j0 & Hj0 & Hopen).
  assert (Hn : Forall score_not_nan srow).
  { apply Forall_forall; intros s Hs. destruct (In_nth_error _ _ Hs) as [j Hj].
    specialize (Hent _ _ Hj). unfold score_not_nan.
    destruct (key_open causal pad_row i j); [destruct Hent as [r ->] | subst s];
      discriminate. }
  assert (He : Exists (fun s => exists r, s = SVal (Fin r)) srow).
  { apply Exists_exists.
    destruct (nth_error srow j0) as [s|] eqn:Hs;
      [|apply nth_error_None in Hs; lia].
    exists s; split; [eapply nth_error_In; eauto|].
    specialize (Hent _ _ Hs). rewrite Hopen in Hent; exact Hent. }
  split; [exact (softmax_sum_one _ Hn He)|].
  intros j Hj Hclosed. apply softmax_masked_zero; auto.
  destruct (nth_error srow j) as [s|] eqn:Hs; [|apply nth_error_None in Hs; lia].
  specialize (Hent _ _ Hs). rewrite Hclosed in Hent; congruence.
Qed.

(** The batch element behind a row of [attn_weights]. *)
Lemma attn_weights_elem_of (m : MultiHeadAttention) (q k : tensor3)
    (pad_mask : option (list (list Z))) (W : list (list (list (list val))))
    (n : nat) (Wn : list (list (list val))) :
  pad_mask_fits pad_mask k ->
  MultiHeadAttention_attn_weights m q k pad_mask = Ok W ->
  nth_error W n = Some Wn ->
  exists qn kn qn' kn',
    nth_error q n = Some qn /\ nth_error k n = Some kn /\
    length qn' = length qn /\ length kn' = length kn /\
    (finite_mat qn -> finite_mat qn') /\ (finite_mat kn -> finite_mat kn') /\
    match pad_row_of pad_mask n with
    | Some r => length r = length kn
    | None => True
    end /\
    attn_weights_elem m qn' kn' (pad_row_of pad_mask n) = Ok Wn.
Proof.
  intros Hfit H Hn. unfold MultiHeadAttention_attn_weights in H.
  inv_bind H as q' Hq'. inv_bind H as k' Hk'. inv_bind H as pad_rows Hpr.
  destruct (Nat.eqb_spec (length k') (length q')) as [HN|]; [|discriminate].
  destruct (mapM_nth_error H Hn) as ([[qn' kn'] pr] & Hc & Helem).
  apply nth_error_combine in Hc; destruct Hc as [Hc Hprn].
  apply nth_error_combine in Hc; destruct Hc as [Hqn' Hkn']. simpl in *.
  destruct (Linear_forward_nth Hq') as [_ Hq]. destruct (Hq _ _ Hqn') as (qn & Hqn & Hlq & Hfq).
  destruct (Linear_forward_nth Hk') as [Hlk Hk]. destruct (Hk _ _ Hkn') as (kn & Hkn & Hlkn & Hfk).
  exists qn, kn, qn', kn'. repeat (split; [assumption|]).
  assert (Hpn : pr = pad_row_of pad_mask n /\
                match pr with Some r => length r = length kn | None => True end).
  { destruct pad_mask as [pm|]; simpl in *.
    - inv_bind Hpr as rows Hrows. injection Hpr as <-.
      destruct (nth_error_map_Some Hprn) as (r & Hr & ->).
      pose proof (Forall2_length Hfit) as Hlpm.
      destruct (broadcast_to_inv Hrows) as [[-> _]|(x & -> & _ & Hne)];
        [|simpl in Hlpm; exfalso; apply Hne; congruence].
      rewrite (nth_error_nth _ _ [] Hr). split; [reflexivity|].
      destruct (Forall2_nth_error_r Hfit Hr) as (kn0 & Hkn0 & Hlen). congruence.
    - injection Hpr as <-. apply nth_error_repeat_Some in Hprn.
      destruct Hprn as [-> _]; split; [reflexivity | exact I]. }
  destruct Hpn as [-> Hlen]. split; [exact Hlen | exact Helem].
Qed.

(** Every row of [attn_weights] is the softmax of a row of scores with minus
    infinity at the closed key positions. *)
Lemma attn_weights_row_inv (d_k d_model n_heads max_len : nat) (causal : bool)
    (p : MHAInit) (q k : tensor3) (pad_mask : option (list (list Z)))
    (W : list (list (list (list val)))) (n h i : nat)
    (Wn : list (list (list val))) (Wh : list (list val)) (row : list val) :
  (causal = true -> within_max_len max_len q /\ within_max_len max_len k) ->
  pad_mask_fits pad_mask k ->
  MultiHeadAttention_attn_weights
    (MultiHeadAttention_init d_k d_model n_heads max_len causal p) q k pad_mask = Ok W ->
  nth_error W n = Some Wn -> nth_error Wn h = Some Wh -> nth_error Wh i = Some row ->
  exists qn kn srow,
    nth_error q n = Some qn /\ nth_error k n = Some kn /\
    (h < n_heads)%nat /\ (i < length qn)%nat /\
    row = softmax srow /\ length srow = length kn /\
    forall j s, nth_error srow j = Some s ->
      (key_open causal (pad_row_of pad_mask n) i j = false -> s = NegInf) /\
      (key_open causal (pad_row_of pad_mask n) i j = true ->
       (0 < d_k)%nat -> finite_mat qn -> finite_mat kn -> exists r, s = SVal (Fin r)).
Proof.
  intros Hmax Hfit H Hn Hh Hi.
  destruct (attn_weights_elem_of _ _ _ _ _ _ _ Hfit H Hn)
    as (qn & kn & qn' & kn' & Hqn & Hkn & Hlq & Hlk & Hfq & Hfk & Hpad & Helem).
  assert (Hmax' : causal = true ->
                  (length qn' <= max_len)%nat /\ (length kn' <= max_len)%nat).
  { intros Hc. destruct (Hmax Hc) as [Hq Hk]. rewrite Hlq, Hlk. split.
    - exact (Forall_nth_error Hq Hqn).
    - exact (Forall_nth_error Hk Hkn). }
  assert (Hpad' : match pad_row_of pad_mask n with
                  | Some r => length r = length kn'
                  | None => True
                  end).
  { destruct (pad_row_of pad_mask n); [congruence | exact I]. }
  destruct (attn_weights_elem_row _ _ _ _ _ _ _ _ _ _ _ _ _ _ Hmax' Hpad' Helem Hh Hi)
    as (Hhn & Hiq & srow & -> & Hlen & Hent).
  exists qn, kn, srow. repeat (split; [congruence || assumption|]).
  intros j s Hj. destruct (Hent _ _ Hj) as [Hc Ho]. split; [exact Hc|].
  intros Hopen Hd Hq Hk. exact (Ho Hopen Hd (Hfq Hq) (Hfk Hk)).
Qed.

Lemma key_open_false_iff (causal : bool) (pad_mask : option (list (list Z)))
    (n i j : nat) :
  key_open causal (pad_row_of pad_mask n) i j = false <->
  key_masked causal pad_mask n i j.
Proof.
  unfold key_open, key_masked, pad_row_of, causal_open.
  assert (Hsome : forall pm pm' : list (list Z), Some pm = Some pm' -> pm = pm')
    by (intros ? ? E; injection E; auto).
  destruct pad_mask as [pm|]; simpl;
    [destruct (Z.eqb_spec (nth j (nth n pm []) 0%Z) 0%Z) as [E|E] |];
    destruct causal; simpl; destruct (Nat.leb_spec j i) as [L|L]; split; intros H;
    try reflexivity; try discriminate;
    try (left; exists pm; split; [reflexivity | assumption]);
    try (right; split; [reflexivity | lia]);
    destruct H as [(pm' & Hpm & H0)|[Hc Hlt]];
    try discriminate; try lia;
    apply Hsome in Hpm; subst pm'; contradiction.
Qed.

Lemma key_open_true_iff (causal : bool) (pad_mask : option (list (list Z)))
    (n i j : nat) :
  key_open causal (pad_row_of pad_mask n) i j = true <->
  ~ key_masked causal pad_mask n i j.
Proof.
  rewrite <- key_open_false_iff.
  destruct (key_open causal (pad_row_of pad_mask n) i j); split; congruence.
Qed.

(** ** Concrete evaluations *)

Ltac sqrt1_nonzero :=
  match goal with
  | |- context [Req_dec_T (sqrt 1) 0] =>
      destruct (Req_dec_T (sqrt 1) 0) as [E|_];
      [exfalso; rewrite sqrt_1 in E; lra|]; cbn
  end.

Ltac positive_total e :=
  repeat match goal with
  | |- context [Req_dec_T ?t 0] =>
      destruct (Req_dec_T t 0) as [E|_]; [exfalso; pose proof (exp_pos e); lra|]
  end.

(** Two tokens under a causal module with room for two positions: the first
    position attends to itself only, the second to both. *)
Lemma tiny_causal_weights :
  MultiHeadAttention_attn_weights (tiny_attention 2 true) two_tokens two_tokens None
  = Ok [[[[Fin 1; Fin 0]; [Fin (1 / 2); Fin (1 / 2)]]]].
Proof.
  cbn. sqrt1_nonzero.
  set (x := (((0 * 1 + 0 + 0) * (0 * 1 + 0 + 0) + 0) / sqrt 1)%R).
  positive_total x.
  pose proof (exp_pos x). set (e := exp x) in *.
  replace (e / (e + (0 + 0)))%R with 1%R by (field; lra).
  replace (0 / (e + (0 + 0)))%R with 0%R by (field; lra).
  replace (e / (e + (e + 0)))%R with (1 / 2)%R by (field; lra).
  reflexivity.
Qed.

(** A causal module built for a single position, run on two tokens: the 1x1
    causal mask is broadcast over the 2x2 scores and masks nothing. *)
Lemma short_causal_mask_weights :
  MultiHeadAttention_attn_weights (tiny_attention 1 true) two_tokens two_tokens None
  = Ok [[[[Fin (1 / 2); Fin (1 / 2)]; [Fin (1 / 2); Fin (1 / 2)]]]].
Proof.
  cbn. sqrt1_nonzero.
  set (x := (((0 * 1 + 0 + 0) * (0 * 1 + 0 + 0) + 0) / sqrt 1)%R).
  positive_total x.
  pose proof (exp_pos x). set (e := exp x) in *.
  replace (e / (e + (e + 0)))%R with (1 / 2)%R by (field; lra).
  reflexivity.
Qed.

(** ** Attention weights: normalisation and masking *)

(** C1 (amended).  For a module built by [MultiHeadAttention.__init__] with
    [d_k >= 1], inputs without NaN, a 0/1 padding mask of the shape
    (N, T_input) of the keys (or none) and, when the module is causal,
    sequences of at most [max_len] positions: in every row of [attn_weights]
    (batch element [n], head [h], query position [i]) that is not entirely
    masked, the weights over the key axis sum to 1 and the weight at every
    masked key position (padding-mask entry 0, or later than [i] under a
    causal mask) is exactly 0.  The row has one weight per key position. *)
Theorem attention_weights_normalised_and_masked
    (d_k d_model n_heads max_len : nat) (causal : bool) (p : MHAInit)
    (q k : tensor3) (pad_mask : option (list (list Z)))
    (W : list (list (list (list val)))) (n h i : nat)
    (Wn : list (list (list val))) (Wh : list (list val)) (row : list val) :
  (0 < d_k)%nat -> finite_tensor q -> finite_tensor k ->
  (causal = true -> within_max_len max_len q /\ within_max_len max_len k) ->
  pad_mask_fits pad_mask k ->
  MultiHeadAttention_attn_weights
    (MultiHeadAttention_init d_k d_model n_heads max_len causal p) q k pad_mask = Ok W ->
  nth_error W n = Some Wn -> nth_error Wn h = Some Wh -> nth_error Wh i = Some row ->
  (exists j, (j < length row)%nat /\ ~ key_masked causal pad_mask n i j) ->
  vsum row = Fin 1 /\
  (forall j, (j < length row)%nat -> key_masked causal pad_mask n i j ->
             nth_error row j = Some (Fin 0)) /\
  (exists kn, nth_error k n = Some kn /\ length row = length kn).
Proof.
  intros Hd Hq Hk Hmax Hfit H Hn Hh Hi (j0 & Hj0 & Hopen).
  destruct (attn_weights_row_inv _ _ _ _ _ _ _ _ _ _ _ _ _ _ _ _ Hmax Hfit H Hn Hh Hi)
    as (qn & kn & srow & Hqn & Hkn & _ & _ & -> & Hlen & Hent).
  rewrite softmax_length in *.
  assert (Hfq : finite_mat qn) by exact (Forall_nth_error Hq Hqn).
  assert (Hfk : finite_mat kn) by exact (Forall_nth_error Hk Hkn).
  destruct (softmax_row_facts causal (pad_row_of pad_mask n) i srow) as [Hsum Hzero].
  - intros j s Hj. destruct (Hent _ _ Hj) as [Hc Ho].
    destruct (key_open causal (pad_row_of pad_mask n) i j); auto.
  - exists j0; split; [exact Hj0|]. apply key_open_true_iff; exact Hopen.
  - split; [exact Hsum|]. split.
    + intros j Hj Hm. apply Hzero; [exact Hj|]. apply key_open_false_iff; exact Hm.
    + exists kn; split; [exact Hkn | exact Hlen].
Qed.

(** The theorem at the causal module with room for two positions, at the first
    query position: the row [1; 0]. *)
Lemma attention_weights_normalised_and_masked_witness :
  vsum [Fin 1; Fin 0] = Fin 1 /\
  (forall j, (j < 2)%nat -> key_masked true None 0 0 j ->
             nth_error [Fin 1; Fin 0] j = Some (Fin 0)) /\
  (exists kn, nth_error two_tokens 0 = Some kn /\ 2%nat = length kn).
Proof.
  apply (attention_weights_normalised_and_masked 1 1 1 2 true unit_mha
           two_tokens two_tokens None
           [[[[Fin 1; Fin 0]; [Fin (1 / 2); Fin (1 / 2)]]]] 0 0 0
           [[[Fin 1; Fin 0]; [Fin (1 / 2); Fin (1 / 2)]]]
           [[Fin 1; Fin 0]; [Fin (1 / 2); Fin (1 / 2)]]
           [Fin 1; Fin 0]).
  - lia.
  - repeat constructor; eexists; reflexivity.
  - repeat constructor; eexists; reflexivity.
  - intros _; split; repeat constructor.
  - exact I.
  - exact tiny_causal_weights.
  - reflexivity.
  - reflexivity.
  - reflexivity.
  - exists 0%nat; split; [simpl; lia|].
    intros [(pm & Hpm & _)|[_ Hlt]]; [discriminate | lia].
Defined.

(** C1, counterexample.  A causal module built with [max_len = 1] evaluates
    two tokens without an error, and the first query position puts the weight
    1/2 on the second key position, which is later than it. *)
Lemma attention_weights_counterexample :
  MultiHeadAttention_attn_weights (tiny_attention 1 true) two_tokens two_tokens None
  = Ok [[[[Fin (1 / 2); Fin (1 / 2)]; [Fin (1 / 2); Fin (1 / 2)]]]]
  /\ key_masked true None 0 0 1
  /\ nth_error [Fin (1 / 2); Fin (1 / 2)] 1 <> Some (Fin 0).
Proof.
  split; [exact short_causal_mask_weights|]. split.
  - right; split; [reflexivity | lia].
  - simpl. intros H; injection H as H; lra.
Qed.

(** ** The causal mask *)

Lemma tril_ones_shape (max_len : nat) :
  length (tril (ones max_len max_len)) = max_len /\
  (forall i row, nth_error (tril (ones max_len max_len)) i = Some row ->
                 length row = max_len) /\
  (forall i j, (i < max_len)%nat -> (j < max_len)%nat ->
               nth j (nth i (tril (ones max_len max_len)) []) 0%Z
               = if (j <=? i)%nat then 1%Z else 0%Z).
Proof.
  rewrite tril_ones. split; [|split].
  - rewrite length_map, length_seq; reflexivity.
  - intros i row Hi. destruct (nth_error_map_Some Hi) as (i' & _ & ->).
    rewrite length_map, length_seq; reflexivity.
  - intros i j Hi Hj.
    rewrite (nth_indep _ [] (map (causal_entry 0) (seq 0 max_len)))
      by (rewrite length_map, length_seq; exact Hi).
    rewrite (map_nth (fun i => map (causal_entry i) (seq 0 max_len)) (seq 0 max_len) 0%nat i).
    rewrite seq_nth by exact Hi. simpl.
    rewrite (nth_indep _ 0%Z (causal_entry i 0))
      by (rewrite length_map, length_seq; exact Hj).
    rewrite (map_nth (causal_entry i) (seq 0 max_len) 0%nat j).
    rewrite seq_nth by exact Hj. reflexivity.
Qed.

Lemma causal_slice_shape (max_len T_output T_input : nat) :
  (T_output <= max_len)%nat -> (T_input <= max_len)%nat ->
  let s := firstn T_output (map (firstn T_input) (tril (ones max_len max_len))) in
  length s = T_output /\
  (forall i row, nth_error s i = Some row -> length row = T_input) /\
  (forall i j, (i < T_output)%nat -> (j < T_input)%nat ->
               nth j (nth i s []) 0%Z = if (j <=? i)%nat then 1%Z else 0%Z).
Proof.
  intros Ho Hi s. subst s. rewrite causal_slice, !Nat.min_l by assumption.
  split; [|split].
  - rewrite length_map, length_seq; reflexivity.
  - intros i row Hr. destruct (nth_error_map_Some Hr) as (i' & _ & ->).
    rewrite length_map, length_seq; reflexivity.
  - intros i j Hlt Hj.
    rewrite (nth_indep _ [] (map (causal_entry 0) (seq 0 T_input)))
      by (rewrite length_map, length_seq; exact Hlt).
    rewrite (map_nth (fun i => map (causal_entry i) (seq 0 T_input)) (seq 0 T_output) 0%nat i).
    rewrite seq_nth by exact Hlt. simpl.
    rewrite (nth_indep _ 0%Z (causal_entry i 0))
      by (rewrite length_map, length_seq; exact Hj).
    rewrite (map_nth (causal_entry i) (seq 0 T_input) 0%nat j).
    rewrite seq_nth by exact Hj. reflexivity.
Qed.

Lemma DecoderBlock_init_mha (d_k d_model n_heads max_len : nat) (dropout_prob : R)
    (pb : DecoderBlockInit) (b : DecoderBlock) :
  DecoderBlock_init d_k d_model n_heads max_len dropout_prob pb = Ok b ->
  mha1 b = MultiHeadAttention_init d_k d_model n_heads max_len true (db_mha1 pb) /\
  mha2 b = MultiHeadAttention_init d_k d_model n_heads max_len false (db_mha2 pb).
Proof.
  unfold DecoderBlock_init; intros H.
  inv_bind H as f Hf. inv_bind H as d Hd. injection H as <-. split; reflexivity.
Qed.

(** Left padding under a causal mask: the first query position has its own
    key closed by the padding mask and the second by the causal mask. *)
Lemma left_padded_causal_weights :
  MultiHeadAttention_attn_weights (tiny_attention 2 true) two_tokens two_tokens
                                  (Some [[0; 1]]%Z)
  = Ok [[[[NaN; NaN]; [Fin 0; Fin 1]]]].
Proof.
  cbn. sqrt1_nonzero.
  set (x := (((0 * 1 + 0 + 0) * (0 * 1 + 0 + 0) + 0) / sqrt 1)%R).
  destruct (Req_dec_T (0 + (0 + 0)) 0) as [_|E]; [|exfalso; apply E; lra].
  positive_total x.
  pose proof (exp_pos x). set (e := exp x) in *.
  replace (0 / (0 + (e + 0)))%R with 0%R by (field; lra).
  replace (e / (0 + (e + 0)))%R with 1%R by (field; lra).
  reflexivity.
Qed.

(** C2 (amended).  The causal mask registered by [MultiHeadAttention.__init__]
    with [causal=True] is the lower-triangular 0/1 matrix of shape
    (max_len, max_len) including the diagonal (entry (i, j) is 1 if [j <= i]
    and 0 otherwise); for [T_output, T_input <= max_len] its slice
    [:T_output, :T_input] has that shape and the same entries; and in every
    causal self-attention call on NaN-free sequences of at most [max_len]
    positions (with [d_k >= 1] and a padding mask of the shape of the input,
    or none), in every row that is not entirely masked, the weight from query
    position [i] to every later key position [j] is 0, for every batch element
    and head.  Every decoder block builds its self-attention as such a causal
    module. *)
Theorem causal_mask_and_causal_weights
    (d_k d_model n_heads max_len : nat) (p : MHAInit) :
  let m := MultiHeadAttention_init d_k d_model n_heads max_len true p in
  (exists cm,
     causal_mask m = Some cm /\ length cm = max_len /\
     (forall i row, nth_error cm i = Some row -> length row = max_len) /\
     (forall i j, (i < max_len)%nat -> (j < max_len)%nat ->
                  nth j (nth i cm []) 0%Z = if (j <=? i)%nat then 1%Z else 0%Z) /\
     (forall T_output T_input,
        (T_output <= max_len)%nat -> (T_input <= max_len)%nat ->
        let s := firstn T_output (map (firstn T_input) cm) in
        length s = T_output /\
        (forall i row, nth_error s i = Some row -> length row = T_input) /\
        (forall i j, (i < T_output)%nat -> (j < T_input)%nat ->
                     nth j (nth i s []) 0%Z = nth j (nth i cm []) 0%Z))) /\
  (forall (x : tensor3) (pad_mask : option (list (list Z)))
          (W : list (list (list (list val)))) (n h i : nat)
          (Wn : list (list (list val))) (Wh : list (list val)) (row : list val),
     (0 < d_k)%nat -> finite_tensor x -> within_max_len max_len x ->
     pad_mask_fits pad_mask x ->
     MultiHeadAttention_attn_weights m x x pad_mask = Ok W ->
     nth_error W n = Some Wn -> nth_error Wn h = Some Wh -> nth_error Wh i = Some row ->
     (exists j, (j < length row)%nat /\ ~ key_masked true pad_mask n i j) ->
     forall j, (i < j < length row)%nat -> nth_error row j = Some (Fin 0)) /\
  (forall (dropout_prob : R) (pb : DecoderBlockInit) (b : DecoderBlock),
     DecoderBlock_init d_k d_model n_heads max_len dropout_prob pb = Ok b ->
     mha1 b = MultiHeadAttention_init d_k d_model n_heads max_len true (db_mha1 pb)).
Proof.
  intros m. split; [|split].
  - exists (tril (ones max_len max_len)).
    destruct (tril_ones_shape max_len) as (Hl & Hr & He).
    repeat (split; [assumption || reflexivity|]).
    intros T_output T_input Ho Hi s.
    destruct (causal_slice_shape max_len T_output T_input Ho Hi) as (Hsl & Hsr & Hse).
    repeat (split; [assumption|]).
    intros i j Hlt Hj. subst s. rewrite Hse, He by lia. reflexivity.
  - intros x pad_mask W n h i Wn Wh row Hd Hx Hmax Hfit H Hn Hh Hi (j0 & Hj0 & Hopen)
           j Hj.
    destruct (attn_weights_row_inv _ _ _ _ _ _ _ _ _ _ _ _ _ _ _ _
                (fun _ => conj Hmax Hmax) Hfit H Hn Hh Hi)
      as (qn & kn & srow & Hqn & Hkn & _ & _ & -> & Hlen & Hent).
    rewrite softmax_length in *.
    assert (Hfq : finite_mat qn) by exact (Forall_nth_error Hx Hqn).
    assert (Hfk : finite_mat kn) by exact (Forall_nth_error Hx Hkn).
    destruct (softmax_row_facts true (pad_row_of pad_mask n) i srow) as [_ Hzero].
    + intros j' s Hj'. destruct (Hent _ _ Hj') as [Hc Ho].
      destruct (key_open true (pad_row_of pad_mask n) i j'); auto.
    + exists j0; split; [exact Hj0|]. apply key_open_true_iff; exact Hopen.
    + apply Hzero; [lia|]. apply key_open_false_iff.
      right; split; [reflexivity | lia].
  - intros dropout_prob pb b Hb.
    exact (proj1 (DecoderBlock_init_mha _ _ _ _ _ _ _ Hb)).
Qed.

(** The causal part of the theorem at the module with room for two positions:
    the first query position puts no weight on the second key. *)
Lemma causal_mask_and_causal_weights_witness :
  nth_error [Fin 1; Fin 0] 1 = Some (Fin 0).
Proof.
  assert (Hlater : (0 < 1 < length [Fin 1; Fin 0])%nat) by (simpl; lia).
  revert Hlater.
  apply (proj1 (proj2 (causal_mask_and_causal_weights 1 1 1 2 unit_mha))
           two_tokens None
           [[[[Fin 1; Fin 0]; [Fin (1 / 2); Fin (1 / 2)]]]] 0%nat 0%nat 0%nat
           [[[Fin 1; Fin 0]; [Fin (1 / 2); Fin (1 / 2)]]]
           [[Fin 1; Fin 0]; [Fin (1 / 2); Fin (1 / 2)]]
           [Fin 1; Fin 0]).
  - lia.
  - repeat constructor; eexists; reflexivity.
  - repeat constructor.
  - exact I.
  - exact tiny_causal_weights.
  - reflexivity.
  - reflexivity.
  - reflexivity.
  - exists 0%nat; split; [simpl; lia|].
    intros [(pm & Hpm & _)|[_ Hlt]]; [discriminate | lia].
Defined.

(** C2, counterexample.  A causal self-attention call within [max_len] whose
    padding mask closes the first position: the weight from query position 0
    to the later key position 1 is NaN, not 0. *)
Lemma causal_weights_counterexample :
  MultiHeadAttention_attn_weights (tiny_attention 2 true) two_tokens two_tokens
                                  (Some [[0; 1]]%Z)
  = Ok [[[[NaN; NaN]; [Fin 0; Fin 1]]]]
  /\ nth_error [NaN; NaN] 1 <> Some (Fin 0).
Proof.
  split; [exact left_padded_causal_weights | discriminate].
Qed.

(** ** A row without any open key *)

Lemma vdot_NaN (x y : list val) :
  all_NaN x -> x <> [] -> y <> [] -> vdot x y = NaN.
Proof.
  intros Hx Hne Hy. destruct x as [|a x]; [contradiction|].
  destruct y as [|b y]; [contradiction|].
  inversion Hx as [|? ? Ha _]; subst. reflexivity.
Qed.

Lemma weighted_values_NaN (m : MultiHeadAttention) (w : list (list val)) (vh : mat)
    (Ah : mat) (i : nat) (wrow : list val) :
  weighted_values m w vh = Ok Ah ->
  nth_error w i = Some wrow -> all_NaN wrow -> wrow <> [] ->
  exists arow, nth_error Ah i = Some arow /\ length arow = d_k m /\ all_NaN arow.
Proof.
  unfold weighted_values; intros H Hi Hnan Hne.
  pose proof (mapM_Forall2 H) as HF.
  destruct (Forall2_nth_error_r HF Hi) as (arow & Ha & Hrow).
  exists arow; split; [exact Ha|].
  destruct (Nat.eqb_spec (length wrow) (length vh)) as [Hl|]; [|discriminate].
  injection Hrow as <-. split; [rewrite length_map, length_seq; reflexivity|].
  apply Forall_forall; intros c Hc. apply in_map_iff in Hc; destruct Hc as (d & <- & _).
  apply vdot_NaN; auto.
  destruct vh; [destruct wrow; [contradiction | discriminate] | discriminate].
Qed.

Lemma all_NaN_concat (l : list (list val)) :
  Forall all_NaN l -> all_NaN (concat l).
Proof.
  induction 1 as [|x l Hx _ IH]; simpl; [constructor|].
  apply Forall_app; split; assumption.
Qed.

Lemma Linear_apply_NaN (l : Linear) (x y : vec) :
  Linear_apply l x = Ok y -> all_NaN x -> x <> [] ->
  length y = out_features l /\ all_NaN y.
Proof.
  intros H Hx Hne. split; [exact (Linear_apply_length H)|].
  unfold Linear_apply in H.
  destruct (Nat.eqb_spec (length x) (in_features l)) as [Hl|]; [|discriminate].
  injection H as <-.
  apply Forall_forall; intros c Hc. apply in_map_iff in Hc; destruct Hc as (o & <- & _).
  rewrite vdot_NaN; auto.
  unfold Linear_row. destruct x; [contradiction|].
  simpl in Hl. rewrite <- Hl. simpl. discriminate.
Qed.

Lemma masked_fill_length (mask : list (list Z)) (scores scores' : list (list score)) :
  masked_fill mask scores = Ok scores' -> length scores' = length scores.
Proof.
  unfold masked_fill; intros H. inv_bind H as mask' Hm.
  rewrite (mapM_length H), length_combine.
  destruct (broadcast_to_inv Hm) as [[-> Hl]|(x & _ & -> & _)];
    [|rewrite repeat_length]; lia.
Qed.

Lemma attn_weights_elem_shape (m : MultiHeadAttention) (q k : mat)
    (pad_row : option (list Z)) (Wn : list (list (list val))) :
  attn_weights_elem m q k pad_row = Ok Wn ->
  length Wn = n_heads m /\
  forall h Wh, nth_error Wn h = Some Wh -> length Wh = length q.
Proof.
  unfold attn_weights_elem; intros H.
  inv_bind H as qs Hqs. inv_bind H as ks Hks.
  assert (Hlen : forall x hs, split_heads m x = Ok hs -> length hs = n_heads m).
  { unfold split_heads; intros x hs Hx.
    destruct (forallb _ x); [|discriminate]. injection Hx as <-.
    rewrite length_map, length_seq; reflexivity. }
  split.
  - rewrite (mapM_length H), length_combine, (Hlen _ _ Hqs), (Hlen _ _ Hks); lia.
  - intros h Wh Hh. destruct (mapM_nth_error H Hh) as ([qh kh] & Hc & Hbody).
    apply nth_error_combine in Hc; destruct Hc as [Hqh _]; simpl in Hqh, Hbody.
    inv_bind Hbody as scores1 H1. inv_bind Hbody as scores2 H2. injection Hbody as <-.
    destruct (split_heads_nth Hqs Hqh) as [_ ->].
    rewrite length_map.
    assert (H21 : length scores2 = length scores1).
    { destruct (causal m); [|congruence].
      destruct (causal_mask m); [|discriminate]. exact (masked_fill_length _ _ _ H2). }
    assert (H10 : length scores1 = length (scaled_scores m
                    (map (fun row => firstn (d_k m) (skipn (h * d_k m) row)) q) kh)).
    { destruct pad_row; [exact (masked_fill_length _ _ _ H1) | congruence]. }
    rewrite H21, H10. unfold scaled_scores. rewrite !length_map. reflexivity.
Qed.

Lemma forward_elem_of (m : MultiHeadAttention) (q k v : tensor3)
    (pad_mask : option (list (list Z))) (out : tensor3) (n : nat) (outn : mat) :
  MultiHeadAttention_forward m q k v pad_mask = Ok out ->
  nth_error out n = Some outn ->
  exists W Wn qn kn vn,
    MultiHeadAttention_attn_weights m q k pad_mask = Ok W /\
    nth_error W n = Some Wn /\ nth_error q n = Some qn /\ nth_error k n = Some kn /\
    attend_elem m (length qn) (length kn) Wn vn = Ok outn.
Proof.
  unfold MultiHeadAttention_forward; intros H Hn.
  inv_bind H as W HW. inv_bind H as v' Hv. inv_bind H as v'' Hview.
  destruct (mapM_nth_error H Hn) as ([[[qn kn] Wn] vn] & Hc & He).
  apply nth_error_combine in Hc; destruct Hc as [Hc Hvn].
  apply nth_error_combine in Hc; destruct Hc as [Hc HWn].
  apply nth_error_combine in Hc; destruct Hc as [Hqn Hkn]. simpl in *.
  exists W, Wn, qn, kn, vn. auto.
Qed.

Lemma attend_elem_NaN (m : MultiHeadAttention) (T_output T_input : nat)
    (Wn : list (list (list val))) (vn : mat) (outn : mat) (i : nat) (y : vec) :
  attend_elem m T_output T_input Wn vn = Ok outn ->
  nth_error outn i = Some y ->
  length Wn = n_heads m -> (0 < n_heads m)%nat -> (0 < d_k m)%nat ->
  (forall h Wh, nth_error Wn h = Some Wh ->
     exists wrow, nth_error Wh i = Some wrow /\ all_NaN wrow /\ wrow <> []) ->
  length y = out_features (fc m) /\ all_NaN y.
Proof.
  unfold attend_elem; intros H Hi HlW Hh Hd Hrows.
  destruct (length vn =? T_input); [|discriminate].
  inv_bind H as vs Hvs. inv_bind H as A HA.
  destruct (mapM_nth_error H Hi) as (xrow & Hx & Hap).
  unfold merge_heads in Hx. destruct (nth_error_map_Some Hx) as (i' & Hi' & ->).
  rewrite nth_error_seq in Hi'. destruct (i <? T_output)%nat; [|discriminate].
  simpl in Hi'; injection Hi' as <-.
  assert (Hlvs : length vs = n_heads m).
  { unfold split_heads in Hvs. destruct (forallb _ vn); [|discriminate].
    injection Hvs as <-. rewrite length_map, length_seq; reflexivity. }
  assert (HlA : length A = n_heads m).
  { rewrite (mapM_length HA), length_combine; lia. }
  assert (Hall : forall Ah, In Ah A ->
            exists arow, nth_error Ah i = Some arow /\ length arow = d_k m /\ all_NaN arow).
  { intros Ah HIn. destruct (In_nth_error _ _ HIn) as [h Hh'].
    destruct (mapM_nth_error HA Hh') as ([Wh vh] & Hc & Hw).
    apply nth_error_combine in Hc; destruct Hc as [HWh _]; simpl in *.
    destruct (Hrows _ _ HWh) as (wrow & Hwr & Hnan & Hne).
    exact (weighted_values_NaN _ _ _ _ _ _ Hw Hwr Hnan Hne). }
  apply (Linear_apply_NaN _ _ _ Hap).
  - apply all_NaN_concat. apply Forall_forall; intros r Hr.
    apply in_map_iff in Hr; destruct Hr as (Ah & <- & HIn).
    destruct (Hall _ HIn) as (arow & Ha & _ & Hnan).
    rewrite (nth_error_nth _ _ [] Ha). exact Hnan.
  - destruct A as [|Ah A]; [simpl in HlA; lia|]. simpl.
    destruct (Hall Ah (or_introl eq_refl)) as (arow & Ha & Hl & _).
    rewrite (nth_error_nth _ _ [] Ha).
    destruct arow; [simpl in Hl; lia | discriminate].
Qed.

Lemma attend_elem_length (m : MultiHeadAttention) (T_output T_input : nat)
    (Wn : list (list (list val))) (vn outn : mat) :
  attend_elem m T_output T_input Wn vn = Ok outn -> length outn = T_output.
Proof.
  unfold attend_elem; intros H.
  destruct (length vn =? T_input); [|discriminate].
  inv_bind H as vs Hvs. inv_bind H as A HA.
  rewrite (mapM_length H). unfold merge_heads. rewrite length_map, length_seq; reflexivity.
Qed.

Lemma masked_row_all_NaN (d_k d_model n_heads max_len : nat) (causal : bool)
    (p : MHAInit) (q k : tensor3) (pad_mask : option (list (list Z)))
    (W : list (list (list (list val)))) (n h i : nat)
    (Wn : list (list (list val))) (Wh : list (list val)) (row : list val) :
  (causal = true -> within_max_len max_len q /\ within_max_len max_len k) ->
  pad_mask_fits pad_mask k ->
  MultiHeadAttention_attn_weights
    (MultiHeadAttention_init d_k d_model n_heads max_len causal p) q k pad_mask = Ok W ->
  nth_error W n = Some Wn -> nth_error Wn h = Some Wh -> nth_error Wh i = Some row ->
  (forall j, (j < length row)%nat -> key_masked causal pad_mask n i j) ->
  all_NaN row /\ exists kn, nth_error k n = Some kn /\ length row = length kn.
Proof.
  intros Hmax Hfit H Hn Hh Hi Hclosed.
  destruct (attn_weights_row_inv _ _ _ _ _ _ _ _ _ _ _ _ _ _ _ _ Hmax Hfit H Hn Hh Hi)
    as (qn & kn & srow & Hqn & Hkn & _ & _ & -> & Hlen & Hent).
  rewrite softmax_length in *. split; [|exists kn; auto].
  apply softmax_all_masked. apply Forall_forall; intros s Hs.
  destruct (In_nth_error _ _ Hs) as [j Hj].
  destruct (Hent _ _ Hj) as [Hc _]. apply Hc. apply key_open_false_iff.
  apply Hclosed. apply nth_error_Some. congruence.
Qed.

(** One token whose only key is closed by the padding mask. *)
Lemma fully_padded_forward :
  MultiHeadAttention_forward (tiny_attention 2 false) one_token one_token one_token
                             (Some [[0]]%Z)
  = Ok [[[NaN]]].
Proof.
  cbn. destruct (Req_dec_T (0 + 0) 0) as [_|E]; [|exfalso; apply E; lra].
  reflexivity.
Qed.

(** ** Degenerate masks *)

(** C7 (amended).  The attention engine has no check for a query position
    whose keys are all masked: for a module built by the constructor (within
    [max_len] when causal, padding mask of the shape of the keys), every
    weight of such a row of [attn_weights] is NaN, and when there is at least
    one key, one head and [d_k >= 1], the forward call returns normally with
    NaN in each of the [d_model] coordinates of the output at that position. *)
Theorem fully_masked_row_propagates_NaN
    (d_k d_model n_heads max_len : nat) (causal : bool) (p : MHAInit)
    (q k v : tensor3) (pad_mask : option (list (list Z))) :
  let m := MultiHeadAttention_init d_k d_model n_heads max_len causal p in
  (causal = true -> within_max_len max_len q /\ within_max_len max_len k) ->
  pad_mask_fits pad_mask k ->
  (forall W n h i Wn Wh row,
     MultiHeadAttention_attn_weights m q k pad_mask = Ok W ->
     nth_error W n = Some Wn -> nth_error Wn h = Some Wh -> nth_error Wh i = Some row ->
     (forall j, (j < length row)%nat -> key_masked causal pad_mask n i j) ->
     all_NaN row) /\
  (forall out n i outn y kn,
     (0 < d_k)%nat -> (0 < n_heads)%nat ->
     MultiHeadAttention_forward m q k v pad_mask = Ok out ->
     nth_error out n = Some outn -> nth_error outn i = Some y ->
     nth_error k n = Some kn -> (0 < length kn)%nat ->
     (forall j, (j < length kn)%nat -> key_masked causal pad_mask n i j) ->
     length y = d_model /\ all_NaN y).
Proof.
  intros m Hmax Hfit. split.
  - intros W n h i Wn Wh row H Hn Hh Hi Hclosed.
    exact (proj1 (masked_row_all_NaN _ _ _ _ _ _ _ _ _ _ _ _ _ _ _ _
                    Hmax Hfit H Hn Hh Hi Hclosed)).
  - intros out n i outn y kn Hd Hheads H Hn Hi Hkn Hpos Hclosed.
    destruct (forward_elem_of _ _ _ _ _ _ _ _ H Hn)
      as (W & Wn & qn & kn' & vn & HW & HWn & Hqn & Hkn' & Hatt).
    assert (kn' = kn) by congruence; subst kn'.
    destruct (attn_weights_elem_of _ _ _ _ _ _ _ Hfit HW HWn)
      as (qn0 & kn0 & qn' & kn' & Hqn0 & Hkn0 & Hlq & Hlk & _ & _ & _ & Helem).
    assert (qn0 = qn) by congruence; subst qn0.
    destruct (attn_weights_elem_shape _ _ _ _ _ Helem) as [HlW HlWh].
    assert (Hlt : (i < length qn)%nat).
    { rewrite <- (attend_elem_length _ _ _ _ _ _ Hatt). apply nth_error_Some. congruence. }
    apply (attend_elem_NaN _ _ _ _ _ _ _ _ Hatt Hi HlW Hheads Hd).
    intros h Wh HWh.
    destruct (nth_error Wh i) as [wrow|] eqn:Hw.
    + exists wrow; split; [reflexivity|].
      destruct (masked_row_all_NaN _ _ _ _ _ _ _ _ _ _ _ _ _ _ _ _
                  Hmax Hfit HW HWn HWh Hw) as (Hnan & kn1 & Hkn1 & Hlen).
      * intros j Hj. apply Hclosed.
        destruct (attn_weights_row_inv _ _ _ _ _ _ _ _ _ _ _ _ _ _ _ _
                    Hmax Hfit HW HWn HWh Hw)
          as (qn2 & kn2 & srow & _ & Hkn2 & _ & _ & E & Hl2 & _).
        rewrite E, softmax_length in Hj. congruence.
      * split; [exact Hnan|]. intros ->. simpl in Hlen.
        assert (kn1 = kn) by congruence; subst kn1. lia.
    + apply nth_error_None in Hw. rewrite (HlWh _ _ HWh), Hlq in Hw. lia.
Qed.

(** The theorem at one token whose only key is padding: the output is NaN. *)
Lemma fully_masked_row_propagates_NaN_witness :
  length [NaN] = 1%nat /\ all_NaN [NaN].
Proof.
  assert (Hmax : false = true ->
                 within_max_len 2 one_token /\ within_max_len 2 one_token)
    by discriminate.
  assert (Hfit : pad_mask_fits (Some [[0]]%Z) one_token)
    by (repeat constructor).
  apply (proj2 (fully_masked_row_propagates_NaN 1 1 1 2 false unit_mha
                  one_token one_token one_token (Some [[0]]%Z) Hmax Hfit)
           [[[NaN]]] 0%nat 0%nat [[NaN]] [NaN] [[Fin 0]]).
  - lia.
  - lia.
  - exact fully_padded_forward.
  - reflexivity.
  - reflexivity.
  - reflexivity.
  - simpl; lia.
  - intros j Hj. left. exists [[0]]%Z. split; [reflexivity|].
    simpl in Hj. destruct j; [reflexivity | lia].
Defined.

(** C7, counterexample.  With the only key closed by the padding mask the
    forward call neither raises nor returns a defined vector: it returns NaN. *)
Lemma degenerate_mask_counterexample :
  MultiHeadAttention_forward (tiny_attention 2 false) one_token one_token one_token
                             (Some [[0]]%Z)
  = Ok [[[NaN]]]
  /\ [[[NaN]]] <> [[[Fin 0]]].
Proof.
  split; [exact fully_padded_forward | discriminate].
Qed.

(** ** The positional table *)

Lemma combine_map_same {A B C : Type} (f : A -> B) (g : A -> C) (l : list A) :
  combine (map f l) (map g l) = map (fun x => (f x, g x)) l.
Proof. induction l as [|x l IH]; simpl; [reflexivity | rewrite IH; reflexivity]. Qed.

Lemma enumerate_map_seq {A : Type} (h : nat -> A) (n : nat) :
  enumerate (map h (seq 0 n)) = map (fun j => (j, h j)) (seq 0 n).
Proof.
  unfold enumerate. rewrite length_map, length_seq.
  rewrite <- (map_id (seq 0 n)) at 1. apply combine_map_same.
Qed.

Lemma repeat_map_seq {A : Type} (x : A) (n : nat) :
  repeat x n = map (fun _ => x) (seq 0 n).
Proof.
  generalize 0%nat as s; induction n as [|n IH]; intros s; simpl;
    [reflexivity | rewrite (IH (S s)); reflexivity].
Qed.

Lemma arange2_length_0 (d : nat) : length (arange2 0 d) = ((d + 1) / 2)%nat.
Proof.
  unfold arange2. rewrite length_map, length_seq. f_equal; lia.
Qed.

Lemma arange2_length_1 (d : nat) : length (arange2 1 d) = (d / 2)%nat.
Proof.
  unfold arange2. rewrite length_map, length_seq. f_equal; lia.
Qed.

Lemma setitem_cols_seq (start w : nat) (f : nat -> list R) (g : nat -> nat -> R)
    (d L : nat) :
  (w =? length (arange2 start d)) || (w =? 1) = true ->
  setitem_cols start w (map f (seq 0 L)) d
               (map (fun pos => map (g pos) (seq 0 d)) (seq 0 L))
  = Ok (map (fun pos =>
               map (fun j =>
                      if (start <=? j) && Nat.even (j - start)
                      then nth (if w =? length (arange2 start d)
                                then (j - start) / 2 else 0) (f pos) 0%R
                      else g pos j)
                   (seq 0 d))
            (seq 0 L)).
Proof.
  intros Hw. unfold setitem_cols. rewrite Hw.
  rewrite combine_map_same, map_map. f_equal.
  apply map_ext; intros pos; simpl.
  rewrite enumerate_map_seq, map_map. reflexivity.
Qed.

Lemma setitem_cols_mismatch (start w : nat) (src : list (list R)) (d : nat)
    (dst : list (list R)) :
  w <> length (arange2 start d) -> w <> 1%nat ->
  setitem_cols start w src d dst = Raise ShapeError.
Proof.
  intros H1 H2. unfold setitem_cols.
  destruct (Nat.eqb_spec w (length (arange2 start d))); [contradiction|].
  destruct (Nat.eqb_spec w 1); [contradiction|]. reflexivity.
Qed.

Lemma nn_Dropout_valid (p : R) : (0 <= p <= 1)%R -> nn_Dropout p = Ok (mkDropout p).
Proof.
  intros [H0 H1]. unfold nn_Dropout.
  destruct (Rle_dec 0 p); [|contradiction].
  destruct (Rle_dec p 1); [reflexivity | contradiction].
Qed.

(** The angle of the code is the angle of the specification. *)
Lemma div_term_angle (d_model pos k : nat) :
  (0 < d_model)%nat ->
  (INR pos * exp (INR (0 + 2 * k) * (- ln 10000 / INR d_model)))%R
  = (INR pos / Rpower 10000 (2 * INR k / INR d_model))%R.
Proof.
  intros Hd. assert (Hne : INR d_model <> 0%R) by (apply not_0_INR; lia).
  replace (INR (0 + 2 * k)) with (2 * INR k)%R
    by (rewrite Nat.add_0_l, mult_INR; simpl; ring).
  unfold Rpower. unfold Rdiv at 2. rewrite <- exp_Ropp. do 2 f_equal.
  field. exact Hne.
Qed.

Lemma half_double (m : nat) : ((2 * m) / 2 = m /\ (2 * m + 1) / 2 = m)%nat.
Proof.
  split.
  - rewrite Nat.mul_comm. apply Nat.div_mul. discriminate.
  - rewrite Nat.mul_comm, Nat.div_add_l by discriminate. simpl. lia.
Qed.

Lemma parity_cases (j : nat) :
  (Nat.even j = true /\ exists m, j = (2 * m)%nat) \/
  (Nat.even j = false /\ exists m, j = (2 * m + 1)%nat).
Proof.
  destruct (Nat.even j) eqn:E.
  - left; split; [reflexivity|]. apply Nat.even_spec in E. exact E.
  - right; split; [reflexivity|].
    assert (Ho : Nat.odd j = true) by (rewrite <- Nat.negb_even, E; reflexivity).
    apply Nat.odd_spec in Ho. exact Ho.
Qed.

Lemma nth_map_lt {A B : Type} (f : A -> B) (l : list A) (k : nat) (d : B) (d' : A) :
  (k < length l)%nat -> nth k (map f l) d = f (nth k l d').
Proof.
  intros Hk. rewrite (nth_indep _ d (f d')) by (rewrite length_map; exact Hk).
  apply map_nth.
Qed.

Lemma trig_row_nth (g : R -> R) (d_model pos k : nat) :
  (0 < d_model)%nat -> (k < (d_model + 1) / 2)%nat ->
  nth k (map g (map (fun d => (INR pos * d)%R)
                    (map (fun e => exp (e * (- ln 10000 / INR d_model))%R)
                         (map INR (arange2 0 d_model))))) 0%R
  = g (INR pos / Rpower 10000 (2 * INR k / INR d_model))%R.
Proof.
  intros Hd Hk. unfold arange2. rewrite !map_map.
  replace ((d_model + 1 - 0) / 2)%nat with ((d_model + 1) / 2)%nat
    by (f_equal; lia).
  rewrite (nth_map_lt _ _ _ _ 0%nat) by (rewrite length_seq; exact Hk).
  rewrite seq_nth by exact Hk. simpl Nat.add at 1.
  f_equal. apply div_term_angle. exact Hd.
Qed.

(** For an even [d_model] the constructor succeeds and the buffer is the
    table of the specification. *)
Lemma PositionalEncoding_init_even (d_model max_len : nat) (p : R) :
  (0 <= p <= 1)%R -> Nat.even d_model = true -> (0 < d_model)%nat ->
  PositionalEncoding_init d_model max_len p
  = Ok {| pe_dropout := mkDropout p; pe := sinusoid_table d_model max_len |}.
Proof.
  intros Hp Hev Hd. unfold PositionalEncoding_init.
  rewrite (nn_Dropout_valid p Hp). cbn [bind].
  destruct (Nat.eqb_spec d_model 0) as [|_]; [lia|].
  set (div_term := map (fun e => exp (e * (- ln 10000 / INR d_model))%R)
                       (map INR (arange2 0 d_model))).
  assert (Hlen : length div_term = length (arange2 0 d_model))
    by (unfold div_term; rewrite !length_map; reflexivity).
  assert (Hlen1 : length (arange2 1 d_model) = length (arange2 0 d_model)).
  { rewrite arange2_length_0, arange2_length_1.
    apply Nat.even_spec in Hev. destruct Hev as [m ->].
    destruct (half_double m) as [-> ->]. reflexivity. }
  rewrite (repeat_map_seq (repeat 0%R d_model) max_len).
  rewrite (repeat_map_seq 0%R d_model).
  rewrite !map_map.
  rewrite (setitem_cols_seq 0 (length div_term)
             (fun pos => map sin (map (fun d => (INR pos * d)%R) div_term))
             (fun _ _ => 0%R) d_model max_len)
    by (rewrite Hlen, Nat.eqb_refl; reflexivity).
  cbn [bind].
  rewrite (setitem_cols_seq 1 (length div_term)
             (fun pos => map cos (map (fun d => (INR pos * d)%R) div_term)))
    by (rewrite Hlen, Hlen1, Nat.eqb_refl; reflexivity).
  cbn [bind]. do 2 f_equal. unfold sinusoid_table.
  apply map_ext; intros pos. apply map_ext_in; intros j Hj.
  apply in_seq in Hj. rewrite Hlen, Hlen1, Nat.eqb_refl, Nat.sub_0_r.
  assert (Hhalf : (j / 2 < (d_model + 1) / 2)%nat).
  { apply Nat.even_spec in Hev. destruct Hev as [m Hm].
    rewrite Hm. rewrite Nat.mul_comm, Nat.div_add_l by discriminate.
    simpl Nat.div at 2. rewrite Nat.add_0_r.
    apply Nat.Div0.div_lt_upper_bound. lia. }
  unfold sinusoid, div_term.
  destruct (parity_cases j) as [[E [m Hm]]|[E [m Hm]]]; rewrite E.
  - assert (Hodd : (1 <=? j)%nat && Nat.even (j - 1) = false).
    { destruct m as [|m]; [subst j; reflexivity|].
      replace (j - 1)%nat with (1 + 2 * m)%nat by lia.
      rewrite Nat.even_add_mul_2. simpl. apply andb_false_r. }
    rewrite Hodd. simpl.
    apply trig_row_nth; assumption.
  - assert (Hodd : (1 <=? j)%nat && Nat.even (j - 1) = true).
    { replace (j - 1)%nat with (2 * m)%nat by lia.
      rewrite Nat.even_mul. rewrite Hm at 1.
      replace (2 * m + 1)%nat with (S (2 * m)) by lia. reflexivity. }
    rewrite Hodd.
    replace ((j - 1) / 2)%nat with (j / 2)%nat.
    + apply trig_row_nth; assumption.
    + rewrite Hm. replace (2 * m + 1 - 1)%nat with (2 * m)%nat by lia.
      destruct (half_double m) as [-> ->]. reflexivity.
Qed.

Lemma mapM_ok_ext {A B : Type} (f : A -> result B) (g : A -> B) (l : list A) :
  (forall x, In x l -> f x = Ok (g x)) -> mapM f l = Ok (map g l).
Proof.
  induction l as [|a l IH]; intros H; simpl; [reflexivity|].
  rewrite (H a (or_introl eq_refl)); simpl.
  rewrite IH by (intros x Hx; apply H; right; exact Hx). reflexivity.
Qed.

Lemma mapM_map {A B C : Type} (f : B -> result C) (h : A -> B) (l : list A) :
  mapM f (map h l) = mapM (fun x => f (h x)) l.
Proof.
  induction l as [|a l IH]; simpl; [reflexivity | rewrite IH; reflexivity].
Qed.

Lemma combine_map_enumerate {A B : Type} (f : nat -> B) (l : list A) :
  combine l (map f (seq 0 (length l)))
  = map (fun p => (snd p, f (fst p))) (enumerate l).
Proof.
  unfold enumerate. generalize 0%nat as s.
  induction l as [|a l IH]; intros s; simpl; [reflexivity|].
  rewrite IH; reflexivity.
Qed.

Lemma broadcast2_same {A B : Type} (xs : list A) (ys : list B) :
  length xs = length ys -> broadcast2 xs ys = Ok (combine xs ys).
Proof.
  intros H. unfold broadcast2. rewrite H, Nat.eqb_refl. reflexivity.
Qed.

Lemma vec_add_sinusoid (d_model pos : nat) (row : vec) :
  length row = d_model ->
  vec_add row (map Fin (map (sinusoid d_model pos) (seq 0 d_model)))
  = Ok (map (fun ia => vadd (snd ia) (Fin (sinusoid d_model pos (fst ia))))
            (enumerate row)).
Proof.
  intros Hl. unfold vec_add.
  rewrite broadcast2_same by (rewrite !length_map, length_seq; exact Hl).
  cbn [bind]. rewrite map_map, <- Hl, combine_map_enumerate, map_map. reflexivity.
Qed.

Lemma PositionalEncoding_forward_table (d_model max_len : nat) (d : Dropout)
    (x : tensor3) :
  embedded_shape d_model max_len x ->
  PositionalEncoding_forward {| pe_dropout := d; pe := sinusoid_table d_model max_len |} x
  = Ok (add_positions d_model x).
Proof.
  intros Hx. unfold PositionalEncoding_forward, add_positions. cbn [pe pe_dropout].
  rewrite (mapM_ok_ext _
             (fun xn =>
                map (fun trow =>
                       map (fun ia => vadd (snd ia)
                                           (Fin (sinusoid d_model (fst trow) (fst ia))))
                           (enumerate (snd trow)))
                    (enumerate xn))).
  - reflexivity.
  - intros xn Hin. destruct (proj1 (Forall_forall _ _) Hx xn Hin) as [HT Hrows].
    unfold sinusoid_table. rewrite firstn_map, firstn_seq0, Nat.min_l by exact HT.
    unfold mat_add.
    rewrite broadcast2_same by (rewrite !length_map, length_seq; reflexivity).
    cbn [bind]. rewrite map_map, combine_map_enumerate, mapM_map.
    apply mapM_ok_ext.
    intros [t row] Hq. simpl.
    { apply vec_add_sinusoid.
      destruct (In_nth_error _ _ Hq) as [i Hi].
      apply nth_error_enumerate in Hi. destruct Hi as [_ Hi]. simpl in Hi.
      exact (Forall_nth_error Hrows Hi). }
Qed.

Lemma sinusoid_table_nth (d_model max_len pos i : nat) :
  (pos < max_len)%nat -> (i < d_model)%nat ->
  nth i (nth pos (sinusoid_table d_model max_len) []) 0%R = sinusoid d_model pos i.
Proof.
  intros Hp Hi. unfold sinusoid_table.
  rewrite (nth_map_lt _ _ _ _ 0%nat) by (rewrite length_seq; exact Hp).
  rewrite seq_nth by exact Hp.
  rewrite (nth_map_lt _ _ _ _ 0%nat) by (rewrite length_seq; exact Hi).
  rewrite seq_nth by exact Hi. reflexivity.
Qed.

Lemma nn_Dropout_inv (p : R) (d : Dropout) :
  nn_Dropout p = Ok d -> (0 <= p <= 1)%R /\ d = mkDropout p.
Proof.
  unfold nn_Dropout.
  destruct (Rle_dec 0 p); [|discriminate]. destruct (Rle_dec p 1); [|discriminate].
  intros H; injection H as <-. auto.
Qed.

Lemma PositionalEncoding_init_inv (d_model max_len : nat) (p : R)
    (m : PositionalEncoding) :
  PositionalEncoding_init d_model max_len p = Ok m ->
  (0 <= p <= 1)%R /\ (0 < d_model)%nat.
Proof.
  unfold PositionalEncoding_init; intros H. inv_bind H as d Hd.
  split; [exact (proj1 (nn_Dropout_inv _ _ Hd))|].
  destruct (Nat.eqb_spec d_model 0); [discriminate | lia].
Qed.

(** C5.  The table built by [PositionalEncoding.__init__] for an even
    [d_model] has [max_len] rows and satisfies
    [PE[pos, i] = sin(pos / 10000^(2 floor(i/2) / d_model))] for even [i] and
    the cosine of the same angle for odd [i], for all [pos < max_len] and
    [i < d_model]; it is a function of [d_model] and [max_len] alone; and
    [forward] on an input of shape (N, T, d_model) with [T <= max_len] returns
    [x + PE[:T, :]] broadcast over the batch (dropout being the identity in
    evaluation mode). *)
Theorem positional_encoding_table_and_forward
    (d_model max_len : nat) (p : R) (m : PositionalEncoding) :
  PositionalEncoding_init d_model max_len p = Ok m ->
  Nat.even d_model = true ->
  length (pe m) = max_len /\
  (forall pos i, (pos < max_len)%nat -> (i < d_model)%nat ->
     nth i (nth pos (pe m) []) 0%R
     = if Nat.even i
       then sin (INR pos / Rpower 10000 (2 * INR (i / 2) / INR d_model))
       else cos (INR pos / Rpower 10000 (2 * INR (i / 2) / INR d_model))) /\
  pe m = sinusoid_table d_model max_len /\
  (forall x, embedded_shape d_model max_len x ->
     PositionalEncoding_forward m x = Ok (add_positions d_model x)).
Proof.
  intros H Hev. destruct (PositionalEncoding_init_inv _ _ _ _ H) as [Hp Hd].
  rewrite (PositionalEncoding_init_even d_model max_len p Hp Hev Hd) in H.
  injection H as <-. cbn [pe]. split; [|split; [|split]].
  - unfold sinusoid_table. rewrite length_map, length_seq; reflexivity.
  - intros pos i Hpos Hi. rewrite sinusoid_table_nth by assumption. reflexivity.
  - reflexivity.
  - intros x Hx. apply PositionalEncoding_forward_table; exact Hx.
Qed.

(** The theorem at [d_model = 2], [max_len = 1] and dropout probability 0. *)
Lemma positional_encoding_table_and_forward_witness :
  length (sinusoid_table 2 1) = 1%nat /\
  (forall pos i, (pos < 1)%nat -> (i < 2)%nat ->
     nth i (nth pos (sinusoid_table 2 1) []) 0%R
     = if Nat.even i
       then sin (INR pos / Rpower 10000 (2 * INR (i / 2) / INR 2))
       else cos (INR pos / Rpower 10000 (2 * INR (i / 2) / INR 2))) /\
  sinusoid_table 2 1 = sinusoid_table 2 1 /\
  (forall x, embedded_shape 2 1 x ->
     PositionalEncoding_forward
       {| pe_dropout := mkDropout 0; pe := sinusoid_table 2 1 |} x
     = Ok (add_positions 2 x)).
Proof.
  apply (positional_encoding_table_and_forward 2 1 0
           {| pe_dropout := mkDropout 0; pe := sinusoid_table 2 1 |}).
  - apply PositionalEncoding_init_even; [lra | reflexivity | lia].
  - reflexivity.
Defined.

(** ** Construction and the parity of [d_model] *)

Lemma PositionalEncoding_init_odd (d_model max_len : nat) (p : R) :
  (0 <= p <= 1)%R -> Nat.odd d_model = true -> (3 <= d_model)%nat ->
  PositionalEncoding_init d_model max_len p = Raise ShapeError.
Proof.
  intros Hp Hodd Hd. unfold PositionalEncoding_init.
  rewrite (nn_Dropout_valid p Hp). cbn [bind].
  destruct (Nat.eqb_spec d_model 0) as [|_]; [lia|].
  set (div_term := map (fun e => exp (e * (- ln 10000 / INR d_model))%R)
                       (map INR (arange2 0 d_model))).
  assert (Hlen : length div_term = length (arange2 0 d_model))
    by (unfold div_term; rewrite !length_map; reflexivity).
  rewrite (repeat_map_seq (repeat 0%R d_model) max_len).
  rewrite (repeat_map_seq 0%R d_model).
  rewrite !map_map.
  rewrite (setitem_cols_seq 0 (length div_term)
             (fun pos => map sin (map (fun d => (INR pos * d)%R) div_term))
             (fun _ _ => 0%R) d_model max_len)
    by (rewrite Hlen, Nat.eqb_refl; reflexivity).
  cbn [bind].
  rewrite setitem_cols_mismatch; [reflexivity| |];
    rewrite Hlen, arange2_length_0, ?arange2_length_1;
    apply Nat.odd_spec in Hodd; destruct Hodd as [k ->];
    replace (2 * k + 1 + 1)%nat with (2 * (k + 1))%nat by lia;
    rewrite (proj1 (half_double (k + 1))), ?(proj2 (half_double k)); lia.
Qed.

Lemma PositionalEncoding_init_one (max_len : nat) (p : R) :
  (0 <= p <= 1)%R ->
  exists m, PositionalEncoding_init 1 max_len p = Ok m /\ length (pe m) = max_len.
Proof.
  intros Hp. unfold PositionalEncoding_init.
  rewrite (nn_Dropout_valid p Hp). cbn [bind Nat.eqb].
  set (div_term := map (fun e => exp (e * (- ln 10000 / INR 1))%R)
                       (map INR (arange2 0 1))).
  rewrite (repeat_map_seq (repeat 0%R 1) max_len).
  rewrite (repeat_map_seq 0%R 1).
  rewrite !map_map.
  rewrite (setitem_cols_seq 0 (length div_term)
             (fun pos => map sin (map (fun d => (INR pos * d)%R) div_term))
             (fun _ _ => 0%R) 1 max_len) by reflexivity.
  cbn [bind].
  rewrite (setitem_cols_seq 1 (length div_term)
             (fun pos => map cos (map (fun d => (INR pos * d)%R) div_term)))
    by reflexivity.
  cbn [bind]. eexists; split; [reflexivity|].
  cbn [pe]. rewrite length_map, length_seq; reflexivity.
Qed.

(** C10 (amended).  For a valid dropout probability, the construction of
    [PositionalEncoding] succeeds for every even [d_model >= 2] and for
    [d_model = 1], and for every odd [d_model >= 3] it raises a shape error in
    the constructor: the cosine value has [floor(d_model/2) + 1] columns (one
    per element of [arange(0, d_model, 2)]) and the table has
    [floor(d_model/2)] odd-indexed columns. *)
Theorem positional_encoding_construction_parity (d_model max_len : nat) (p : R) :
  (0 <= p <= 1)%R ->
  (Nat.even d_model = true -> (2 <= d_model)%nat ->
   exists m, PositionalEncoding_init d_model max_len p = Ok m) /\
  (Nat.odd d_model = true -> (3 <= d_model)%nat ->
   PositionalEncoding_init d_model max_len p = Raise ShapeError /\
   length (arange2 0 d_model) = (d_model / 2 + 1)%nat /\
   length (arange2 1 d_model) = (d_model / 2)%nat) /\
  (d_model = 1%nat ->
   exists m, PositionalEncoding_init d_model max_len p = Ok m).
Proof.
  intros Hp. split; [|split].
  - intros Hev Hd. eexists. apply PositionalEncoding_init_even; [assumption.. | lia].
  - intros Hodd Hd. split; [apply PositionalEncoding_init_odd; assumption|].
    rewrite arange2_length_0, arange2_length_1. split; [|reflexivity].
    apply Nat.odd_spec in Hodd; destruct Hodd as [k ->].
    replace (2 * k + 1 + 1)%nat with (2 * (k + 1))%nat by lia.
    rewrite (proj1 (half_double (k + 1))), (proj2 (half_double k)). reflexivity.
  - intros ->. destruct (PositionalEncoding_init_one max_len p Hp) as (m & Hm & _).
    exists m; exact Hm.
Qed.

(** The theorem at [d_model = 3]: the construction raises. *)
Lemma positional_encoding_construction_parity_witness :
  PositionalEncoding_init 3 8 0 = Raise ShapeError /\
  length (arange2 0 3) = (3 / 2 + 1)%nat /\
  length (arange2 1 3) = (3 / 2)%nat.
Proof.
  apply (proj1 (proj2 (positional_encoding_construction_parity 3 8 0
                         (conj (Rle_refl 0) Rle_0_1)))).
  - reflexivity.
  - lia.
Defined.

(** C10, counterexample.  [d_model = 1] is odd and the construction succeeds:
    the cosine value has one column, which broadcasts into the empty set of
    odd-indexed columns. *)
Lemma positional_encoding_parity_counterexample :
  Nat.odd 1 = true /\
  exists m, PositionalEncoding_init 1 4 0 = Ok m /\ length (pe m) = 4%nat.
Proof.
  split; [reflexivity|].
  apply PositionalEncoding_init_one. split; [apply Rle_refl | exact Rle_0_1].
Qed.

(** ** Greedy decoding *)

Lemma argmax_from_spec (l : list R) (best_i : nat) (b : R) (i : nat) :
  (best_i < i)%nat ->
  let p := argmax_from best_i (Fin b) i (map Fin l) in
  exists y,
    ((p = best_i /\ y = b) \/
     ((i <= p)%nat /\ nth_error l (p - i) = Some y)) /\
    (b <= y)%R /\ Forall (fun x => (x <= y)%R) l.
Proof.
  revert best_i b i. induction l as [|x l IH]; intros best_i b i Hlt; simpl.
  - exists b. split; [left; auto|]. split; [lra | constructor].
  - destruct (Rlt_dec b x) as [Hbx|Hbx].
    + destruct (IH i x (S i) (Nat.lt_succ_diag_r i)) as (y & Hp & Hy & Hall).
      exists y. split; [|split; [lra | constructor; [lra | exact Hall]]].
      right. destruct Hp as [[-> ->]|[Hle Hn]].
      * split; [lia|]. rewrite Nat.sub_diag. reflexivity.
      * split; [lia|].
        replace (argmax_from i (Fin x) (S i) (map Fin l) - i)%nat
          with (S (argmax_from i (Fin x) (S i) (map Fin l) - S i)) by lia.
        exact Hn.
    + destruct (IH best_i b (S i) (Nat.lt_lt_succ_r _ _ Hlt)) as (y & Hp & Hy & Hall).
      exists y. split; [|split; [lra | constructor; [lra | exact Hall]]].
      destruct Hp as [[-> ->]|[Hle Hn]]; [left; auto|].
      right. split; [lia|].
      replace (argmax_from best_i (Fin b) (S i) (map Fin l) - i)%nat
        with (S (argmax_from best_i (Fin b) (S i) (map Fin l) - S i)) by lia.
      exact Hn.
Qed.

(** On finite logits [argmax] returns the index of a largest one. *)
Lemma argmax_greatest (l : list R) (p : nat) :
  argmax (map Fin l) = Ok p ->
  exists y, nth_error l p = Some y /\ Forall (fun x => (x <= y)%R) l.
Proof.
  destruct l as [|b l]; simpl; [discriminate|].
  intros H; injection H as <-.
  destruct (argmax_from_spec l 0 b 1 Nat.lt_0_1) as (y & Hp & Hy & Hall).
  exists y. split; [|constructor; assumption].
  destruct Hp as [[-> ->]|[Hle Hn]]; [reflexivity|].
  destruct (argmax_from 0 (Fin b) 1 (map Fin l)) as [|p]; [lia|].
  simpl in *. rewrite Nat.sub_0_r in Hn. exact Hn.
Qed.

Lemma vec_finite_or_not (l : list val) : finite_vec l \/ In NaN l.
Proof.
  induction l as [|[|r] l [IH|IH]]; simpl; auto.
  - left; constructor.
  - left; constructor; [eexists; reflexivity | exact IH].
Qed.

Section GreedyLoopFacts.

Variable call : list (list Z) -> list (list Z) -> result tensor3.
Variable eos : Z.

(** What one pass through the body does. *)
Lemma greedy_step_inv (ids mask ids' mask' : list (list Z)) (stop : bool) :
  greedy_step call eos (ids, mask) = Ok ((ids', mask'), stop) ->
  exists dec_output row last_row logits p,
    call ids mask = Ok [dec_output] /\ ids = [row] /\
    rev dec_output = logits :: last_row /\ argmax logits = Ok p /\
    ids' = [row ++ [Z.of_nat p]] /\
    mask' = [repeat 1%Z (length row + 1)] /\
    stop = (Z.of_nat p =? eos)%Z.
Proof.
  unfold greedy_step; cbn [fst snd]; intros H.
  inv_bind H as out Hcall. inv_bind H as prediction_id Hpred.
  inv_bind H as ids1 Hstack. injection H as <- <- <-.
  unfold hstack_prediction in Hstack.
  destruct prediction_id as [|pz [|? ?]]; try discriminate.
  destruct ids as [|row [|? ?]]; try discriminate.
  injection Hstack as <-.
  unfold predict in Hpred. inv_bind Hpred as rows Hrows.
  pose proof (mapM_length Hpred) as Hl1. pose proof (mapM_length Hrows) as Hl2.
  destruct rows as [|logits [|? ?]]; try discriminate.
  destruct out as [|dec_output [|? ?]]; try discriminate.
  unfold last_position in Hrows. cbn [mapM] in Hrows, Hpred.
  destruct (rev dec_output) as [|logits' last_row] eqn:Hrev; simpl in Hrows;
    [discriminate|].
  injection Hrows as <-.
  destruct (argmax logits') as [p|] eqn:Hp; simpl in Hpred; [|discriminate].
  injection Hpred as <-.
  exists dec_output, row, last_row, logits', p.
  repeat (split; [reflexivity || assumption|]).
  split; [|reflexivity]. simpl. rewrite length_app. reflexivity.
Qed.

(** How the loop is left: through [break] in one of its [n] passes, with the
    range exhausted, or through an exception in one of its passes. *)
Lemma greedy_loop_outcome (n : nat) (st : gen_state) :
  match greedy_loop call eos n st with
  | Ok st' =>
      (exists k st1, (k < n)%nat /\ after_steps call eos k st = Some st1 /\
                     greedy_step call eos st1 = Ok (st', true)) \/
      after_steps call eos n st = Some st'
  | Raise e =>
      exists k st1, (k < n)%nat /\ after_steps call eos k st = Some st1 /\
                    greedy_step call eos st1 = Raise e
  end.
Proof.
  revert st. induction n as [|n IH]; intros st; simpl.
  - right; reflexivity.
  - destruct (greedy_step call eos st) as [[st1 [|]]|e] eqn:Hstep; simpl.
    + left. exists 0%nat, st. repeat split; [lia | exact Hstep].
    + specialize (IH st1). destruct (greedy_loop call eos n st1) as [st'|e].
      * destruct IH as [(k & st2 & Hk & Hafter & Hlast)|Hafter].
        -- left. exists (S k), st2. split; [lia|]. simpl. rewrite Hstep. auto.
        -- right. exact Hafter.
      * destruct IH as (k & st2 & Hk & Hafter & Hlast).
        exists (S k), st2. split; [lia|]. simpl. rewrite Hstep. auto.
    + exists 0%nat, st. repeat split; [lia | exact Hstep].
Qed.

(** The state after [k] passes without [break]: [k] ids, none of them the
    end-of-sequence id, were appended, and the mask is all ones. *)
Lemma after_steps_shape (k : nat) (row : list Z) (mask : list (list Z))
    (st' : gen_state) :
  after_steps call eos k ([row], mask) = Some st' ->
  exists gen, fst st' = [row ++ gen] /\ length gen = k /\ ~ In eos gen /\
              ((0 < k)%nat -> snd st' = [repeat 1%Z (length row + k)]) /\
              (k = 0%nat -> snd st' = mask).
Proof.
  revert row mask. induction k as [|k IH]; intros row mask; simpl.
  - intros H; injection H as <-. exists []. simpl. rewrite app_nil_r.
    repeat split; auto. lia.
  - destruct (greedy_step call eos ([row], mask)) as [[[ids1 mask1] [|]]|e] eqn:Hstep;
      try discriminate.
    destruct (greedy_step_inv _ _ _ _ _ Hstep)
      as (out & row0 & lr & logits & p & _ & Hrow & _ & _ & -> & -> & Hstop).
    injection Hrow as <-. intros H.
    destruct (IH _ _ H) as (gen & Hids & Hlen & Hnot & Hmask & Hmask0).
    exists (Z.of_nat p :: gen). rewrite Hids, <- app_assoc. simpl.
    split; [reflexivity|]. split; [congruence|]. split.
    + intros [Heq|Hin]; [|contradiction].
      symmetry in Hstop. apply Z.eqb_neq in Hstop. congruence.
    + split; [|discriminate]. intros _. destruct k as [|k'].
      * rewrite (Hmask0 eq_refl). reflexivity.
      * rewrite Hmask by lia. rewrite length_app. simpl.
        do 2 f_equal. lia.
Qed.

(** The loop started on a single sequence [row]: the outcome in terms of the
    generated ids. *)
Lemma greedy_loop_halts (n : nat) (row : list Z) (mask : list (list Z)) :
  match greedy_loop call eos n ([row], mask) with
  | Ok (ids, mask') =>
      exists gen,
        ids = [row ++ gen] /\
        ((0 < n)%nat -> (1 <= length gen)%nat) /\ (length gen <= n)%nat /\
        (forall i, nth_error gen i = Some eos -> S i = length gen) /\
        ((length gen < n)%nat <->
         exists i, (i < n - 1)%nat /\ nth_error gen i = Some eos)
  | Raise e =>
      exists k st,
        (k < n)%nat /\ after_steps call eos k ([row], mask) = Some st /\
        greedy_step call eos st = Raise e
  end.
Proof.
  pose proof (greedy_loop_outcome n ([row], mask)) as Hout.
  destruct (greedy_loop call eos n ([row], mask)) as [[ids mask']|e]; [|exact Hout].
  destruct Hout as [(k & [ids1 mask1] & Hk & Hafter & Hlast)|Hafter].
  - destruct (after_steps_shape _ _ _ _ Hafter)
      as (gen1 & Hids1 & Hlen1 & Hnot & _ & _).
    destruct (greedy_step_inv _ _ _ _ _ Hlast)
      as (out & row1 & lr & logits & p & _ & Hrow & _ & _ & -> & _ & Hstop).
    simpl in Hids1. rewrite Hids1 in Hrow. injection Hrow as <-.
    symmetry in Hstop. apply Z.eqb_eq in Hstop. rewrite Hstop.
    assert (Hnth : forall i, nth_error (gen1 ++ [eos]) i = Some eos -> i = k).
    { intros i Hi. destruct (Nat.lt_ge_cases i (length gen1)) as [Hlt|Hge].
      - rewrite nth_error_app1 in Hi by exact Hlt.
        exfalso. apply Hnot. eapply nth_error_In; exact Hi.
      - assert (Hb : (i < length (gen1 ++ [eos]))%nat)
          by (apply nth_error_Some; congruence).
        rewrite length_app in Hb. simpl in Hb. lia. }
    exists (gen1 ++ [eos]). rewrite <- app_assoc, length_app. cbn [length].
    split; [reflexivity|]. split; [lia|]. split; [lia|]. split.
    + intros i Hi. rewrite (Hnth i Hi). lia.
    + split.
      * intros Hlt. exists k. split; [lia|].
        rewrite nth_error_app2 by lia. rewrite Hlen1, Nat.sub_diag. reflexivity.
      * intros (i & Hi & Hn). rewrite (Hnth i Hn) in Hi. lia.
  - destruct (after_steps_shape _ _ _ _ Hafter)
      as (gen & Hids & Hlen & Hnot & _ & _).
    simpl in Hids. exists gen.
    split; [exact Hids|]. split; [lia|]. split; [lia|]. split.
    + intros i Hi. exfalso. apply Hnot. eapply nth_error_In; exact Hi.
    + split; [lia|].
      intros (i & _ & Hn). exfalso. apply Hnot. eapply nth_error_In; exact Hn.
Qed.

End GreedyLoopFacts.

(** C3.  The decoder loop of [translate] makes at most [max_steps = 32]
    passes, for every model and input.  When no decoder call raises, it ends
    with the start id followed by between 1 and 32 generated ids (at most
    [max_steps + 1] tokens); a generated id equal to the end-of-sequence id is
    always the last one (the loop stops at the pass that produces it); and
    the loop ends before its 32nd pass exactly when one of the first 31 ids
    it produces is the end-of-sequence id.  Otherwise an exception of a
    decoder call ends the loop in one of its 32 passes. *)
Theorem translate_loop_halts (GELU : R -> R) (decoder : Decoder)
    (enc_output : tensor3) (attention_mask : list (list Z)) :
  max_steps = 32%nat /\
  match translate_loop GELU decoder enc_output attention_mask with
  | Ok (dec_input_ids, dec_attn_mask) =>
      exists gen,
        dec_input_ids = [start_id :: gen] /\
        (1 <= length gen <= max_steps)%nat /\
        (length (start_id :: gen) <= max_steps + 1)%nat /\
        (forall i, nth_error gen i = Some eos_id -> S i = length gen) /\
        ((length gen < max_steps)%nat <->
         exists i, (i < max_steps - 1)%nat /\ nth_error gen i = Some eos_id)
  | Raise e =>
      exists k st,
        (k < max_steps)%nat /\
        after_steps (translate_call GELU decoder enc_output attention_mask) eos_id
                    k translate_start = Some st /\
        greedy_step (translate_call GELU decoder enc_output attention_mask) eos_id st
        = Raise e
  end.
Proof.
  split; [reflexivity|]. unfold translate_loop, translate_start.
  pose proof (greedy_loop_halts
                (translate_call GELU decoder enc_output attention_mask) eos_id
                max_steps [start_id] (ones_like [[start_id]])) as Hout.
  destruct (greedy_loop (translate_call GELU decoder enc_output attention_mask)
                        eos_id max_steps ([[start_id]], ones_like [[start_id]]))
    as [[ids mask]|e]; [|exact Hout].
  destruct Hout as (gen & Hids & Hpos & Hle & Hlast & Hiff).
  exists gen. split; [exact Hids|].
  assert (H1 : (1 <= length gen)%nat) by (apply Hpos; unfold max_steps; lia).
  split; [lia|]. split; [cbn [length]; lia|]. split; assumption.
Qed.

(** ** Layer normalisation of finite vectors *)

Lemma rsum_squares_nonneg (m : R) (l : list R) :
  (0 <= rsum (map (fun x => (x - m) * (x - m)) l))%R.
Proof.
  induction l as [|x l IH]; simpl; [lra|].
  pose proof (Rle_0_sqr (x - m)) as H. unfold Rsqr in H. lra.
Qed.

Lemma mean_Fin (l : list R) :
  l <> [] -> mean (map Fin l) = Fin (rsum l / INR (length l)).
Proof.
  intros Hne. unfold mean. rewrite vsum_Fin, length_map. simpl.
  destruct (Req_dec_T (INR (length l)) 0) as [H0|_]; [|reflexivity].
  exfalso. apply (not_0_INR (length l)); [|exact H0].
  destruct l; [contradiction | discriminate].
Qed.

Lemma enumerate_map {A B : Type} (f : A -> B) (l : list A) :
  enumerate (map f l) = map (fun p => (fst p, f (snd p))) (enumerate l).
Proof.
  unfold enumerate. rewrite length_map. generalize (seq 0 (length l)) as s.
  induction l as [|a l IH]; intros [|i s]; simpl; try reflexivity.
  rewrite IH; reflexivity.
Qed.

Lemma LayerNorm_apply_finite (ln : LayerNorm) (l : list R) :
  length l = normalized_shape ln -> l <> [] -> (0 < eps ln)%R ->
  exists l', LayerNorm_apply ln (map Fin l) = Ok (map Fin l') /\ length l' = length l.
Proof.
  intros Hlen Hne Heps. unfold LayerNorm_apply.
  rewrite length_map, Hlen, Nat.eqb_refl. rewrite (mean_Fin l Hne).
  set (mu := (rsum l / INR (length l))%R).
  rewrite map_map. cbn [vsub vmul].
  rewrite <- (map_map (fun x => ((x - mu) * (x - mu))%R) Fin).
  rewrite mean_Fin by (destruct l; [contradiction | discriminate]).
  rewrite length_map. cbn [vadd vsqrt].
  set (var := (rsum (map (fun x => ((x - mu) * (x - mu))%R) l) / INR (length l))%R).
  assert (Hvar : (0 <= var)%R).
  { unfold var. apply Rmult_le_pos; [apply rsum_squares_nonneg|].
    left. apply Rinv_0_lt_compat. apply lt_0_INR.
    destruct l; [contradiction | simpl; lia]. }
  destruct (Rlt_dec (var + eps ln) 0) as [Hneg|_]; [lra|].
  assert (Hs : (0 < sqrt (var + eps ln))%R) by (apply sqrt_lt_R0; lra).
  rewrite enumerate_map, map_map. cbn [fst snd vsub vdiv].
  destruct (Req_dec_T (sqrt (var + eps ln)) 0) as [H0|_]; [lra|].
  cbn [vmul vadd].
  exists (map (fun p => ((snd p - mu) / sqrt (var + eps ln) * ln_weight ln (fst p)
                         + ln_bias ln (fst p))%R) (enumerate l)).
  rewrite map_map. split; [reflexivity|].
  rewrite length_map. unfold enumerate. rewrite length_combine, length_seq. lia.
Qed.

(** C4.  Each pass of the decoder loop of [translate] runs the decoder stack
    on the whole current id sequence, with the encoder output and the encoder
    mask computed before the loop, takes the logits of the last position,
    selects an id with the greatest logit, appends exactly that id, and makes
    the mask all ones of the new length; the pass ends the loop when that id
    is the end-of-sequence id.  After [k] passes without [break] the decoder
    input is the start id followed by [k] generated ids and the mask is all
    ones of length [1 + k]. *)
Theorem translate_step_transition (GELU : R -> R) (decoder : Decoder)
    (enc_output : tensor3) (attention_mask : list (list Z)) :
  (forall dec_input_ids dec_attn_mask ids' mask' stop,
     greedy_step (translate_call GELU decoder enc_output attention_mask) eos_id
                 (dec_input_ids, dec_attn_mask) = Ok ((ids', mask'), stop) ->
     exists dec_output row last_row logits p,
       Decoder_forward GELU decoder enc_output dec_input_ids
                       (Some attention_mask) (Some dec_attn_mask) = Ok [dec_output] /\
       dec_input_ids = [row] /\
       rev dec_output = logits :: last_row /\
       argmax logits = Ok p /\
       (forall l, logits = map Fin l ->
          exists y, nth_error l p = Some y /\ Forall (fun x => (x <= y)%R) l) /\
       ids' = [row ++ [Z.of_nat p]] /\
       mask' = [repeat 1%Z (length row + 1)] /\
       stop = (Z.of_nat p =? eos_id)%Z) /\
  (forall k dec_input_ids dec_attn_mask,
     after_steps (translate_call GELU decoder enc_output attention_mask) eos_id
                 k translate_start = Some (dec_input_ids, dec_attn_mask) ->
     exists gen,
       dec_input_ids = [start_id :: gen] /\ length gen = k /\
       length (start_id :: gen) = (1 + k)%nat /\
       dec_attn_mask = [repeat 1%Z (1 + k)]).
Proof.
  split.
  - intros dec_input_ids dec_attn_mask ids' mask' stop Hstep.
    destruct (greedy_step_inv _ _ _ _ _ _ _ Hstep)
      as (out & row & lr & logits & p & Hcall & Hrow & Hrev & Hp & Hi & Hm & Hs).
    exists out, row, lr, logits, p. repeat (split; [assumption|]).
    split; [|auto]. intros l ->. exact (argmax_greatest _ _ Hp).
  - intros k dec_input_ids dec_attn_mask Hafter.
    destruct (after_steps_shape _ _ _ _ _ _ Hafter)
      as (gen & Hids & Hlen & _ & Hmask & Hmask0).
    simpl in Hids, Hmask, Hmask0. exists gen.
    split; [exact Hids|]. split; [exact Hlen|]. split; [simpl; congruence|].
    destruct k as [|k]; [rewrite Hmask0 by reflexivity; reflexivity|].
    rewrite Hmask by lia. reflexivity.
Qed.

(** One pass of the loop with [tiny_decoder] from the sequence [0]: token 1
    has the greater logit and is appended. *)
Lemma tiny_decoder_step :
  greedy_step (translate_call (fun x => x) tiny_decoder [] []) eos_id
              ([[0%Z]], [[1%Z]])
  = Ok (([[0; 1]]%Z, [[1; 1]]%Z), false).
Proof.
  unfold greedy_step, translate_call, Decoder_forward, tiny_decoder.
  cbn -[sinusoid INR LayerNorm_apply Linear_apply unit_layer_norm].
  assert (Hln : exists y0 y1,
             LayerNorm_apply (nn_LayerNorm 2 unit_layer_norm)
               [Fin (0 + sinusoid 2 0 0); Fin (0 + sinusoid 2 0 1)]
             = Ok [Fin y0; Fin y1]).
  { destruct (LayerNorm_apply_finite
                (nn_LayerNorm 2 unit_layer_norm)
                [(0 + sinusoid 2 0 0)%R; (0 + sinusoid 2 0 1)%R])
      as (l' & Hl' & Hlen); [reflexivity | discriminate | simpl; lra |].
    destruct l' as [|y0 [|y1 [|? ?]]]; try discriminate. exists y0, y1. exact Hl'. }
  destruct Hln as (y0 & y1 & ->).
  cbn -[sinusoid].
  destruct (Rlt_dec (y0 * 0 + (y1 * 0 + 0) + 0) (y0 * 0 + (y1 * 0 + 0) + 1))
    as [_|H]; [reflexivity | exfalso; apply H; lra].
Qed.

(** The theorem at [tiny_decoder]: the pass from the sequence [0], and the
    state before the first pass. *)
Lemma translate_step_transition_witness :
  (exists dec_output row last_row logits p,
     Decoder_forward (fun x => x) tiny_decoder [] [[0%Z]] (Some []) (Some [[1%Z]])
     = Ok [dec_output] /\
     [[0%Z]] = [row] /\
     rev dec_output = logits :: last_row /\
     argmax logits = Ok p /\
     (forall l, logits = map Fin l ->
        exists y, nth_error l p = Some y /\ Forall (fun x => (x <= y)%R) l) /\
     [[0; 1]]%Z = [row ++ [Z.of_nat p]] /\
     [[1; 1]]%Z = [repeat 1%Z (length row + 1)] /\
     false = (Z.of_nat p =? eos_id)%Z) /\
  (exists gen,
     [[start_id]] = [start_id :: gen] /\ length gen = 0%nat /\
     length (start_id :: gen) = (1 + 0)%nat /\
     [[1%Z]] = [repeat 1%Z (1 + 0)]).
Proof.
  split.
  - apply (proj1 (translate_step_transition (fun x => x) tiny_decoder [] [])
             [[0%Z]] [[1%Z]] [[0; 1]]%Z [[1; 1]]%Z false).
    exact tiny_decoder_step.
  - apply (proj2 (translate_step_transition (fun x => x) tiny_decoder [] [])
             0%nat [[start_id]] [[1%Z]]).
    reflexivity.
Defined.

(** ** Composition of the blocks and of the model *)

(** C9.  [Transformer.forward] is the decoder applied to the output of the
    encoder, with the encoder mask passed to both and the decoder mask to the
    decoder (dropout being the identity in evaluation mode); an exception of
    the encoder is the exception of the whole. *)
Theorem Transformer_forward_composition (GELU : R -> R) (m : Transformer)
    (enc_input dec_input enc_mask dec_mask : list (list Z)) :
  Transformer_forward GELU m enc_input dec_input enc_mask dec_mask
  = encoder_then_decoder GELU (encoder m) (decoder m)
                         enc_input dec_input enc_mask dec_mask.
Proof.
  unfold Transformer_forward, encoder_then_decoder.
  destruct (Encoder_forward GELU (encoder m) enc_input (Some enc_mask))
    as [enc_output|e]; simpl; [|reflexivity].
  destruct (Decoder_forward GELU (decoder m) enc_output dec_input
                            (Some enc_mask) (Some dec_mask)); reflexivity.
Qed.

(** C6.  The forward call of a decoder block built by its constructor is the
    composition, in this order, of (a) causal self-attention on the decoder
    input under the decoder mask, (b) cross-attention with the result as
    query and the encoder output as key and value under the encoder mask, by
    a module without causal mask, and (c) the feed-forward sublayer, each
    wrapped in residual and normalisation, followed by dropout. *)
Theorem DecoderBlock_forward_composition (GELU : R -> R)
    (d_k d_model n_heads max_len : nat) (dropout_prob : R) (p : DecoderBlockInit)
    (b : DecoderBlock) (enc_output dec_input : tensor3)
    (enc_mask dec_mask : option (list (list Z))) :
  DecoderBlock_init d_k d_model n_heads max_len dropout_prob p = Ok b ->
  let self_attention :=
    MultiHeadAttention_init d_k d_model n_heads max_len true (db_mha1 p) in
  let cross_attention :=
    MultiHeadAttention_init d_k d_model n_heads max_len false (db_mha2 p) in
  DecoderBlock_forward GELU b enc_output dec_input enc_mask dec_mask
  = decoder_block_composition GELU self_attention cross_attention b
                              enc_output dec_input enc_mask dec_mask /\
  causal self_attention = true /\
  causal cross_attention = false /\ causal_mask cross_attention = None.
Proof.
  intros Hb self_attention cross_attention.
  destruct (DecoderBlock_init_mha _ _ _ _ _ _ _ Hb) as [H1 H2].
  split; [|repeat split].
  unfold DecoderBlock_forward, decoder_block_composition, residual_norm.
  rewrite H1, H2. fold self_attention cross_attention.
  destruct (MultiHeadAttention_forward self_attention dec_input dec_input dec_input
                                       dec_mask) as [a1|e]; simpl; [|reflexivity].
  destruct (tensor_add dec_input a1) as [s1|e]; simpl; [|reflexivity].
  destruct (LayerNorm_forward (ln1 b) s1) as [x1|e]; simpl; [|reflexivity].
  destruct (MultiHeadAttention_forward cross_attention x1 enc_output enc_output
                                       enc_mask) as [a2|e]; simpl; [|reflexivity].
  destruct (tensor_add x1 a2) as [s2|e]; simpl; [|reflexivity].
  destruct (LayerNorm_forward (ln2 b) s2) as [x2|e]; simpl; [|reflexivity].
  destruct (FeedForward_forward GELU (ann b) x2) as [a3|e]; simpl; [|reflexivity].
  destruct (tensor_add x2 a3) as [s3|e]; simpl; [|reflexivity].
  destruct (LayerNorm_forward (ln3 b) s3) as [x3|e]; reflexivity.
Qed.

Lemma tiny_decoder_block_init :
  DecoderBlock_init 1 2 1 4 0 unit_decoder_block = Ok tiny_decoder_block.
Proof.
  unfold DecoderBlock_init, FeedForward_init.
  rewrite (nn_Dropout_valid 0) by lra. reflexivity.
Qed.

(** The theorem at the block built from the unit parameters. *)
Lemma DecoderBlock_forward_composition_witness :
  DecoderBlock_forward (fun x => x) tiny_decoder_block
                       [[[Fin 0; Fin 0]]] [[[Fin 0; Fin 0]]] None None
  = decoder_block_composition (fun x => x)
      (MultiHeadAttention_init 1 2 1 4 true unit_mha)
      (MultiHeadAttention_init 1 2 1 4 false unit_mha)
      tiny_decoder_block [[[Fin 0; Fin 0]]] [[[Fin 0; Fin 0]]] None None /\
  causal (MultiHeadAttention_init 1 2 1 4 true unit_mha) = true /\
  causal (MultiHeadAttention_init 1 2 1 4 false unit_mha) = false /\
  causal_mask (MultiHeadAttention_init 1 2 1 4 false unit_mha) = None.
Proof.
  exact (DecoderBlock_forward_composition (fun x => x) 1 2 1 4 0 unit_decoder_block
           tiny_decoder_block [[[Fin 0; Fin 0]]] [[[Fin 0; Fin 0]]] None None
           tiny_decoder_block_init).
Defined.

(** ** Token ids outside the vocabulary *)

Lemma mapM_raises_only {A B : Type} (f : A -> result B) (e : exn) (l : list A) :
  (forall x e', f x = Raise e' -> e' = e) ->
  forall e', mapM f l = Raise e' -> e' = e.
Proof.
  intros Hf. induction l as [|a l IH]; simpl; intros e' H; [discriminate|].
  destruct (f a) as [b|e0] eqn:Ha; simpl in H.
  - destruct (mapM f l) as [bs|e1]; simpl in H; [discriminate|].
    injection H as <-. apply IH; reflexivity.
  - injection H as <-. eapply Hf; eauto.
Qed.

Lemma Embedding_lookup_raises (e : Embedding) (id : Z) (e' : exn) :
  Embedding_lookup e id = Raise e' -> e' = IndexError.
Proof.
  unfold Embedding_lookup.
  destruct ((0 <=? id)%Z && (id <? Z.of_nat (num_embeddings e))%Z); [discriminate|].
  intros H; injection H as <-; reflexivity.
Qed.

Lemma Embedding_forward_out_of_range (e : Embedding) (x : list (list Z)) :
  id_out_of_range (num_embeddings e) x ->
  Embedding_forward e x = Raise IndexError.
Proof.
  intros (row & id & Hrow & Hid & Hout). unfold Embedding_forward.
  apply mapM_Raise_In.
  - intros r e'. apply mapM_raises_only. intros z e''. apply Embedding_lookup_raises.
  - exists row; split; [exact Hrow|].
    apply mapM_Raise_In; [intros z e'; apply Embedding_lookup_raises|].
    exists id; split; [exact Hid|]. unfold Embedding_lookup.
    destruct (Z.leb_spec 0 id), (Z.ltb_spec id (Z.of_nat (num_embeddings e)));
      simpl; try reflexivity; lia.
Qed.

(** C8.  For an encoder or a decoder stack built by its constructor with
    [vocab_size], a forward call on token ids of which one is outside
    [0, vocab_size) raises the index error of the embedding lookup: it returns
    no result, whatever the other arguments are. *)
Theorem token_id_out_of_range_raises (GELU : R -> R)
    (vocab_size max_len d_k d_model n_heads n_layers : nat) (dropout_prob : R) :
  (forall (p : EncoderInit) (m : Encoder) (x : list (list Z))
          (pad_mask : option (list (list Z))),
     Encoder_init vocab_size max_len d_k d_model n_heads n_layers dropout_prob p
     = Ok m ->
     id_out_of_range vocab_size x ->
     Encoder_forward GELU m x pad_mask = Raise IndexError) /\
  (forall (p : DecoderInit) (m : Decoder) (enc_output : tensor3)
          (dec_input : list (list Z)) (enc_mask dec_mask : option (list (list Z))),
     Decoder_init vocab_size max_len d_k d_model n_heads n_layers dropout_prob p
     = Ok m ->
     id_out_of_range vocab_size dec_input ->
     Decoder_forward GELU m enc_output dec_input enc_mask dec_mask = Raise IndexError).
Proof.
  split.
  - intros p m x pad_mask Hm Hout. unfold Encoder_init in Hm.
    inv_bind Hm as pos Hpos. inv_bind Hm as blocks Hblocks. injection Hm as <-.
    unfold Encoder_forward. cbn [enc_embedding].
    rewrite Embedding_forward_out_of_range by exact Hout. reflexivity.
  - intros p m enc_output dec_input enc_mask dec_mask Hm Hout. unfold Decoder_init in Hm.
    inv_bind Hm as pos Hpos. inv_bind Hm as blocks Hblocks. injection Hm as <-.
    unfold Decoder_forward. cbn [embedding].
    rewrite Embedding_forward_out_of_range by exact Hout. reflexivity.
Qed.

Lemma tiny_encoder_init_ok :
  Encoder_init 2 4 1 2 1 0 0 tiny_encoder_init = Ok tiny_encoder.
Proof.
  unfold Encoder_init.
  rewrite (PositionalEncoding_init_even 2 4 0) by (lra || reflexivity || lia).
  reflexivity.
Qed.

Lemma tiny_decoder_init_ok :
  Decoder_init 2 4 1 2 1 0 0 tiny_decoder_init = Ok tiny_decoder.
Proof.
  unfold Decoder_init.
  rewrite (PositionalEncoding_init_even 2 4 0) by (lra || reflexivity || lia).
  reflexivity.
Qed.

(** The theorem at a vocabulary of two tokens: the id 2 and the id -1. *)
Lemma token_id_out_of_range_raises_witness :
  Encoder_forward (fun x => x) tiny_encoder [[0; 2]]%Z None = Raise IndexError /\
  Decoder_forward (fun x => x) tiny_decoder [] [[-1]]%Z None None = Raise IndexError.
Proof.
  split.
  - apply (proj1 (token_id_out_of_range_raises (fun x => x) 2 4 1 2 1 0 0)
             tiny_encoder_init tiny_encoder [[0; 2]]%Z None tiny_encoder_init_ok).
    exists [0; 2]%Z, 2%Z. simpl. split; [auto|]. split; [auto|]. right; lia.
  - apply (proj2 (token_id_out_of_range_raises (fun x => x) 2 4 1 2 1 0 0)
             tiny_decoder_init tiny_decoder [] [[-1]]%Z None None tiny_decoder_init_ok).
    exists [-1]%Z, (-1)%Z. simpl. split; [auto|]. split; [auto|]. left; lia.
Defined.

(** ** The generation cell of the decoder-only notebook *)

(** The loop of [Decoder.ipynb] has the body of the loop of [translate]; it
    starts from a prompt and makes at most twenty passes. *)
Lemma DecoderOnly_generate_halts (GELU : R -> R) (model : DecoderOnly.Decoder)
    (sep_token_id : Z) (prompt : list Z) (mask : list (list Z)) :
  match DecoderOnly.generate GELU model sep_token_id [prompt] mask with
  | Ok (input_ids, mask') =>
      exists gen,
        input_ids = [prompt ++ gen] /\ (1 <= length gen <= 20)%nat /\
        (forall i, nth_error gen i = Some sep_token_id -> S i = length gen) /\
        ((length gen < 20)%nat <->
         exists i, (i < 19)%nat /\ nth_error gen i = Some sep_token_id)
  | Raise e => True
  end.
Proof.
  unfold DecoderOnly.generate.
  pose proof (greedy_loop_halts
                (fun input_ids mask =>
                   DecoderOnly.Decoder_forward GELU model input_ids (Some mask))
                sep_token_id DecoderOnly.generation_steps prompt mask) as Hout.
  destruct (greedy_loop _ sep_token_id DecoderOnly.generation_steps ([prompt], mask))
    as [[ids mask']|e]; [|exact I].
  destruct Hout as (gen & Hids & Hpos & Hle & Hlast & Hiff).
  unfold DecoderOnly.generation_steps in *.
  exists gen. split; [exact Hids|]. split; [split; [apply Hpos; lia | exact Hle]|].
  split; assumption.
Qed.

Lemma greedy_loop_S (call : list (list Z) -> list (list Z) -> result tensor3)
    (eos : Z) (n : nat) (st : gen_state) :
  greedy_loop call eos (S n) st
  = match greedy_step call eos st with
    | Ok (st', true) => Ok st'
    | Ok (st', false) => greedy_loop call eos n st'
    | Raise e => Raise e
    end.
Proof.
  simpl. destruct (greedy_step call eos st) as [[st' [|]]|e]; reflexivity.
Qed.

Lemma toy_step (row : list Z) (mask : list (list Z)) :
  greedy_step toy_call 0%Z ([row], mask)
  = Ok (([row ++ [if (length row <? 3)%nat then 1%Z else 0%Z]],
         [repeat 1%Z (length (row ++ [if (length row <? 3)%nat then 1%Z else 0%Z]))]),
        negb (length row <? 3)%nat).
Proof.
  unfold greedy_step, toy_call, shape1. cbn [fst snd hd bind].
  destruct (length row <? 3)%nat; cbn.
  - destruct (Rlt_dec 0 1) as [_|H]; [reflexivity | exfalso; apply H; lra].
  - destruct (Rlt_dec 1 0) as [H|_]; [exfalso; lra | reflexivity].
Qed.

(** A run of the loop that ends through [break] in its third pass. *)
Lemma toy_generation :
  greedy_loop toy_call 0%Z 32 ([[7%Z]], [[1%Z]])
  = Ok ([[7; 1; 1; 0]]%Z, [[1; 1; 1; 1]]%Z).
Proof.
  rewrite greedy_loop_S, toy_step. cbn [length Nat.ltb Nat.leb negb app repeat].
  rewrite greedy_loop_S, toy_step. cbn [length Nat.ltb Nat.leb negb app repeat].
  rewrite greedy_loop_S, toy_step. reflexivity.
Qed.

(** What [translate] hands to the detokenizer: the generated ids without the
    start id, between 1 and 32 of them. *)
Lemma translate_output_length (GELU : R -> R) (encoder : Encoder) (decoder : Decoder)
    (input_ids attention_mask : list (list Z)) (out : list Z) :
  translate GELU encoder decoder input_ids attention_mask = Ok out ->
  (1 <= length out <= max_steps)%nat.
Proof.
  unfold translate; intros H. inv_bind H as enc_output Henc. inv_bind H as st Hst.
  unfold translate_loop, translate_start in Hst.
  pose proof (greedy_loop_halts
                (translate_call GELU decoder enc_output attention_mask) eos_id
                max_steps [start_id] (ones_like [[start_id]])) as Hout.
  rewrite Hst in Hout. destruct st as [ids mask].
  destruct Hout as (gen & -> & Hpos & Hle & _). simpl in H. injection H as <-.
  split; [apply Hpos; unfold max_steps; lia | exact Hle].
Qed.

(** * The forward passes on inputs of the right shape *)

(** ** Lists, broadcasting and the layers *)

Lemma broadcast_to_single {A : Type} (n : nat) (x : A) :
  broadcast_to n [x] = Ok (repeat x n).
Proof. destruct n as [|[|n]]; reflexivity. Qed.

Lemma combine_map2 {A B C D : Type} (f : A -> C) (g : B -> D) (a : list A) (b : list B) :
  combine (map f a) (map g b) = map (fun p => (f (fst p), g (snd p))) (combine a b).
Proof.
  revert b; induction a as [|x a IH]; intros [|y b]; simpl; try reflexivity.
  rewrite IH; reflexivity.
Qed.

Lemma list_as_nth_seq {A : Type} (l : list A) (d : A) :
  map (fun j => nth j l d) (seq 0 (length l)) = l.
Proof.
  induction l as [|a l IH]; simpl; [reflexivity|].
  rewrite <- seq_shift, map_map. simpl. rewrite IH; reflexivity.
Qed.

Lemma combine_repeat_l {A B : Type} (x : A) (l : list B) :
  combine (repeat x (length l)) l = map (pair x) l.
Proof. induction l as [|b l IH]; simpl; [reflexivity | rewrite IH; reflexivity]. Qed.

Lemma enumerate_length {A : Type} (l : list A) : length (enumerate l) = length l.
Proof. unfold enumerate. rewrite length_combine, length_seq. lia. Qed.

Lemma map_snd_enumerate {A B : Type} (f : A -> B) (l : list A) :
  map (fun p => f (snd p)) (enumerate l) = map f l.
Proof.
  unfold enumerate. generalize 0%nat as s.
  induction l as [|a l IH]; intros s; simpl; [reflexivity | rewrite IH; reflexivity].
Qed.

Lemma Linear_apply_ok (l : Linear) (x : vec) :
  length x = in_features l -> Linear_apply l x = Ok (Linear_out l x).
Proof.
  intros H. unfold Linear_apply. rewrite H, Nat.eqb_refl. reflexivity.
Qed.

Lemma split_heads_ok (m : MultiHeadAttention) (x : mat) :
  Forall (fun row => length row = (n_heads m * d_k m)%nat) x ->
  split_heads m x = Ok (map (fun h => map (head_slice m h) x) (seq 0 (n_heads m))).
Proof.
  intros H. unfold split_heads.
  replace (forallb (fun row => length row =? n_heads m * d_k m) x) with true; [reflexivity|].
  symmetry. apply forallb_forall. intros row Hrow.
  apply Nat.eqb_eq. exact (proj1 (Forall_forall _ _) H row Hrow).
Qed.

Lemma masked_fill_row_ok (mrow : list Z) (srow : list score) :
  length mrow = length srow ->
  masked_fill_row mrow srow = Ok (map (fun p => fill (fst p) (snd p)) (combine mrow srow)).
Proof.
  intros H. unfold masked_fill_row. rewrite <- H, broadcast_to_exact. reflexivity.
Qed.

Lemma masked_fill_single_ok (row : list Z) (scores : list (list score)) :
  Forall (fun srow => length srow = length row) scores ->
  masked_fill [row] scores
  = Ok (map (fun srow => map (fun p => fill (fst p) (snd p)) (combine row srow)) scores).
Proof.
  intros H. unfold masked_fill. rewrite broadcast_to_single. simpl.
  rewrite combine_repeat_l, mapM_map.
  apply mapM_ok_ext. intros srow Hs. simpl.
  apply masked_fill_row_ok. symmetry. exact (proj1 (Forall_forall _ _) H srow Hs).
Qed.

Lemma masked_fill_ok (mask : list (list Z)) (scores : list (list score)) :
  Forall2 (fun mrow srow => length mrow = length srow) mask scores ->
  masked_fill mask scores
  = Ok (map (fun p => map (fun e => fill (fst e) (snd e)) (combine (fst p) (snd p)))
            (combine mask scores)).
Proof.
  intros H. unfold masked_fill.
  rewrite <- (Forall2_length H), broadcast_to_exact. simpl.
  apply mapM_ok_ext. intros [mrow srow] Hp. simpl.
  apply masked_fill_row_ok.
  destruct (In_nth_error _ _ Hp) as [i Hi].
  apply nth_error_combine in Hi. destruct Hi as [H1 H2]. simpl in *.
  destruct (Forall2_nth_error_r H H1) as (s & Hs & Hl). congruence.
Qed.

Lemma combine_row_map {A B C : Type} (row : list A) (d : A) (g : B -> C) (l : list B) :
  length row = length l ->
  combine row (map g l) = map (fun jx => (nth (fst jx) row d, g (snd jx))) (enumerate l).
Proof.
  intros H. rewrite <- (list_as_nth_seq row d) at 1. rewrite H, combine_map2.
  reflexivity.
Qed.

Lemma combine_seq_enumerate {A : Type} (l : list A) :
  combine (seq 0 (length l)) (enumerate l) = map (fun jx => (fst jx, jx)) (enumerate l).
Proof.
  unfold enumerate. generalize 0%nat as s.
  induction l as [|a l IH]; intros s; simpl; [reflexivity | rewrite IH; reflexivity].
Qed.

Lemma map_seq_enumerate {A B : Type} (f : nat -> A -> B) (l : list A) (d : A) :
  map (fun i => f i (nth i l d)) (seq 0 (length l))
  = map (fun p => f (fst p) (snd p)) (enumerate l).
Proof.
  unfold enumerate.
  rewrite <- (list_as_nth_seq l d) at 3.
  rewrite <- (map_id (seq 0 (length l))) at 2. rewrite combine_map_same.
  rewrite map_map. reflexivity.
Qed.

Lemma pad_stage_ok (m : MultiHeadAttention) (pad_row : option (list Z)) (qh kh : mat) :
  match pad_row with Some r => length r = length kh | None => True end ->
  match pad_row with
  | Some row => masked_fill [row] (scaled_scores m qh kh)
  | None => Ok (scaled_scores m qh kh)
  end
  = Ok (map (fun qi =>
               map (fun jk => if pad_open pad_row (fst jk)
                              then SVal (vdiv (vdot qi (snd jk)) (Fin (sqrt (INR (d_k m)))))
                              else NegInf)
                   (enumerate kh))
            qh).
Proof.
  intros Hpad. destruct pad_row as [row|].
  - rewrite masked_fill_single_ok.
    + f_equal. unfold scaled_scores. rewrite map_map. apply map_ext; intros qi.
      rewrite (combine_row_map row 0%Z) by exact Hpad. rewrite map_map.
      apply map_ext; intros [j kj]; simpl. unfold fill.
      destruct (nth j row 0 =? 0)%Z; reflexivity.
    + unfold scaled_scores. apply Forall_forall; intros srow Hs.
      apply in_map_iff in Hs; destruct Hs as (qi & <- & _).
      rewrite length_map. symmetry; exact Hpad.
  - f_equal. unfold scaled_scores. apply map_ext; intros qi.
    simpl. symmetry.
    exact (map_snd_enumerate
             (fun kj => SVal (vdiv (vdot qi kj) (Fin (sqrt (INR (d_k m)))))) kh).
Qed.

Lemma Forall2_of_lengths {A B : Type} (R : A -> B -> Prop) (a : list A) (b : list B) :
  length a = length b -> (forall x y, In x a -> In y b -> R x y) -> Forall2 R a b.
Proof.
  revert b; induction a as [|x a IH]; intros [|y b] Hl HR; simpl in *; try discriminate.
  - constructor.
  - constructor; [apply HR; auto | apply IH; [lia | intros; apply HR; auto]].
Qed.

Lemma causal_stage_ok (max_len : nat) (causal : bool) (T_output T_input : nat)
    (scores1 : list (list score)) :
  length scores1 = T_output ->
  Forall (fun srow => length srow = T_input) scores1 ->
  (causal = true -> (T_output <= max_len)%nat /\ (T_input <= max_len)%nat) ->
  (if causal
   then match (if causal then Some (tril (ones max_len max_len)) else None) with
        | Some cm => masked_fill (firstn T_output (map (firstn T_input) cm)) scores1
        | None => Raise AttributeError
        end
   else Ok scores1)
  = Ok (map (fun ir =>
               map (fun js => if causal_open causal (fst ir) (fst js) then snd js else NegInf)
                   (enumerate (snd ir)))
            (enumerate scores1)).
Proof.
  intros Hlen Hrows Hmax. destruct causal.
  - destruct (Hmax eq_refl) as [Ho Hi]. rewrite causal_slice, !Nat.min_l by assumption.
    rewrite masked_fill_ok.
    + f_equal. rewrite <- Hlen.
      rewrite <- (map_id scores1) at 2. rewrite combine_map2, map_map.
      fold (enumerate scores1). apply map_ext_in; intros [i srow] Hin; simpl.
      assert (E : length srow = T_input).
      { destruct (In_nth_error _ _ Hin) as [n Hn].
        apply nth_error_enumerate in Hn. destruct Hn as [_ Hn]. simpl in Hn.
        exact (Forall_nth_error Hrows Hn). }
      rewrite <- E. rewrite <- (map_id srow) at 2. rewrite combine_map2, map_map.
      fold (enumerate srow). apply map_ext; intros [j s]; simpl.
      unfold fill, causal_open, causal_entry; simpl.
      destruct (j <=? i)%nat; reflexivity.
    + apply Forall2_of_lengths.
      * rewrite length_map, length_seq. congruence.
      * intros mrow srow Hm Hs. apply in_map_iff in Hm; destruct Hm as (i & <- & _).
        rewrite length_map, length_seq. symmetry.
        exact (proj1 (Forall_forall _ _) Hrows srow Hs).
  - f_equal. rewrite <- (map_id scores1) at 1.
    rewrite <- (map_snd_enumerate (fun r => r) scores1).
    apply map_ext; intros [i srow]; simpl.
    rewrite <- (map_id srow) at 1. rewrite <- (map_snd_enumerate (fun r => r) srow).
    apply map_ext; intros [j s]; reflexivity.
Qed.

Lemma enumerate_enumerate {A : Type} (l : list A) :
  enumerate (enumerate l) = map (fun jx => (fst jx, jx)) (enumerate l).
Proof.
  unfold enumerate at 1. rewrite enumerate_length. apply combine_seq_enumerate.
Qed.

(** The body of the loop over the heads in [attn_weights_elem]. *)
Lemma head_weights_ok (dk d_model nh max_len : nat) (is_causal : bool) (p : MHAInit)
    (T_output T_input : nat) (pad_row : option (list Z)) (qh kh : mat) :
  let m := MultiHeadAttention_init dk d_model nh max_len is_causal p in
  length qh = T_output -> length kh = T_input ->
  match pad_row with Some r => length r = T_input | None => True end ->
  (is_causal = true -> (T_output <= max_len)%nat /\ (T_input <= max_len)%nat) ->
  (attn_scores <-
     match pad_row with
     | Some row => masked_fill [row] (scaled_scores m qh kh)
     | None => Ok (scaled_scores m qh kh)
     end ;;
   attn_scores <-
     (if causal m
      then match causal_mask m with
           | Some cm =>
               masked_fill (firstn T_output (map (firstn T_input) cm)) attn_scores
           | None => Raise AttributeError
           end
      else Ok attn_scores) ;;
   Ok (map softmax attn_scores))
  = Ok (map (fun iq => softmax (masked_scores m pad_row (fst iq) (snd iq) kh))
            (enumerate qh)).
Proof.
  intros m Hq Hk Hpad Hmax.
  rewrite pad_stage_ok by (destruct pad_row; congruence).
  cbn [bind].
  change (causal m) with is_causal.
  change (causal_mask m) with (if is_causal then Some (tril (ones max_len max_len)) else None).
  rewrite causal_stage_ok; try assumption.
  - cbn [bind]. f_equal. rewrite enumerate_map, !map_map.
    apply map_ext; intros [i qi]; simpl. f_equal.
    unfold masked_scores. rewrite enumerate_map, enumerate_enumerate, !map_map.
    apply map_ext; intros [j kj]; simpl.
    change (causal m) with is_causal. unfold key_open.
    destruct (pad_open pad_row j), (causal_open is_causal i j); reflexivity.
  - rewrite length_map; exact Hq.
  - apply Forall_forall; intros srow Hs. apply in_map_iff in Hs.
    destruct Hs as (qi & <- & _). rewrite length_map, enumerate_length. exact Hk.
Qed.

Lemma attn_weights_elem_ok (dk d_model nh max_len : nat) (is_causal : bool)
    (p : MHAInit) (q k : mat) (pad_row : option (list Z)) :
  let m := MultiHeadAttention_init dk d_model nh max_len is_causal p in
  Forall (fun row => length row = (nh * dk)%nat) q ->
  Forall (fun row => length row = (nh * dk)%nat) k ->
  match pad_row with Some r => length r = length k | None => True end ->
  (is_causal = true -> (length q <= max_len)%nat /\ (length k <= max_len)%nat) ->
  attn_weights_elem m q k pad_row
  = Ok (map (fun h =>
               map (fun iq => softmax (masked_scores m pad_row (fst iq)
                                         (head_slice m h (snd iq))
                                         (map (head_slice m h) k)))
                   (enumerate q))
            (seq 0 nh)).
Proof.
  intros m Hq Hk Hpad Hmax. unfold attn_weights_elem.
  rewrite (split_heads_ok m q) by exact Hq.
  rewrite (split_heads_ok m k) by exact Hk.
  cbn [bind]. change (n_heads m) with nh.
  rewrite combine_map_same, mapM_map.
  apply mapM_ok_ext. intros h _. cbn [fst snd].
  rewrite (head_weights_ok dk d_model nh max_len is_causal p
             (length q) (length k) pad_row); try assumption;
    try (rewrite length_map; reflexivity).
  f_equal. rewrite enumerate_map, map_map. reflexivity.
Qed.

Lemma length_concat_const {A B : Type} (f : A -> list B) (l : list A) (d : nat) :
  (forall x, length (f x) = d) -> length (concat (map f l)) = (length l * d)%nat.
Proof.
  intros H. induction l as [|a l IH]; simpl; [reflexivity|].
  rewrite length_app, IH, H. reflexivity.
Qed.

Lemma nth_enumerate {A : Type} (l : list A) (i : nat) (d0 : nat) (d : A) :
  (i < length l)%nat -> nth i (enumerate l) (d0, d) = (i, nth i l d).
Proof.
  intros Hi. unfold enumerate. rewrite combine_nth by apply length_seq.
  rewrite seq_nth by exact Hi. reflexivity.
Qed.

Ltac mapM_to_map g :=
  match goal with
  | |- context [mapM ?f ?l] => rewrite (mapM_ok_ext f g l)
  end.

Lemma weighted_values_ok (m : MultiHeadAttention) (w : list (list val)) (vh : mat) :
  Forall (fun wrow => length wrow = length vh) w ->
  weighted_values m w vh
  = Ok (map (fun wrow => map (fun d => vdot wrow (map (fun vj => nth d vj NaN) vh))
                             (seq 0 (d_k m)))
            w).
Proof.
  intros H. unfold weighted_values. apply mapM_ok_ext. intros wrow Hw.
  rewrite (proj1 (Forall_forall _ _) H wrow Hw), Nat.eqb_refl. reflexivity.
Qed.

Lemma masked_scores_length (m : MultiHeadAttention) (pad_row : option (list Z)) (i : nat)
    (qih : vec) (kh : mat) :
  length (masked_scores m pad_row i qih kh) = length kh.
Proof. unfold masked_scores. rewrite length_map. apply enumerate_length. Qed.

Lemma head_out_length (m : MultiHeadAttention) (pad_row : option (list Z)) (i : nat)
    (qi : vec) (k v : mat) (h : nat) :
  length (head_out m pad_row i qi k v h) = d_k m.
Proof. unfold head_out. rewrite length_map, length_seq. reflexivity. Qed.

Lemma merge_heads_rows {A : Type} (F : nat -> nat * A -> list val) (l : list A) (d : A)
    (nh : nat) :
  merge_heads (length l) (map (fun h => map (F h) (enumerate l)) (seq 0 nh))
  = map (fun iq => concat (map (fun h => F h iq) (seq 0 nh))) (enumerate l).
Proof.
  unfold merge_heads.
  transitivity (map (fun i => concat (map (fun h => F h (i, nth i l d)) (seq 0 nh)))
                    (seq 0 (length l))).
  - apply map_ext_in; intros i Hi. apply in_seq in Hi. f_equal.
    rewrite map_map. apply map_ext; intros h.
    rewrite (nth_map_lt (F h) (enumerate l) i [] (0%nat, d))
      by (rewrite enumerate_length; lia).
    rewrite nth_enumerate by lia. reflexivity.
  - rewrite (map_seq_enumerate
               (fun i x => concat (map (fun h => F h (i, x)) (seq 0 nh))) l d).
    apply map_ext; intros [i x]; reflexivity.
Qed.

Lemma attend_elem_ok (dk d_model nh max_len : nat) (is_causal : bool)
    (p : MHAInit) (q k v : mat) (pad_row : option (list Z)) :
  let m := MultiHeadAttention_init dk d_model nh max_len is_causal p in
  Forall (fun row => length row = (nh * dk)%nat) v ->
  length v = length k ->
  attend_elem m (length q) (length k)
    (map (fun h =>
            map (fun iq => softmax (masked_scores m pad_row (fst iq)
                                      (head_slice m h (snd iq))
                                      (map (head_slice m h) k)))
                (enumerate q))
         (seq 0 nh)) v
  = Ok (map (fun iq => attention_row m pad_row (fst iq) (snd iq) k v) (enumerate q)).
Proof.
  intros m Hv Hlen. unfold attend_elem.
  rewrite Hlen, Nat.eqb_refl.
  rewrite (split_heads_ok m v) by exact Hv.
  cbn [bind]. change (n_heads m) with nh.
  rewrite combine_map_same, mapM_map.
  mapM_to_map (fun h => map (fun iq => head_out m pad_row (fst iq) (snd iq) k v h)
                            (enumerate q)).
  - cbn [bind]. rewrite (merge_heads_rows _ q []).
    rewrite mapM_map. apply mapM_ok_ext. intros [i qi] _. cbn [fst snd].
    unfold attention_row. change (n_heads m) with nh.
    apply Linear_apply_ok.
    rewrite (length_concat_const _ _ dk) by (intros h; apply head_out_length).
    rewrite length_seq. simpl. lia.
  - intros h _. cbn [fst snd].
    rewrite weighted_values_ok.
    + rewrite map_map. reflexivity.
    + apply Forall_forall; intros wrow Hw. apply in_map_iff in Hw.
      destruct Hw as (iq & <- & _).
      rewrite softmax_length, masked_scores_length, !length_map. symmetry; exact Hlen.
Qed.

(** One batch element of [MultiHeadAttention.forward] after the projections:
    every query position gets its [attention_row]. *)
Lemma attention_elem_rows (dk d_model nh max_len : nat) (is_causal : bool)
    (p : MHAInit) (q k v : mat) (pad_row : option (list Z)) :
  let m := MultiHeadAttention_init dk d_model nh max_len is_causal p in
  Forall (fun row => length row = (nh * dk)%nat) q ->
  Forall (fun row => length row = (nh * dk)%nat) k ->
  Forall (fun row => length row = (nh * dk)%nat) v ->
  length v = length k ->
  match pad_row with Some r => length r = length k | None => True end ->
  (is_causal = true -> (length q <= max_len)%nat /\ (length k <= max_len)%nat) ->
  (W <- attn_weights_elem m q k pad_row ;; attend_elem m (length q) (length k) W v)
  = Ok (map (fun iq => attention_row m pad_row (fst iq) (snd iq) k v) (enumerate q)).
Proof.
  intros m Hq Hk Hv Hlen Hpad Hmax.
  unfold m. rewrite attn_weights_elem_ok by assumption. cbn [bind].
  apply attend_elem_ok; assumption.
Qed.

Lemma Linear_out_length (l : Linear) (x : vec) : length (Linear_out l x) = out_features l.
Proof. unfold Linear_out. rewrite length_map, length_seq. reflexivity. Qed.

Lemma Linear_forward_ok (l : Linear) (x : tensor3) :
  Forall (Forall (fun row => length row = in_features l)) x ->
  Linear_forward l x = Ok (map (map (Linear_out l)) x).
Proof.
  intros H. unfold Linear_forward.
  apply mapM_ok_ext; intros xn Hn. apply mapM_ok_ext; intros row Hr.
  apply Linear_apply_ok.
  exact (proj1 (Forall_forall _ _) (proj1 (Forall_forall _ _) H xn Hn) row Hr).
Qed.

Lemma length_concat_rows {A : Type} (T : nat) (x : list (list A)) :
  Forall (fun xn => length xn = T) x -> length (concat x) = (length x * T)%nat.
Proof.
  induction 1 as [|xn x Hn _ IH]; simpl; [reflexivity|].
  rewrite length_app, IH, Hn. reflexivity.
Qed.

Lemma chunks_concat {A : Type} (T : nat) (x : list (list A)) :
  Forall (fun xn => length xn = T) x -> chunks T (length x) (concat x) = x.
Proof.
  induction 1 as [|xn x Hn _ IH]; simpl; [reflexivity|].
  rewrite firstn_app, skipn_app, <- Hn, Nat.sub_diag, firstn_all, skipn_all.
  simpl. rewrite app_nil_r. f_equal. rewrite Hn. exact IH.
Qed.

Lemma view_tokens_ok (N T : nat) (x : tensor3) :
  length x = N -> Forall (fun xn => length xn = T) x -> view_tokens N T x = Ok x.
Proof.
  intros HN HT. unfold view_tokens.
  rewrite (length_concat_rows T x HT), HN, Nat.eqb_refl.
  rewrite <- HN, chunks_concat by exact HT. reflexivity.
Qed.

Lemma combine_nth_seq {A B : Type} (a : list A) (b : list B) (da : A) (db : B) :
  length a = length b ->
  combine a b = map (fun n => (nth n a da, nth n b db)) (seq 0 (length a)).
Proof.
  intros H. rewrite <- (list_as_nth_seq a da) at 1.
  rewrite <- (list_as_nth_seq b db) at 1. rewrite <- H. apply combine_map_same.
Qed.

Lemma combine_map_seq_l {A B : Type} (F : nat -> A) (b : list B) (db : B) :
  combine (map F (seq 0 (length b))) b
  = map (fun n => (F n, nth n b db)) (seq 0 (length b)).
Proof.
  rewrite <- (list_as_nth_seq b db) at 2. apply combine_map_same.
Qed.

Lemma has_shape_nth (N T D : nat) (x : tensor3) (n : nat) :
  has_shape N T D x -> (n < N)%nat ->
  length (nth n x []) = T /\ Forall (fun row => length row = D) (nth n x []).
Proof.
  intros [HN Hx] Hn. apply (proj1 (Forall_forall _ _) Hx). apply nth_In. lia.
Qed.

Lemma has_shape_rows (N T D : nat) (x : tensor3) :
  has_shape N T D x -> Forall (Forall (fun row => length row = D)) x.
Proof. intros [_ H]. eapply Forall_impl; [|exact H]. intros xn [_ Hr]; exact Hr. Qed.

Lemma has_shape_lengths (N T D : nat) (x : tensor3) :
  has_shape N T D x -> Forall (fun xn => length xn = T) x.
Proof. intros [_ H]. eapply Forall_impl; [|exact H]. intros xn [Hl _]; exact Hl. Qed.

Lemma pad_rows_ok (pad_mask : option (list (list Z))) (k : tensor3) (N : nat) :
  length k = N -> pad_mask_fits pad_mask k ->
  match pad_mask with
  | Some pm => rows <- broadcast_to N pm ;; Ok (map Some rows)
  | None => Ok (repeat None N)
  end = Ok (map (pad_row_of pad_mask) (seq 0 N)).
Proof.
  intros HN Hfit. destruct pad_mask as [pm|]; simpl in *.
  - pose proof (Forall2_length Hfit) as Hl.
    rewrite <- HN, <- Hl, broadcast_to_exact. simpl. f_equal.
    rewrite <- (list_as_nth_seq pm []) at 1. rewrite map_map. reflexivity.
  - f_equal. clear. generalize 0%nat as s.
    induction N as [|N IH]; intros s; simpl; [reflexivity | f_equal; apply IH].
Qed.

Lemma MultiHeadAttention_forward_rows (dk d_model nh max_len : nat) (is_causal : bool)
    (p : MHAInit) (q k v : tensor3) (pad_mask : option (list (list Z)))
    (N Tq Tk : nat) :
  let m := MultiHeadAttention_init dk d_model nh max_len is_causal p in
  has_shape N Tq d_model q -> has_shape N Tk d_model k -> has_shape N Tk d_model v ->
  pad_mask_fits pad_mask k ->
  (is_causal = true -> (Tq <= max_len)%nat /\ (Tk <= max_len)%nat) ->
  MultiHeadAttention_forward m q k v pad_mask
  = Ok (map (fun n => attention_out m (pad_row_of pad_mask n)
                        (nth n q []) (nth n k []) (nth n v []))
            (seq 0 N)).
Proof.
  intros m Hq Hk Hv Hfit Hmax.
  pose proof (proj1 Hq) as HNq. pose proof (proj1 Hk) as HNk. pose proof (proj1 Hv) as HNv.
  unfold MultiHeadAttention_forward, MultiHeadAttention_attn_weights.
  rewrite (Linear_forward_ok (query m) q) by exact (has_shape_rows _ _ _ _ Hq).
  rewrite (Linear_forward_ok (key m) k) by exact (has_shape_rows _ _ _ _ Hk).
  cbn [bind]. rewrite !length_map, HNq.
  rewrite (pad_rows_ok pad_mask k N HNk Hfit). cbn [bind].
  rewrite HNk, Nat.eqb_refl.
  rewrite (combine_nth_seq (map (map (Linear_out (query m))) q)
                           (map (map (Linear_out (key m))) k) [] [])
    by (rewrite !length_map; congruence).
  rewrite length_map, HNq, combine_map_same, mapM_map.
  mapM_to_map (fun n =>
    map (fun h =>
           map (fun iq => softmax (masked_scores m (pad_row_of pad_mask n) (fst iq)
                                     (head_slice m h (snd iq))
                                     (map (head_slice m h)
                                          (map (Linear_out (key m)) (nth n k [])))))
               (enumerate (map (Linear_out (query m)) (nth n q []))))
        (seq 0 nh)).
  2:{ intros n Hn. apply in_seq in Hn. cbn [fst snd].
      rewrite !(nth_map_lt _ _ n [] []) by lia.
      destruct (has_shape_nth _ _ _ _ n Hq) as [Hlq Hrq]; [lia|].
      destruct (has_shape_nth _ _ _ _ n Hk) as [Hlk Hrk]; [lia|].
      apply attn_weights_elem_ok.
      - apply Forall_forall; intros row Hr. apply in_map_iff in Hr.
        destruct Hr as (x & <- & _). rewrite Linear_out_length. simpl. lia.
      - apply Forall_forall; intros row Hr. apply in_map_iff in Hr.
        destruct Hr as (x & <- & _). rewrite Linear_out_length. simpl. lia.
      - rewrite length_map, Hlk. unfold pad_row_of, pad_mask_fits in *.
        destruct pad_mask as [pm|]; simpl; [|exact I].
        assert (Hnp : (n < length pm)%nat) by (rewrite (Forall2_length Hfit); lia).
        destruct (nth_error pm n) as [r|] eqn:Hr; [|apply nth_error_None in Hr; lia].
        destruct (Forall2_nth_error_r Hfit Hr) as (kn & Hkn & Hlen).
        rewrite (nth_error_nth _ _ [] Hr), Hlen.
        rewrite <- Hlk. f_equal. symmetry. exact (nth_error_nth _ _ [] Hkn).
      - intros Hc. rewrite !length_map, Hlq, Hlk. exact (Hmax Hc). }
  cbn [bind].
  rewrite (Linear_forward_ok (value m) v) by exact (has_shape_rows _ _ _ _ Hv).
  cbn [bind].
  assert (Hview : view_tokens N (shape1 k) (map (map (Linear_out (value m))) v)
                  = Ok (map (map (Linear_out (value m))) v)).
  { destruct k as [|k0 k'].
    - simpl in HNk. rewrite <- HNk in *. destruct v; [reflexivity | discriminate HNv].
    - apply view_tokens_ok; [rewrite length_map; exact HNv|].
      apply Forall_forall; intros vn Hvn. apply in_map_iff in Hvn.
      destruct Hvn as (x & <- & Hx). rewrite length_map.
      unfold shape1; simpl.
      rewrite (proj1 (Forall_forall _ _) (has_shape_lengths _ _ _ _ Hv) x Hx).
      symmetry. apply (proj1 (Forall_forall _ _) (has_shape_lengths _ _ _ _ Hk)).
      left; reflexivity. }
  rewrite Hview. cbn [bind].
  rewrite (combine_nth_seq q k [] []) by congruence.
  rewrite HNq, combine_map_same.
  rewrite <- (list_as_nth_seq (map (map (Linear_out (value m))) v) []).
  rewrite length_map, HNv, combine_map_same, mapM_map.
  apply mapM_ok_ext. intros n Hn. apply in_seq in Hn. cbn [fst snd].
  destruct (has_shape_nth _ _ _ _ n Hq) as [Hlq Hrq]; [lia|].
  destruct (has_shape_nth _ _ _ _ n Hk) as [Hlk Hrk]; [lia|].
  destruct (has_shape_nth _ _ _ _ n Hv) as [Hlv Hrv]; [lia|].
  rewrite (nth_map_lt _ v n [] []) by lia.
  unfold attention_out.
  rewrite <- (map_map (fun iq => (fst iq, Linear_out (query m) (snd iq)))
                      (fun iq => attention_row m (pad_row_of pad_mask n) (fst iq) (snd iq)
                                   (map (Linear_out (key m)) (nth n k []))
                                   (map (Linear_out (value m)) (nth n v [])))).
  rewrite <- enumerate_map.
  replace (length (nth n q [])) with (length (map (Linear_out (query m)) (nth n q [])))
    by apply length_map.
  replace (length (nth n k [])) with (length (map (Linear_out (key m)) (nth n k [])))
    by apply length_map.
  apply attend_elem_ok.
  - apply Forall_forall; intros row Hr. apply in_map_iff in Hr.
    destruct Hr as (x & <- & _). rewrite Linear_out_length. simpl. lia.
  - rewrite !length_map. congruence.
Qed.

Lemma attention_out_at (m : MultiHeadAttention) (pad_row : option (list Z))
    (qn kn vn : mat) :
  attention_out m pad_row qn kn vn
  = map (fun iq => attention_at m pad_row (fst iq) (snd iq) kn vn) (enumerate qn).
Proof. reflexivity. Qed.

(** *** Shapes and finiteness of the layers *)

Lemma has_shape_map (N T D D' : nat) (f : vec -> vec) (x : tensor3) :
  (forall row, length row = D -> length (f row) = D') ->
  has_shape N T D x -> has_shape N T D' (map (map f) x).
Proof.
  intros Hf [HN Hx]. split; [rewrite length_map; exact HN|].
  apply Forall_forall; intros yn Hy. apply in_map_iff in Hy.
  destruct Hy as (xn & <- & Hxn).
  destruct (proj1 (Forall_forall _ _) Hx xn Hxn) as [HT Hr].
  split; [rewrite length_map; exact HT|].
  apply Forall_forall; intros r Hr'. apply in_map_iff in Hr'.
  destruct Hr' as (row & <- & Hrow). apply Hf.
  exact (proj1 (Forall_forall _ _) Hr row Hrow).
Qed.

Lemma finite_tensor_map (D : nat) (f : vec -> vec) (N T : nat) (x : tensor3) :
  (forall row, length row = D -> finite_vec row -> finite_vec (f row)) ->
  has_shape N T D x -> finite_tensor x -> finite_tensor (map (map f) x).
Proof.
  intros Hf [_ Hx] Hfin.
  apply Forall_forall; intros yn Hy. apply in_map_iff in Hy.
  destruct Hy as (xn & <- & Hxn).
  destruct (proj1 (Forall_forall _ _) Hx xn Hxn) as [_ Hr].
  pose proof (proj1 (Forall_forall _ _) Hfin xn Hxn) as Hfn.
  apply Forall_forall; intros r Hr'. apply in_map_iff in Hr'.
  destruct Hr' as (row & <- & Hrow). apply Hf.
  - exact (proj1 (Forall_forall _ _) Hr row Hrow).
  - exact (proj1 (Forall_forall _ _) Hfn row Hrow).
Qed.

Lemma Linear_out_finite (l : Linear) (x : vec) : finite_vec x -> finite_vec (Linear_out l x).
Proof.
  intros Hx. apply Forall_forall; intros v Hv.
  apply in_map_iff in Hv; destruct Hv as (o & <- & _).
  destruct (vdot_finite Hx (map_Fin_finite (map (weight l o) (seq 0 (in_features l)))))
    as [r Hr].
  unfold Linear_row. rewrite <- (map_map (weight l o) Fin), Hr.
  eexists; reflexivity.
Qed.

Lemma LayerNorm_apply_ok (ln : LayerNorm) (x : vec) :
  length x = normalized_shape ln -> LayerNorm_apply ln x = Ok (LayerNorm_out ln x).
Proof.
  intros H. unfold LayerNorm_apply. rewrite H, Nat.eqb_refl. reflexivity.
Qed.

Lemma LayerNorm_out_length (ln : LayerNorm) (x : vec) :
  length (LayerNorm_out ln x) = length x.
Proof. unfold LayerNorm_out. rewrite length_map. apply enumerate_length. Qed.

Lemma LayerNorm_out_finite (ln : LayerNorm) (x : vec) :
  length x = normalized_shape ln -> (0 < length x)%nat -> (0 < eps ln)%R ->
  finite_vec x -> finite_vec (LayerNorm_out ln x).
Proof.
  intros Hlen Hpos Heps Hx. destruct (finite_vec_map_Fin Hx) as [l ->].
  rewrite length_map in Hlen, Hpos.
  destruct (LayerNorm_apply_finite ln l Hlen) as (l' & Hl' & _);
    [destruct l; [simpl in Hpos; lia | discriminate] | exact Heps |].
  rewrite LayerNorm_apply_ok in Hl' by (rewrite length_map; exact Hlen).
  injection Hl' as ->. apply map_Fin_finite.
Qed.

Lemma LayerNorm_forward_ok (ln : LayerNorm) (x : tensor3) :
  Forall (Forall (fun row => length row = normalized_shape ln)) x ->
  LayerNorm_forward ln x = Ok (map (map (LayerNorm_out ln)) x).
Proof.
  intros H. unfold LayerNorm_forward.
  apply mapM_ok_ext; intros xn Hn. apply mapM_ok_ext; intros row Hr.
  apply LayerNorm_apply_ok.
  exact (proj1 (Forall_forall _ _) (proj1 (Forall_forall _ _) H xn Hn) row Hr).
Qed.

Lemma GELU_vec_length (GELU : R -> R) (x : vec) : length (GELU_vec GELU x) = length x.
Proof. apply length_map. Qed.

Lemma GELU_vec_finite (GELU : R -> R) (x : vec) : finite_vec x -> finite_vec (GELU_vec GELU x).
Proof.
  intros Hx. apply Forall_forall; intros v Hv. apply in_map_iff in Hv.
  destruct Hv as (a & <- & Ha).
  destruct (proj1 (Forall_forall _ _) Hx a Ha) as [r ->]. eexists; reflexivity.
Qed.

Lemma FeedForward_forward_ok (GELU : R -> R) (f : FeedForward) (d_model : nat)
    (x : tensor3) :
  in_features (ann_0 f) = d_model ->
  in_features (ann_2 f) = out_features (ann_0 f) ->
  Forall (Forall (fun row => length row = d_model)) x ->
  FeedForward_forward GELU f x = Ok (map (map (FeedForward_out GELU f)) x).
Proof.
  intros H0 H2 Hx. unfold FeedForward_forward.
  rewrite Linear_forward_ok by (rewrite H0; exact Hx). cbn [bind].
  unfold GELU_forward. rewrite Linear_forward_ok.
  - cbn [bind]. unfold Dropout_forward. f_equal.
    rewrite !map_map. apply map_ext; intros xn. rewrite !map_map. reflexivity.
  - apply Forall_forall; intros yn Hy. rewrite map_map in Hy.
    apply in_map_iff in Hy. destruct Hy as (xn & <- & _).
    apply Forall_forall; intros r Hr. rewrite map_map in Hr.
    apply in_map_iff in Hr. destruct Hr as (row & <- & _).
    rewrite length_map, Linear_out_length. symmetry; exact H2.
Qed.

Lemma FeedForward_out_length (GELU : R -> R) (f : FeedForward) (x : vec) :
  length (FeedForward_out GELU f x) = out_features (ann_2 f).
Proof. apply Linear_out_length. Qed.

Lemma FeedForward_out_finite (GELU : R -> R) (f : FeedForward) (x : vec) :
  finite_vec x -> finite_vec (FeedForward_out GELU f x).
Proof.
  intros Hx. apply Linear_out_finite, GELU_vec_finite, Linear_out_finite, Hx.
Qed.

Lemma vec_add_ok (x y : vec) : length x = length y -> vec_add x y = Ok (vec_sum x y).
Proof. intros H. unfold vec_add. rewrite broadcast2_same by exact H. reflexivity. Qed.

Lemma mat_add_ok (x y : mat) :
  Forall2 (fun r s => length r = length s) x y -> mat_add x y = Ok (mat_sum x y).
Proof.
  intros H. unfold mat_add. rewrite broadcast2_same by exact (Forall2_length H).
  cbn [bind]. apply mapM_ok_ext. intros [r s] Hp. simpl.
  apply vec_add_ok.
  destruct (In_nth_error _ _ Hp) as [i Hi].
  apply nth_error_combine in Hi. destruct Hi as [H1 H2]. simpl in *.
  destruct (Forall2_nth_error_r H H1) as (s' & Hs & Hl). congruence.
Qed.

Lemma same_shape_Forall2 (N T D : nat) (x y : tensor3) :
  has_shape N T D x -> has_shape N T D y ->
  Forall2 (fun xn yn => Forall2 (fun r s => length r = length s) xn yn) x y.
Proof.
  intros [HNx Hx] [HNy Hy]. apply Forall2_of_lengths; [congruence|].
  intros xn yn Hxn Hyn.
  destruct (proj1 (Forall_forall _ _) Hx xn Hxn) as [HTx Hrx].
  destruct (proj1 (Forall_forall _ _) Hy yn Hyn) as [HTy Hry].
  apply Forall2_of_lengths; [congruence|].
  intros r s Hr Hs.
  rewrite (proj1 (Forall_forall _ _) Hrx r Hr), (proj1 (Forall_forall _ _) Hry s Hs).
  reflexivity.
Qed.

Lemma tensor_add_ok (N T D : nat) (x y : tensor3) :
  has_shape N T D x -> has_shape N T D y -> tensor_add x y = Ok (tensor_sum x y).
Proof.
  intros Hx Hy. pose proof (same_shape_Forall2 _ _ _ _ _ Hx Hy) as H.
  unfold tensor_add. rewrite broadcast2_same by exact (Forall2_length H).
  cbn [bind]. apply mapM_ok_ext. intros [xn yn] Hp. simpl.
  apply mat_add_ok.
  destruct (In_nth_error _ _ Hp) as [i Hi].
  apply nth_error_combine in Hi. destruct Hi as [H1 H2]. simpl in *.
  destruct (Forall2_nth_error_r H H1) as (s' & Hs & Hl). congruence.
Qed.

Lemma per_position_id (N : nat) (x : tensor3) :
  length x = N -> per_position N x (fun _ _ xi => xi) = x.
Proof.
  intros H. unfold per_position. rewrite <- H.
  transitivity (map (fun n => nth n x []) (seq 0 (length x)));
    [|apply list_as_nth_seq].
  apply map_ext; intros n. rewrite (map_snd_enumerate (fun r => r)). apply map_id.
Qed.

Lemma per_position_ext (N : nat) (x : tensor3) (F G : nat -> nat -> vec -> vec) :
  (forall n i xi, (n < N)%nat -> nth_error (nth n x []) i = Some xi -> F n i xi = G n i xi) ->
  per_position N x F = per_position N x G.
Proof.
  intros H. unfold per_position. apply map_ext_in; intros n Hn. apply in_seq in Hn.
  apply map_ext_in; intros [i xi] Hi. simpl.
  destruct (In_nth_error _ _ Hi) as [j Hj]. apply nth_error_enumerate in Hj.
  destruct Hj as [<- Hj]. simpl in *. apply H; [lia | exact Hj].
Qed.

Lemma per_position_map (N : nat) (x : tensor3) (F : nat -> nat -> vec -> vec)
    (g : vec -> vec) :
  map (map g) (per_position N x F) = per_position N x (fun n i xi => g (F n i xi)).
Proof.
  unfold per_position. rewrite map_map. apply map_ext; intros n.
  rewrite map_map. reflexivity.
Qed.

Lemma per_position_length (N : nat) (x : tensor3) (F : nat -> nat -> vec -> vec) :
  length (per_position N x F) = N.
Proof. unfold per_position. rewrite length_map, length_seq. reflexivity. Qed.

Lemma per_position_nth (N : nat) (x : tensor3) (F : nat -> nat -> vec -> vec) (n : nat) :
  (n < N)%nat ->
  nth n (per_position N x F) []
  = map (fun iq => F n (fst iq) (snd iq)) (enumerate (nth n x [])).
Proof.
  intros Hn. unfold per_position.
  rewrite (nth_map_lt _ (seq 0 N) n [] 0%nat) by (rewrite length_seq; exact Hn).
  rewrite seq_nth by exact Hn. reflexivity.
Qed.

Lemma combine_enumerate_maps {A B C : Type} (F : nat * A -> B) (G : nat * A -> C)
    (l : list A) :
  combine (map F (enumerate l)) (map G (enumerate l))
  = map (fun iq => (F iq, G iq)) (enumerate l).
Proof. apply combine_map_same. Qed.

Lemma per_position_sum (N : nat) (x : tensor3) (F G : nat -> nat -> vec -> vec) :
  tensor_sum (per_position N x F) (per_position N x G)
  = per_position N x (fun n i xi => vec_sum (F n i xi) (G n i xi)).
Proof.
  unfold tensor_sum, per_position. rewrite combine_map_same, map_map.
  apply map_ext; intros n. simpl. unfold mat_sum.
  rewrite combine_map_same, map_map. reflexivity.
Qed.

Lemma per_position_shape (N T D D' : nat) (x : tensor3) (F : nat -> nat -> vec -> vec) :
  has_shape N T D x ->
  (forall n i xi, (n < N)%nat -> nth_error (nth n x []) i = Some xi ->
                  length (F n i xi) = D') ->
  has_shape N T D' (per_position N x F).
Proof.
  intros Hx HF. split; [apply per_position_length|].
  apply Forall_forall; intros yn Hy. unfold per_position in Hy.
  apply in_map_iff in Hy. destruct Hy as (n & <- & Hn). apply in_seq in Hn.
  destruct (has_shape_nth _ _ _ _ n Hx) as [HT _]; [lia|].
  split; [rewrite length_map, enumerate_length; exact HT|].
  apply Forall_forall; intros r Hr. apply in_map_iff in Hr.
  destruct Hr as ([i xi] & <- & Hi). simpl.
  destruct (In_nth_error _ _ Hi) as [j Hj]. apply nth_error_enumerate in Hj.
  destruct Hj as [<- Hj]. simpl in *. apply HF; [lia | exact Hj].
Qed.

Lemma per_position_finite (N : nat) (x : tensor3) (F : nat -> nat -> vec -> vec) :
  (forall n i xi, (n < N)%nat -> nth_error (nth n x []) i = Some xi ->
                  finite_vec (F n i xi)) ->
  finite_tensor (per_position N x F).
Proof.
  intros HF. apply Forall_forall; intros yn Hy. unfold per_position in Hy.
  apply in_map_iff in Hy. destruct Hy as (n & <- & Hn). apply in_seq in Hn.
  apply Forall_forall; intros r Hr. apply in_map_iff in Hr.
  destruct Hr as ([i xi] & <- & Hi). simpl.
  destruct (In_nth_error _ _ Hi) as [j Hj]. apply nth_error_enumerate in Hj.
  destruct Hj as [<- Hj]. simpl in *. apply HF; [lia | exact Hj].
Qed.

(** The attention of well-shaped inputs, position by position of the
    queries. *)
Lemma MultiHeadAttention_forward_per_position (dk d_model nh max_len : nat)
    (is_causal : bool) (p : MHAInit) (q k v : tensor3)
    (pad_mask : option (list (list Z))) (N Tq Tk : nat) :
  let m := MultiHeadAttention_init dk d_model nh max_len is_causal p in
  has_shape N Tq d_model q -> has_shape N Tk d_model k -> has_shape N Tk d_model v ->
  pad_mask_fits pad_mask k ->
  (is_causal = true -> (Tq <= max_len)%nat /\ (Tk <= max_len)%nat) ->
  MultiHeadAttention_forward m q k v pad_mask
  = Ok (per_position N q
          (fun n i xi => attention_at m (pad_row_of pad_mask n) i xi
                                      (nth n k []) (nth n v []))).
Proof.
  intros m Hq Hk Hv Hfit Hmax. unfold m.
  rewrite (MultiHeadAttention_forward_rows dk d_model nh max_len is_causal p q k v
             pad_mask N Tq Tk) by assumption.
  reflexivity.
Qed.

(** *** Finiteness of one row of attention *)

Lemma head_slice_finite (m : MultiHeadAttention) (h : nat) (row : vec) :
  finite_vec row -> finite_vec (head_slice m h row).
Proof. apply firstn_skipn_finite. Qed.

Lemma head_slice_length (m : MultiHeadAttention) (h : nat) (row : vec) :
  length row = (n_heads m * d_k m)%nat -> (h < n_heads m)%nat ->
  length (head_slice m h row) = d_k m.
Proof.
  intros Hl Hh. unfold head_slice. rewrite length_firstn, length_skipn, Hl. nia.
Qed.

Lemma scaled_score_finite (dk : nat) (qi kj : vec) :
  (0 < dk)%nat -> finite_vec qi -> finite_vec kj ->
  exists r, vdiv (vdot qi kj) (Fin (sqrt (INR dk))) = Fin r.
Proof.
  intros Hd Hq Hk. destruct (vdot_finite Hq Hk) as [a ->]. simpl.
  destruct (Req_dec_T (sqrt (INR dk)) 0) as [H0|_]; [|eexists; reflexivity].
  exfalso. assert (0 < INR dk)%R by (apply lt_0_INR; exact Hd).
  pose proof (sqrt_lt_R0 _ H); lra.
Qed.

Lemma masked_scores_nth (m : MultiHeadAttention) (pad_row : option (list Z)) (i : nat)
    (qih : vec) (kh : mat) (j : nat) (s : score) :
  nth_error (masked_scores m pad_row i qih kh) j = Some s ->
  exists kj, nth_error kh j = Some kj /\
    s = if key_open (causal m) pad_row i j
        then SVal (vdiv (vdot qih kj) (Fin (sqrt (INR (d_k m)))))
        else NegInf.
Proof.
  unfold masked_scores. intros H.
  destruct (nth_error_map_Some H) as ([j' kj] & Hj & ->).
  apply nth_error_enumerate in Hj. destruct Hj as [<- Hj]. simpl in *.
  exists kj; split; [exact Hj | reflexivity].
Qed.

Lemma masked_scores_good (m : MultiHeadAttention) (pad_row : option (list Z)) (i : nat)
    (qih : vec) (kh : mat) :
  (0 < d_k m)%nat -> finite_vec qih -> finite_mat kh ->
  (exists j, (j < length kh)%nat /\ key_open (causal m) pad_row i j = true) ->
  Forall score_not_nan (masked_scores m pad_row i qih kh) /\
  Exists (fun s => exists r, s = SVal (Fin r)) (masked_scores m pad_row i qih kh).
Proof.
  intros Hd Hq Hk (j0 & Hj0 & Hopen). split.
  - apply Forall_forall; intros s Hs. destruct (In_nth_error _ _ Hs) as [j Hj].
    destruct (masked_scores_nth _ _ _ _ _ _ _ Hj) as (kj & Hkj & ->).
    unfold score_not_nan. destruct (key_open (causal m) pad_row i j); [|discriminate].
    destruct (scaled_score_finite (d_k m) qih kj Hd Hq (Forall_nth_error Hk Hkj)) as [r ->].
    discriminate.
  - apply Exists_exists.
    assert (Hlt : (j0 < length (masked_scores m pad_row i qih kh))%nat)
      by (rewrite masked_scores_length; exact Hj0).
    destruct (nth_error (masked_scores m pad_row i qih kh) j0) as [s|] eqn:Hs;
      [|apply nth_error_None in Hs; lia].
    exists s; split; [eapply nth_error_In; eauto|].
    destruct (masked_scores_nth _ _ _ _ _ _ _ Hs) as (kj & Hkj & ->).
    rewrite Hopen.
    destruct (scaled_score_finite (d_k m) qih kj Hd Hq (Forall_nth_error Hk Hkj)) as [r ->].
    exists r; reflexivity.
Qed.

Lemma softmax_finite (row : list score) :
  Forall score_not_nan row ->
  Exists (fun s => exists r, s = SVal (Fin r)) row ->
  finite_vec (softmax row).
Proof.
  intros Hn He. rewrite (softmax_defined Hn He).
  apply Forall_forall; intros v Hv. apply in_map_iff in Hv.
  destruct Hv as (s & <- & _). eexists; reflexivity.
Qed.

Lemma map_head_slice_finite (m : MultiHeadAttention) (h : nat) (x : mat) :
  finite_mat x -> finite_mat (map (head_slice m h) x).
Proof.
  intros Hx. apply Forall_forall; intros r Hr. apply in_map_iff in Hr.
  destruct Hr as (row & <- & Hrow). apply head_slice_finite.
  exact (proj1 (Forall_forall _ _) Hx row Hrow).
Qed.

Lemma column_finite (m : MultiHeadAttention) (h d : nat) (v : mat) :
  Forall (fun row => length row = (n_heads m * d_k m)%nat) v -> finite_mat v ->
  (h < n_heads m)%nat -> (d < d_k m)%nat ->
  finite_vec (map (fun vj => nth d vj NaN) (map (head_slice m h) v)).
Proof.
  intros Hl Hv Hh Hd. rewrite map_map.
  apply Forall_forall; intros x Hx. apply in_map_iff in Hx.
  destruct Hx as (row & <- & Hrow).
  pose proof (proj1 (Forall_forall _ _) Hl row Hrow) as Hlen.
  pose proof (head_slice_finite m h row (proj1 (Forall_forall _ _) Hv row Hrow)) as Hf.
  apply (proj1 (Forall_forall _ _) Hf). apply nth_In.
  rewrite head_slice_length by assumption. exact Hd.
Qed.

Lemma concat_finite (l : list vec) : Forall finite_vec l -> finite_vec (concat l).
Proof.
  induction 1 as [|x l Hx _ IH]; simpl; [constructor|].
  apply Forall_app; split; assumption.
Qed.

Lemma attention_row_finite (m : MultiHeadAttention) (pad_row : option (list Z)) (i : nat)
    (qi : vec) (k v : mat) :
  (0 < d_k m)%nat -> finite_vec qi -> finite_mat k -> finite_mat v ->
  Forall (fun row => length row = (n_heads m * d_k m)%nat) v ->
  (exists j, (j < length k)%nat /\ key_open (causal m) pad_row i j = true) ->
  finite_vec (attention_row m pad_row i qi k v).
Proof.
  intros Hd Hq Hk Hv Hl (j0 & Hj0 & Hopen).
  unfold attention_row. apply Linear_out_finite, concat_finite.
  apply Forall_forall; intros x Hx. apply in_map_iff in Hx.
  destruct Hx as (h & <- & Hh). apply in_seq in Hh.
  unfold head_out. apply Forall_forall; intros y Hy. apply in_map_iff in Hy.
  destruct Hy as (d & <- & Hdd). apply in_seq in Hdd.
  apply vdot_finite.
  - destruct (masked_scores_good m pad_row i (head_slice m h qi) (map (head_slice m h) k))
      as [Hn He]; auto.
    + apply head_slice_finite; exact Hq.
    + apply map_head_slice_finite; exact Hk.
    + exists j0; split; [rewrite length_map; exact Hj0 | exact Hopen].
    + apply softmax_finite; assumption.
  - apply column_finite; auto; lia.
Qed.

Lemma map_Linear_out_finite (l : Linear) (x : mat) :
  finite_mat x -> finite_mat (map (Linear_out l) x).
Proof.
  intros Hx. apply Forall_forall; intros r Hr. apply in_map_iff in Hr.
  destruct Hr as (row & <- & Hrow). apply Linear_out_finite.
  exact (proj1 (Forall_forall _ _) Hx row Hrow).
Qed.

Lemma attention_at_finite (dk d_model nh max_len : nat) (is_causal : bool) (p : MHAInit)
    (pad_row : option (list Z)) (i : nat) (xi : vec) (kn vn : mat) :
  let m := MultiHeadAttention_init dk d_model nh max_len is_causal p in
  (0 < dk)%nat -> finite_vec xi -> finite_mat kn -> finite_mat vn ->
  (exists j, (j < length kn)%nat /\ key_open is_causal pad_row i j = true) ->
  finite_vec (attention_at m pad_row i xi kn vn).
Proof.
  intros m Hd Hx Hk Hv (j0 & Hj0 & Hopen). unfold attention_at.
  apply attention_row_finite.
  - exact Hd.
  - apply Linear_out_finite; exact Hx.
  - apply map_Linear_out_finite; exact Hk.
  - apply map_Linear_out_finite; exact Hv.
  - apply Forall_forall; intros r Hr. apply in_map_iff in Hr.
    destruct Hr as (row & <- & _). rewrite Linear_out_length. simpl. lia.
  - exists j0; split; [rewrite length_map; exact Hj0 | exact Hopen].
Qed.

Lemma attention_at_length (dk d_model nh max_len : nat) (is_causal : bool) (p : MHAInit)
    (pad_row : option (list Z)) (i : nat) (xi : vec) (kn vn : mat) :
  length (attention_at (MultiHeadAttention_init dk d_model nh max_len is_causal p)
                       pad_row i xi kn vn) = d_model.
Proof. unfold attention_at, attention_row. rewrite Linear_out_length. reflexivity. Qed.

Lemma has_shape_row (N T D : nat) (x : tensor3) (n i : nat) (xi : vec) :
  has_shape N T D x -> (n < N)%nat -> nth_error (nth n x []) i = Some xi ->
  length xi = D /\ (i < T)%nat.
Proof.
  intros Hx Hn Hi. destruct (has_shape_nth _ _ _ _ n Hx Hn) as [HT Hr]. split.
  - exact (Forall_nth_error Hr Hi).
  - rewrite <- HT. apply nth_error_Some. congruence.
Qed.

Lemma finite_tensor_row (x : tensor3) (N : nat) (n i : nat) (xi : vec) :
  length x = N -> finite_tensor x -> (n < N)%nat ->
  nth_error (nth n x []) i = Some xi -> finite_vec xi.
Proof.
  intros HN Hx Hn Hi.
  assert (Hin : In (nth n x []) x) by (apply nth_In; lia).
  exact (Forall_nth_error (proj1 (Forall_forall _ _) Hx _ Hin) Hi).
Qed.

Lemma finite_tensor_nth (x : tensor3) (N : nat) (n : nat) :
  length x = N -> finite_tensor x -> (n < N)%nat -> finite_mat (nth n x []).
Proof.
  intros HN Hx Hn. apply (proj1 (Forall_forall _ _) Hx). apply nth_In. lia.
Qed.

Lemma vec_sum_length (x y : vec) : length x = length y -> length (vec_sum x y) = length x.
Proof. intros H. unfold vec_sum. rewrite length_map, length_combine. lia. Qed.

Lemma vec_sum_finite (x y : vec) : finite_vec x -> finite_vec y -> finite_vec (vec_sum x y).
Proof.
  intros Hx Hy. apply Forall_forall; intros v Hv. apply in_map_iff in Hv.
  destruct Hv as ([a b] & <- & Hab). simpl.
  destruct (proj1 (Forall_forall _ _) Hx a (in_combine_l _ _ _ _ Hab)) as [r ->].
  destruct (proj1 (Forall_forall _ _) Hy b (in_combine_r _ _ _ _ Hab)) as [s ->].
  eexists; reflexivity.
Qed.

Lemma residual_row_length (d : nat) (pl : LayerNormInit) (xi a : vec) :
  length xi = d -> length a = d -> length (residual_row (nn_LayerNorm d pl) xi a) = d.
Proof.
  intros Hx Ha. unfold residual_row.
  rewrite LayerNorm_out_length, vec_sum_length; congruence.
Qed.

Lemma residual_row_finite (d : nat) (pl : LayerNormInit) (xi a : vec) :
  (0 < d)%nat -> length xi = d -> length a = d -> finite_vec xi -> finite_vec a ->
  finite_vec (residual_row (nn_LayerNorm d pl) xi a).
Proof.
  intros Hd Hx Ha Fx Fa. unfold residual_row.
  assert (Hl : length (vec_sum xi a) = d) by (rewrite vec_sum_length; congruence).
  apply LayerNorm_out_finite.
  - simpl. exact Hl.
  - rewrite Hl; exact Hd.
  - simpl. lra.
  - apply vec_sum_finite; assumption.
Qed.

Lemma tensor_sum_per_position_l (N : nat) (x : tensor3) (F : nat -> nat -> vec -> vec) :
  length x = N ->
  tensor_sum x (per_position N x F)
  = per_position N x (fun n i xi => vec_sum xi (F n i xi)).
Proof.
  intros H.
  transitivity (tensor_sum (per_position N x (fun _ _ xi => xi)) (per_position N x F)).
  - rewrite per_position_id by exact H. reflexivity.
  - apply per_position_sum.
Qed.

Lemma has_shape_rows_of (N T D : nat) (x : tensor3) (d : nat) :
  has_shape N T D x -> D = d -> Forall (Forall (fun row => length row = d)) x.
Proof. intros H <-. exact (has_shape_rows _ _ _ _ H). Qed.

Lemma EncoderBlock_init_inv (dk d_model nh max_len : nat) (prob : R)
    (p : EncoderBlockInit) (b : EncoderBlock) :
  EncoderBlock_init dk d_model nh max_len prob p = Ok b ->
  (0 <= prob <= 1)%R /\
  b = {| enc_ln1 := nn_LayerNorm d_model (eb_ln1 p);
         enc_ln2 := nn_LayerNorm d_model (eb_ln2 p);
         enc_mha := MultiHeadAttention_init dk d_model nh max_len false (eb_mha p);
         enc_ann := {| ann_0 := nn_Linear d_model (d_model * 4) (fst (eb_ann p));
                       ann_2 := nn_Linear (d_model * 4) d_model (snd (eb_ann p));
                       ann_3 := mkDropout prob |};
         enc_dropout := mkDropout prob |}.
Proof.
  unfold EncoderBlock_init, FeedForward_init. intros H.
  inv_bind H as f Hf. inv_bind Hf as d0 Hd0. injection Hf as <-.
  inv_bind H as d1 Hd1. injection H as <-.
  destruct (nn_Dropout_inv _ _ Hd0) as [Hp ->].
  destruct (nn_Dropout_inv _ _ Hd1) as [_ ->]. split; [exact Hp | reflexivity].
Qed.

(** The feed-forward sublayer with its residual connection and normalisation,
    on a tensor given position by position. *)
Lemma feed_forward_stage (GELU : R -> R) (d_model : nat) (prob : R)
    (pf : LinearInit * LinearInit) (pl : LayerNormInit) (N T : nat) (x : tensor3)
    (F : nat -> nat -> vec -> vec) (d : Dropout) :
  let f := {| ann_0 := nn_Linear d_model (d_model * 4) (fst pf);
              ann_2 := nn_Linear (d_model * 4) d_model (snd pf);
              ann_3 := mkDropout prob |} in
  has_shape N T d_model (per_position N x F) ->
  (a <- FeedForward_forward GELU f (per_position N x F) ;;
   s <- tensor_add (per_position N x F) a ;;
   y <- LayerNorm_forward (nn_LayerNorm d_model pl) s ;;
   Ok (Dropout_forward d y))
  = Ok (per_position N x
          (fun n i xi => residual_row (nn_LayerNorm d_model pl) (F n i xi)
                                      (FeedForward_out GELU f (F n i xi)))).
Proof.
  intros f HS.
  rewrite (FeedForward_forward_ok GELU f d_model);
    [|reflexivity | reflexivity | exact (has_shape_rows _ _ _ _ HS)].
  cbn [bind]. rewrite per_position_map.
  assert (HS2 : has_shape N T d_model
                  (per_position N x (fun n i xi => FeedForward_out GELU f (F n i xi)))).
  { rewrite <- per_position_map. apply (has_shape_map N T d_model d_model); [|exact HS].
    intros row _. apply FeedForward_out_length. }
  rewrite (tensor_add_ok N T d_model _ _ HS HS2). cbn [bind].
  rewrite per_position_sum.
  rewrite LayerNorm_forward_ok.
  - cbn [bind]. rewrite per_position_map. reflexivity.
  - rewrite <- per_position_sum.
    pose proof (same_shape_Forall2 _ _ _ _ _ HS HS2) as H2.
    apply Forall_forall; intros sn Hsn. unfold tensor_sum in Hsn.
    apply in_map_iff in Hsn. destruct Hsn as ([an bn] & <- & Hab).
    apply Forall_forall; intros r Hr. unfold mat_sum in Hr.
    apply in_map_iff in Hr. destruct Hr as ([u w] & <- & Huw). simpl in *.
    destruct HS as [_ HS]. destruct HS2 as [_ HS2].
    destruct (proj1 (Forall_forall _ _) HS an (in_combine_l _ _ _ _ Hab)) as [_ Hra].
    destruct (proj1 (Forall_forall _ _) HS2 bn (in_combine_r _ _ _ _ Hab)) as [_ Hrb].
    pose proof (proj1 (Forall_forall _ _) Hra u (in_combine_l _ _ _ _ Huw)) as Hu.
    pose proof (proj1 (Forall_forall _ _) Hrb w (in_combine_r _ _ _ _ Huw)) as Hw.
    rewrite vec_sum_length; congruence.
Qed.

Lemma per_position_compose (N : nat) (x : tensor3) (F G : nat -> nat -> vec -> vec) :
  per_position N (per_position N x F) G
  = per_position N x (fun n i xi => G n i (F n i xi)).
Proof.
  unfold per_position at 1. unfold per_position at 2.
  apply map_ext_in; intros n Hn. apply in_seq in Hn.
  rewrite per_position_nth by lia.
  rewrite enumerate_map, enumerate_enumerate, !map_map. reflexivity.
Qed.

Lemma per_position_row_length (N T D : nat) (x : tensor3) (F : nat -> nat -> vec -> vec)
    (n i : nat) (xi : vec) :
  has_shape N T D (per_position N x F) -> (n < N)%nat ->
  nth_error (nth n x []) i = Some xi -> length (F n i xi) = D.
Proof.
  intros HS Hn Hi.
  assert (Hrow : nth_error (nth n (per_position N x F) []) i = Some (F n i xi)).
  { rewrite per_position_nth by exact Hn. rewrite nth_error_map.
    replace (nth_error (enumerate (nth n x [])) i) with (Some (i, xi)); [reflexivity|].
    symmetry. apply nth_error_enumerate. split; [reflexivity | exact Hi]. }
  exact (proj1 (has_shape_row _ _ _ _ _ _ _ HS Hn Hrow)).
Qed.

Lemma per_position_reshape (N T D D' : nat) (x : tensor3)
    (F G : nat -> nat -> vec -> vec) :
  has_shape N T D (per_position N x F) ->
  (forall n i xi, (n < N)%nat -> nth_error (nth n x []) i = Some xi ->
                  length (G n i xi) = D') ->
  has_shape N T D' (per_position N x G).
Proof.
  intros HS HG. split; [apply per_position_length|].
  apply Forall_forall; intros yn Hy. unfold per_position in Hy.
  apply in_map_iff in Hy. destruct Hy as (n & <- & Hn). apply in_seq in Hn.
  split.
  - rewrite length_map.
    destruct (has_shape_nth _ _ _ _ n HS) as [HT _]; [lia|].
    rewrite per_position_nth in HT by lia. rewrite length_map in HT. exact HT.
  - apply Forall_forall; intros r Hr. apply in_map_iff in Hr.
    destruct Hr as ([i xi] & <- & Hi). simpl.
    destruct (In_nth_error _ _ Hi) as [j Hj]. apply nth_error_enumerate in Hj.
    destruct Hj as [<- Hj]. simpl in *. apply HG; [lia | exact Hj].
Qed.

(** An attention sublayer with its residual connection and normalisation: the
    queries are given position by position, the keys and values are [kv]. *)
Lemma attention_stage (dk d_model nh max_len : nat) (is_causal : bool) (p : MHAInit)
    (pl : LayerNormInit) (N Tq Tk : nat) (x kv : tensor3)
    (F : nat -> nat -> vec -> vec) (pad_mask : option (list (list Z))) :
  let m := MultiHeadAttention_init dk d_model nh max_len is_causal p in
  has_shape N Tq d_model (per_position N x F) ->
  has_shape N Tk d_model kv ->
  pad_mask_fits pad_mask kv ->
  (is_causal = true -> (Tq <= max_len)%nat /\ (Tk <= max_len)%nat) ->
  (a <- MultiHeadAttention_forward m (per_position N x F) kv kv pad_mask ;;
   s <- tensor_add (per_position N x F) a ;;
   LayerNorm_forward (nn_LayerNorm d_model pl) s)
  = Ok (per_position N x
          (fun n i xi =>
             residual_row (nn_LayerNorm d_model pl) (F n i xi)
               (attention_at m (pad_row_of pad_mask n) i (F n i xi)
                             (nth n kv []) (nth n kv [])))).
Proof.
  intros m HS Hkv Hfit Hmax. unfold m.
  rewrite (MultiHeadAttention_forward_per_position dk d_model nh max_len is_causal p
             (per_position N x F) kv kv pad_mask N Tq Tk) by assumption.
  cbn [bind]. rewrite per_position_compose.
  match goal with
  | |- context [tensor_add _ (per_position N x ?G)] =>
      assert (HS2 : has_shape N Tq d_model (per_position N x G))
  end.
  { apply (per_position_reshape N Tq d_model d_model x F); [exact HS|].
    intros n i xi _ _. apply attention_at_length. }
  rewrite (tensor_add_ok N Tq d_model _ _ HS HS2). cbn [bind].
  rewrite per_position_sum.
  rewrite LayerNorm_forward_ok.
  - cbn [bind]. rewrite per_position_map. reflexivity.
  - rewrite <- per_position_sum.
    apply Forall_forall; intros sn Hsn. unfold tensor_sum in Hsn.
    apply in_map_iff in Hsn. destruct Hsn as ([an bn] & <- & Hab).
    apply Forall_forall; intros r Hr. unfold mat_sum in Hr.
    apply in_map_iff in Hr. destruct Hr as ([u w] & <- & Huw). simpl in *.
    destruct HS as [_ HS]. destruct HS2 as [_ HS2].
    destruct (proj1 (Forall_forall _ _) HS an (in_combine_l _ _ _ _ Hab)) as [_ Hra].
    destruct (proj1 (Forall_forall _ _) HS2 bn (in_combine_r _ _ _ _ Hab)) as [_ Hrb].
    pose proof (proj1 (Forall_forall _ _) Hra u (in_combine_l _ _ _ _ Huw)) as Hu.
    pose proof (proj1 (Forall_forall _ _) Hrb w (in_combine_r _ _ _ _ Huw)) as Hw.
    rewrite vec_sum_length; congruence.
Qed.

(** The residual rows keep the shape. *)
Lemma residual_stage_shape (d_model : nat) (pl : LayerNormInit) (N T : nat) (x : tensor3)
    (F A : nat -> nat -> vec -> vec) :
  has_shape N T d_model (per_position N x F) ->
  (forall n i xi, length (A n i xi) = d_model) ->
  has_shape N T d_model
    (per_position N x (fun n i xi => residual_row (nn_LayerNorm d_model pl) (F n i xi)
                                                  (A n i xi))).
Proof.
  intros HS HA.
  apply (per_position_reshape N T d_model d_model x F); [exact HS|].
  intros n i xi Hn Hi. apply residual_row_length; [|apply HA].
  exact (per_position_row_length _ _ _ _ _ _ _ _ HS Hn Hi).
Qed.

Lemma EncoderBlock_forward_rows (GELU : R -> R) (dk d_model nh max_len : nat) (prob : R)
    (p : EncoderBlockInit) (b : EncoderBlock) (x : tensor3)
    (pad_mask : option (list (list Z))) (N T : nat) :
  EncoderBlock_init dk d_model nh max_len prob p = Ok b ->
  has_shape N T d_model x -> pad_mask_fits pad_mask x ->
  EncoderBlock_forward GELU b x pad_mask
  = Ok (per_position N x
          (fun n => EncoderBlock_row GELU b (pad_row_of pad_mask n) (nth n x []))).
Proof.
  intros Hb Hx Hfit. destruct (EncoderBlock_init_inv _ _ _ _ _ _ _ Hb) as [Hp ->].
  unfold EncoderBlock_forward, EncoderBlock_row.
  cbn [enc_mha enc_ln1 enc_ln2 enc_ann enc_dropout].
  pose proof (per_position_id N x (proj1 Hx)) as Eid.
  pose proof (attention_stage dk d_model nh max_len false (eb_mha p) (eb_ln1 p)
                N T T x x (fun _ _ xi => xi) pad_mask) as Hatt.
  cbv zeta in Hatt. rewrite Eid in Hatt.
  specialize (Hatt Hx Hx Hfit (fun H => False_ind _ (Bool.diff_false_true H))).
  match type of Hatt with
  | bind ?c ?f = _ => destruct c as [a|e] eqn:Ha; [|discriminate Hatt]
  end.
  cbn [bind] in Hatt |- *.
  match type of Hatt with
  | bind ?c ?f = _ => destruct c as [s|e] eqn:Hs; [|discriminate Hatt]
  end.
  cbn [bind] in Hatt |- *. rewrite Hatt. cbn [bind].
  match goal with
  | |- context [FeedForward_forward GELU ?f (per_position N x ?F)] =>
      pose proof (feed_forward_stage GELU d_model prob (eb_ann p) (eb_ln2 p) N T x F
                                     (mkDropout prob)) as Hff
  end.
  cbv zeta in Hff. apply Hff.
  apply (residual_stage_shape d_model (eb_ln1 p) N T x (fun _ _ xi => xi)).
  - rewrite Eid; exact Hx.
  - intros n i xi. apply attention_at_length.
Qed.

(** *** The attention of the decoder-only model *)

(** The body of the loop over the heads in [CausalSelfAttention_elem]: the
    weights of [attn_weights_elem] followed by the weighted values. *)
Lemma causal_head_body (m : MultiHeadAttention) (T : nat) (pad_row : option (list Z))
    (qh kh vh : mat) :
  causal m = true ->
  (attn_scores <-
     match pad_row with
     | Some row => masked_fill [row] (scaled_scores m qh kh)
     | None => Ok (scaled_scores m qh kh)
     end ;;
   attn_scores <-
     match causal_mask m with
     | Some cm => masked_fill (firstn T (map (firstn T) cm)) attn_scores
     | None => Raise AttributeError
     end ;;
   weighted_values m (map softmax attn_scores) vh)
  = (w <- (attn_scores <-
             match pad_row with
             | Some row => masked_fill [row] (scaled_scores m qh kh)
             | None => Ok (scaled_scores m qh kh)
             end ;;
           attn_scores <-
             (if causal m
              then match causal_mask m with
                   | Some cm => masked_fill (firstn T (map (firstn T) cm)) attn_scores
                   | None => Raise AttributeError
                   end
              else Ok attn_scores) ;;
           Ok (map softmax attn_scores)) ;;
     weighted_values m w vh).
Proof.
  intros ->.
  destruct (match pad_row with
            | Some row => masked_fill [row] (scaled_scores m qh kh)
            | None => Ok (scaled_scores m qh kh)
            end) as [s1|e]; cbn [bind]; [|reflexivity].
  destruct (causal_mask m) as [cm|]; [|reflexivity].
  destruct (masked_fill (firstn T (map (firstn T) cm)) s1); reflexivity.
Qed.

Lemma CausalSelfAttention_elem_ok (dk d_model nh max_len : nat) (p : MHAInit)
    (q k v : mat) (pad_row : option (list Z)) :
  let m := DecoderOnly.CausalSelfAttention_init dk d_model nh max_len p in
  Forall (fun row => length row = (nh * dk)%nat) q ->
  Forall (fun row => length row = (nh * dk)%nat) k ->
  Forall (fun row => length row = (nh * dk)%nat) v ->
  length k = length q -> length v = length q ->
  match pad_row with Some r => length r = length q | None => True end ->
  (length q <= max_len)%nat ->
  DecoderOnly.CausalSelfAttention_elem m q k v pad_row
  = Ok (map (fun iq => attention_row m pad_row (fst iq) (snd iq) k v) (enumerate q)).
Proof.
  intros m Hq Hk Hv Hlk Hlv Hpad Hmax.
  unfold DecoderOnly.CausalSelfAttention_elem.
  rewrite Hlk, Hlv, Nat.eqb_refl. cbn [andb].
  rewrite (split_heads_ok m q) by exact Hq.
  rewrite (split_heads_ok m k) by exact Hk.
  rewrite (split_heads_ok m v) by exact Hv.
  cbn [bind]. change (n_heads m) with nh.
  rewrite !combine_map_same, mapM_map.
  mapM_to_map (fun h => map (fun iq => head_out m pad_row (fst iq) (snd iq) k v h)
                            (enumerate q)).
  - cbn [bind]. rewrite (merge_heads_rows _ q []).
    rewrite mapM_map. apply mapM_ok_ext. intros [i qi] _. cbn [fst snd].
    unfold attention_row. change (n_heads m) with nh.
    apply Linear_apply_ok.
    rewrite (length_concat_const _ _ dk) by (intros h; apply head_out_length).
    rewrite length_seq. simpl. lia.
  - intros h _. cbn [fst snd].
    rewrite causal_head_body by reflexivity.
    unfold m, DecoderOnly.CausalSelfAttention_init.
    rewrite (head_weights_ok dk d_model nh max_len true p (length q) (length q) pad_row);
      try (rewrite length_map; congruence); try assumption; [|intros _; split; exact Hmax].
    cbn [bind]. rewrite weighted_values_ok.
    + rewrite enumerate_map, !map_map. reflexivity.
    + apply Forall_forall; intros wrow Hw. apply in_map_iff in Hw.
      destruct Hw as (iq & <- & _).
      rewrite softmax_length, masked_scores_length, !length_map. congruence.
Qed.

Lemma shape1_map_map {A B : Type} (f : A -> B) (x : list (list A)) :
  shape1 (map (map f) x) = shape1 x.
Proof. destruct x; simpl; [reflexivity | apply length_map]. Qed.

Lemma view_tokens_shape1 (N T D : nat) (q x : tensor3) :
  has_shape N T D q -> length x = N -> Forall (fun xn => length xn = T) x ->
  view_tokens N (shape1 q) x = Ok x.
Proof.
  intros Hq HN HT. destruct q as [|q0 q'].
  - destruct Hq as [Hl _]. simpl in Hl. subst N. destruct x; [reflexivity | discriminate].
  - apply view_tokens_ok; [exact HN|].
    unfold shape1; simpl.
    destruct Hq as [_ Hq]. rewrite (proj1 (Forall_inv Hq)). exact HT.
Qed.

Lemma CausalSelfAttention_forward_per_position (dk d_model nh max_len : nat)
    (p : MHAInit) (q k v : tensor3) (pad_mask : option (list (list Z))) (N T : nat) :
  let m := DecoderOnly.CausalSelfAttention_init dk d_model nh max_len p in
  has_shape N T d_model q -> has_shape N T d_model k -> has_shape N T d_model v ->
  pad_mask_fits pad_mask k -> (T <= max_len)%nat ->
  DecoderOnly.CausalSelfAttention_forward m q k v pad_mask
  = Ok (per_position N q
          (fun n i xi => attention_at m (pad_row_of pad_mask n) i xi
                                      (nth n k []) (nth n v []))).
Proof.
  intros m Hq Hk Hv Hfit Hmax.
  pose proof (proj1 Hq) as HNq. pose proof (proj1 Hk) as HNk. pose proof (proj1 Hv) as HNv.
  unfold DecoderOnly.CausalSelfAttention_forward.
  rewrite (Linear_forward_ok (query m) q) by exact (has_shape_rows _ _ _ _ Hq).
  rewrite (Linear_forward_ok (key m) k) by exact (has_shape_rows _ _ _ _ Hk).
  rewrite (Linear_forward_ok (value m) v) by exact (has_shape_rows _ _ _ _ Hv).
  cbn [bind]. rewrite !length_map, HNq, shape1_map_map.
  rewrite (view_tokens_shape1 N T d_model q (map (map (Linear_out (key m))) k)); try assumption;
    [|rewrite length_map; exact HNk
     |apply Forall_forall; intros kn Hkn; apply in_map_iff in Hkn;
      destruct Hkn as (x & <- & Hx); rewrite length_map;
      exact (proj1 (Forall_forall _ _) (has_shape_lengths _ _ _ _ Hk) x Hx)].
  cbn [bind].
  rewrite (view_tokens_shape1 N T d_model q (map (map (Linear_out (value m))) v)); try assumption;
    [|rewrite length_map; exact HNv
     |apply Forall_forall; intros vn Hvn; apply in_map_iff in Hvn;
      destruct Hvn as (x & <- & Hx); rewrite length_map;
      exact (proj1 (Forall_forall _ _) (has_shape_lengths _ _ _ _ Hv) x Hx)].
  cbn [bind].
  rewrite (pad_rows_ok pad_mask k N HNk Hfit). cbn [bind].
  rewrite (combine_nth_seq (map (map (Linear_out (query m))) q)
                           (map (map (Linear_out (key m))) k) [] [])
    by (rewrite !length_map; congruence).
  rewrite length_map, HNq.
  rewrite <- (list_as_nth_seq (map (map (Linear_out (value m))) v) []).
  rewrite length_map, HNv, !combine_map_same, mapM_map.
  apply mapM_ok_ext. intros n Hn. apply in_seq in Hn. cbn [fst snd].
  destruct (has_shape_nth _ _ _ _ n Hq) as [Hlq Hrq]; [lia|].
  destruct (has_shape_nth _ _ _ _ n Hk) as [Hlk Hrk]; [lia|].
  destruct (has_shape_nth _ _ _ _ n Hv) as [Hlv Hrv]; [lia|].
  rewrite !(nth_map_lt _ _ n [] []) by lia.
  unfold m. rewrite CausalSelfAttention_elem_ok.
  - rewrite enumerate_map, map_map. reflexivity.
  - apply Forall_forall; intros row Hr. apply in_map_iff in Hr.
    destruct Hr as (x & <- & _). rewrite Linear_out_length. simpl. lia.
  - apply Forall_forall; intros row Hr. apply in_map_iff in Hr.
    destruct Hr as (x & <- & _). rewrite Linear_out_length. simpl. lia.
  - apply Forall_forall; intros row Hr. apply in_map_iff in Hr.
    destruct Hr as (x & <- & _). rewrite Linear_out_length. simpl. lia.
  - rewrite !length_map. congruence.
  - rewrite !length_map. congruence.
  - rewrite length_map, Hlq. unfold pad_row_of, pad_mask_fits in *.
    destruct pad_mask as [pm|]; simpl; [|exact I].
    assert (Hnp : (n < length pm)%nat) by (rewrite (Forall2_length Hfit); lia).
    destruct (nth_error pm n) as [r|] eqn:Hr; [|apply nth_error_None in Hr; lia].
    destruct (Forall2_nth_error_r Hfit Hr) as (kn & Hkn & Hlen).
    rewrite (nth_error_nth _ _ [] Hr), Hlen.
    rewrite <- Hlk. f_equal. symmetry. exact (nth_error_nth _ _ [] Hkn).
  - rewrite length_map, Hlq. exact Hmax.
Qed.

Lemma DecoderBlock_init_inv (dk d_model nh max_len : nat) (prob : R)
    (p : DecoderBlockInit) (b : DecoderBlock) :
  DecoderBlock_init dk d_model nh max_len prob p = Ok b ->
  (0 <= prob <= 1)%R /\
  b = {| ln1 := nn_LayerNorm d_model (db_ln1 p);
         ln2 := nn_LayerNorm d_model (db_ln2 p);
         ln3 := nn_LayerNorm d_model (db_ln3 p);
         mha1 := MultiHeadAttention_init dk d_model nh max_len true (db_mha1 p);
         mha2 := MultiHeadAttention_init dk d_model nh max_len false (db_mha2 p);
         ann := {| ann_0 := nn_Linear d_model (d_model * 4) (fst (db_ann p));
                   ann_2 := nn_Linear (d_model * 4) d_model (snd (db_ann p));
                   ann_3 := mkDropout prob |};
         dropout := mkDropout prob |}.
Proof.
  unfold DecoderBlock_init, FeedForward_init. intros H.
  inv_bind H as f Hf. inv_bind Hf as d0 Hd0. injection Hf as <-.
  inv_bind H as d1 Hd1. injection H as <-.
  destruct (nn_Dropout_inv _ _ Hd0) as [Hp ->].
  destruct (nn_Dropout_inv _ _ Hd1) as [_ ->]. split; [exact Hp | reflexivity].
Qed.

Lemma TransformerBlock_init_inv (dk d_model nh max_len : nat) (prob : R)
    (p : EncoderBlockInit) (b : DecoderOnly.TransformerBlock) :
  DecoderOnly.TransformerBlock_init dk d_model nh max_len prob p = Ok b ->
  (0 <= prob <= 1)%R /\
  b = {| DecoderOnly.ln1 := nn_LayerNorm d_model (eb_ln1 p);
         DecoderOnly.ln2 := nn_LayerNorm d_model (eb_ln2 p);
         DecoderOnly.mha := DecoderOnly.CausalSelfAttention_init dk d_model nh max_len (eb_mha p);
         DecoderOnly.ann := {| ann_0 := nn_Linear d_model (d_model * 4) (fst (eb_ann p));
                               ann_2 := nn_Linear (d_model * 4) d_model (snd (eb_ann p));
                               ann_3 := mkDropout prob |};
         DecoderOnly.dropout := mkDropout prob |}.
Proof.
  unfold DecoderOnly.TransformerBlock_init, FeedForward_init. intros H.
  inv_bind H as f Hf. inv_bind Hf as d0 Hd0. injection Hf as <-.
  inv_bind H as d1 Hd1. injection H as <-.
  destruct (nn_Dropout_inv _ _ Hd0) as [Hp ->].
  destruct (nn_Dropout_inv _ _ Hd1) as [_ ->]. split; [exact Hp | reflexivity].
Qed.

Ltac split_bind H :=
  match type of H with
  | bind ?c ?f = Ok _ =>
      let a := fresh "a" in
      let e := fresh "e" in
      let Ha := fresh "Ha" in
      destruct c as [a|e] eqn:Ha; [|discriminate H]; cbn [bind] in H |- *
  end.

Lemma DecoderBlock_forward_rows (GELU : R -> R) (dk d_model nh max_len : nat) (prob : R)
    (p : DecoderBlockInit) (b : DecoderBlock) (enc_output x : tensor3)
    (enc_mask dec_mask : option (list (list Z))) (N T Te : nat) :
  DecoderBlock_init dk d_model nh max_len prob p = Ok b ->
  has_shape N T d_model x -> has_shape N Te d_model enc_output ->
  pad_mask_fits dec_mask x -> pad_mask_fits enc_mask enc_output ->
  (T <= max_len)%nat ->
  DecoderBlock_forward GELU b enc_output x enc_mask dec_mask
  = Ok (per_position N x
          (fun n => DecoderBlock_row GELU b (pad_row_of enc_mask n) (pad_row_of dec_mask n)
                                     (nth n enc_output []) (nth n x []))).
Proof.
  intros Hb Hx He Hfd Hfe Hmax. destruct (DecoderBlock_init_inv _ _ _ _ _ _ _ Hb) as [Hp ->].
  unfold DecoderBlock_forward, DecoderBlock_row.
  cbn [mha1 mha2 ln1 ln2 ln3 ann dropout].
  pose proof (per_position_id N x (proj1 Hx)) as Eid.
  pose proof (attention_stage dk d_model nh max_len true (db_mha1 p) (db_ln1 p)
                N T T x x (fun _ _ xi => xi) dec_mask) as Hatt.
  cbv zeta in Hatt. rewrite Eid in Hatt.
  specialize (Hatt Hx Hx Hfd (fun _ => conj Hmax Hmax)).
  split_bind Hatt. split_bind Hatt. rewrite Hatt. cbn [bind].
  match goal with
  | |- context [MultiHeadAttention_forward _ (per_position N x ?F) _ _ _] =>
      pose proof (attention_stage dk d_model nh max_len false (db_mha2 p) (db_ln2 p)
                    N T Te x enc_output F enc_mask) as Hatt2;
      assert (HS1 : has_shape N T d_model (per_position N x F))
  end.
  { apply (residual_stage_shape d_model (db_ln1 p) N T x (fun _ _ xi => xi)).
    - rewrite Eid; exact Hx.
    - intros n i xi. apply attention_at_length. }
  cbv zeta in Hatt2.
  specialize (Hatt2 HS1 He Hfe (fun H => False_ind _ (Bool.diff_false_true H))).
  split_bind Hatt2. split_bind Hatt2. rewrite Hatt2. cbn [bind].
  match goal with
  | |- context [FeedForward_forward GELU ?f (per_position N x ?F)] =>
      pose proof (feed_forward_stage GELU d_model prob (db_ann p) (db_ln3 p) N T x F
                                     (mkDropout prob)) as Hff
  end.
  cbv zeta in Hff. apply Hff.
  match goal with
  | |- has_shape _ _ _ (per_position N x (fun n i xi => residual_row _ (@?F n i xi) (@?A n i xi))) =>
      apply (residual_stage_shape d_model (db_ln2 p) N T x F A)
  end.
  - exact HS1.
  - intros n i xi. apply attention_at_length.
Qed.

Lemma TransformerBlock_forward_rows (GELU : R -> R) (dk d_model nh max_len : nat)
    (prob : R) (p : EncoderBlockInit) (b : DecoderOnly.TransformerBlock) (x : tensor3)
    (pad_mask : option (list (list Z))) (N T : nat) :
  DecoderOnly.TransformerBlock_init dk d_model nh max_len prob p = Ok b ->
  has_shape N T d_model x -> pad_mask_fits pad_mask x -> (T <= max_len)%nat ->
  DecoderOnly.TransformerBlock_forward GELU b x pad_mask
  = Ok (per_position N x
          (fun n => TransformerBlock_row GELU b (pad_row_of pad_mask n) (nth n x []))).
Proof.
  intros Hb Hx Hfit Hmax. destruct (TransformerBlock_init_inv _ _ _ _ _ _ _ Hb) as [Hp ->].
  unfold DecoderOnly.TransformerBlock_forward, TransformerBlock_row.
  cbn [DecoderOnly.mha DecoderOnly.ln1 DecoderOnly.ln2 DecoderOnly.ann DecoderOnly.dropout].
  rewrite (CausalSelfAttention_forward_per_position dk d_model nh max_len (eb_mha p)
             x x x pad_mask N T) by assumption.
  cbn [bind].
  match goal with
  | |- context [tensor_add _ (per_position N x ?G)] =>
      assert (HS0 : has_shape N T d_model (per_position N x G))
  end.
  { apply (per_position_shape N T d_model d_model); [exact Hx|].
    intros n i xi _ _. apply attention_at_length. }
  rewrite (tensor_add_ok N T d_model _ _ Hx HS0). cbn [bind].
  rewrite tensor_sum_per_position_l by exact (proj1 Hx).
  match goal with
  | |- context [LayerNorm_forward _ (per_position N x ?G)] =>
      assert (HSs : has_shape N T d_model (per_position N x G))
  end.
  { apply (per_position_shape N T d_model d_model); [exact Hx|].
    intros n i xi Hn Hi. rewrite vec_sum_length.
    - exact (proj1 (has_shape_row _ _ _ _ _ _ _ Hx Hn Hi)).
    - unfold DecoderOnly.CausalSelfAttention_init. rewrite attention_at_length.
      exact (proj1 (has_shape_row _ _ _ _ _ _ _ Hx Hn Hi)). }
  rewrite LayerNorm_forward_ok by exact (has_shape_rows _ _ _ _ HSs).
  cbn [bind]. rewrite per_position_map.
  match goal with
  | |- context [FeedForward_forward GELU ?f (per_position N x ?F)] =>
      pose proof (feed_forward_stage GELU d_model prob (eb_ann p) (eb_ln2 p) N T x F
                                     (mkDropout prob)) as Hff
  end.
  cbv zeta in Hff. apply Hff.
  apply (per_position_shape N T d_model d_model); [exact Hx|].
  intros n i xi Hn Hi. rewrite LayerNorm_out_length, vec_sum_length.
  - exact (proj1 (has_shape_row _ _ _ _ _ _ _ Hx Hn Hi)).
  - unfold DecoderOnly.CausalSelfAttention_init. rewrite attention_at_length.
    exact (proj1 (has_shape_row _ _ _ _ _ _ _ Hx Hn Hi)).
Qed.

Lemma FeedForward_residual_finite (GELU : R -> R) (d_model : nat) (prob : R)
    (pf : LinearInit * LinearInit) (pl : LayerNormInit) (xi : vec) :
  (0 < d_model)%nat -> length xi = d_model -> finite_vec xi ->
  let f := {| ann_0 := nn_Linear d_model (d_model * 4) (fst pf);
              ann_2 := nn_Linear (d_model * 4) d_model (snd pf);
              ann_3 := mkDropout prob |} in
  length (residual_row (nn_LayerNorm d_model pl) xi (FeedForward_out GELU f xi)) = d_model /\
  finite_vec (residual_row (nn_LayerNorm d_model pl) xi (FeedForward_out GELU f xi)).
Proof.
  intros Hd Hl Hf f.
  assert (Hlf : length (FeedForward_out GELU f xi) = d_model)
    by apply FeedForward_out_length.
  split.
  - apply residual_row_length; assumption.
  - apply residual_row_finite; try assumption. apply FeedForward_out_finite; exact Hf.
Qed.

Lemma attention_residual_finite (dk d_model nh max_len : nat) (is_causal : bool)
    (p : MHAInit) (pl : LayerNormInit) (pad_row : option (list Z)) (i : nat)
    (xi : vec) (kn : mat) :
  (0 < dk)%nat -> (0 < d_model)%nat ->
  length xi = d_model -> finite_vec xi -> finite_mat kn ->
  (exists j, (j < length kn)%nat /\ key_open is_causal pad_row i j = true) ->
  let a := attention_at (MultiHeadAttention_init dk d_model nh max_len is_causal p)
                        pad_row i xi kn kn in
  length (residual_row (nn_LayerNorm d_model pl) xi a) = d_model /\
  finite_vec (residual_row (nn_LayerNorm d_model pl) xi a).
Proof.
  intros Hdk Hd Hl Hf Hk Hopen a.
  assert (Hla : length a = d_model) by apply attention_at_length.
  split.
  - apply residual_row_length; assumption.
  - apply residual_row_finite; try assumption.
    apply attention_at_finite; assumption.
Qed.

Lemma EncoderBlock_forward_good (GELU : R -> R) (dk d_model nh max_len : nat) (prob : R)
    (p : EncoderBlockInit) (b : EncoderBlock) (x : tensor3)
    (pad_mask : option (list (list Z))) (N T : nat) :
  (0 < dk)%nat -> (0 < d_model)%nat ->
  EncoderBlock_init dk d_model nh max_len prob p = Ok b ->
  good_tensor N T d_model x -> pad_mask_fits pad_mask x ->
  open_key_everywhere false pad_mask N T T ->
  exists y, EncoderBlock_forward GELU b x pad_mask = Ok y /\ good_tensor N T d_model y.
Proof.
  intros Hdk Hd Hb [Hx Fx] Hfit Hopen.
  eexists. split; [exact (EncoderBlock_forward_rows GELU _ _ _ _ _ _ _ _ _ N T Hb Hx Hfit)|].
  destruct (EncoderBlock_init_inv _ _ _ _ _ _ _ Hb) as [Hp ->].
  unfold EncoderBlock_row. cbn [enc_mha enc_ln1 enc_ln2 enc_ann].
  assert (Hrow : forall n i xi, (n < N)%nat -> nth_error (nth n x []) i = Some xi ->
            let x1 := residual_row (nn_LayerNorm d_model (eb_ln1 p)) xi
                        (attention_at (MultiHeadAttention_init dk d_model nh max_len false
                                         (eb_mha p))
                           (pad_row_of pad_mask n) i xi (nth n x []) (nth n x [])) in
            length x1 = d_model /\ finite_vec x1).
  { intros n i xi Hn Hi.
    destruct (has_shape_row _ _ _ _ _ _ _ Hx Hn Hi) as [Hl HiT].
    destruct (Hopen n i Hn HiT) as (j & Hj & Ho).
    apply attention_residual_finite; try assumption.
    - exact (finite_tensor_row x N n i xi (proj1 Hx) Fx Hn Hi).
    - exact (finite_tensor_nth x N n (proj1 Hx) Fx Hn).
    - exists j; split; [|exact Ho].
      rewrite (proj1 (has_shape_nth _ _ _ _ n Hx Hn)). exact Hj. }
  split.
  - apply (per_position_shape N T d_model d_model); [exact Hx|].
    intros n i xi Hn Hi. destruct (Hrow n i xi Hn Hi) as [Hl1 Hf1].
    apply FeedForward_residual_finite; assumption.
  - apply per_position_finite.
    intros n i xi Hn Hi. destruct (Hrow n i xi Hn Hi) as [Hl1 Hf1].
    apply FeedForward_residual_finite; assumption.
Qed.

Lemma DecoderBlock_forward_good (GELU : R -> R) (dk d_model nh max_len : nat) (prob : R)
    (p : DecoderBlockInit) (b : DecoderBlock) (enc_output x : tensor3)
    (enc_mask dec_mask : option (list (list Z))) (N T Te : nat) :
  (0 < dk)%nat -> (0 < d_model)%nat ->
  DecoderBlock_init dk d_model nh max_len prob p = Ok b ->
  good_tensor N T d_model x -> good_tensor N Te d_model enc_output ->
  pad_mask_fits dec_mask x -> pad_mask_fits enc_mask enc_output ->
  (T <= max_len)%nat ->
  open_key_everywhere true dec_mask N T T ->
  open_key_everywhere false enc_mask N T Te ->
  exists y, DecoderBlock_forward GELU b enc_output x enc_mask dec_mask = Ok y /\
            good_tensor N T d_model y.
Proof.
  intros Hdk Hd Hb [Hx Fx] [He Fe] Hfd Hfe Hmax Hod Hoe.
  eexists. split;
    [exact (DecoderBlock_forward_rows GELU _ _ _ _ _ _ _ _ _ _ _ N T Te Hb Hx He Hfd Hfe Hmax)|].
  destruct (DecoderBlock_init_inv _ _ _ _ _ _ _ Hb) as [Hp ->].
  unfold DecoderBlock_row. cbn [mha1 mha2 ln1 ln2 ln3 ann].
  assert (Hrow : forall n i xi, (n < N)%nat -> nth_error (nth n x []) i = Some xi ->
            let x1 := residual_row (nn_LayerNorm d_model (db_ln1 p)) xi
                        (attention_at (MultiHeadAttention_init dk d_model nh max_len true
                                         (db_mha1 p))
                           (pad_row_of dec_mask n) i xi (nth n x []) (nth n x [])) in
            let x2 := residual_row (nn_LayerNorm d_model (db_ln2 p)) x1
                        (attention_at (MultiHeadAttention_init dk d_model nh max_len false
                                         (db_mha2 p))
                           (pad_row_of enc_mask n) i x1 (nth n enc_output [])
                           (nth n enc_output [])) in
            length x2 = d_model /\ finite_vec x2).
  { intros n i xi Hn Hi.
    destruct (has_shape_row _ _ _ _ _ _ _ Hx Hn Hi) as [Hl HiT].
    destruct (Hod n i Hn HiT) as (j & Hj & Ho).
    destruct (Hoe n i Hn HiT) as (j' & Hj' & Ho').
    destruct (attention_residual_finite dk d_model nh max_len true (db_mha1 p) (db_ln1 p)
                (pad_row_of dec_mask n) i xi (nth n x [])) as [Hl1 Hf1]; try assumption.
    - exact (finite_tensor_row x N n i xi (proj1 Hx) Fx Hn Hi).
    - exact (finite_tensor_nth x N n (proj1 Hx) Fx Hn).
    - exists j; split; [|exact Ho].
      rewrite (proj1 (has_shape_nth _ _ _ _ n Hx Hn)). exact Hj.
    - apply attention_residual_finite; try assumption.
      + exact (finite_tensor_nth enc_output N n (proj1 He) Fe Hn).
      + exists j'; split; [|exact Ho'].
        rewrite (proj1 (has_shape_nth _ _ _ _ n He Hn)). exact Hj'. }
  split.
  - apply (per_position_shape N T d_model d_model); [exact Hx|].
    intros n i xi Hn Hi. destruct (Hrow n i xi Hn Hi) as [Hl1 Hf1].
    apply FeedForward_residual_finite; assumption.
  - apply per_position_finite.
    intros n i xi Hn Hi. destruct (Hrow n i xi Hn Hi) as [Hl1 Hf1].
    apply FeedForward_residual_finite; assumption.
Qed.

Lemma TransformerBlock_forward_good (GELU : R -> R) (dk d_model nh max_len : nat)
    (prob : R) (p : EncoderBlockInit) (b : DecoderOnly.TransformerBlock) (x : tensor3)
    (pad_mask : option (list (list Z))) (N T : nat) :
  (0 < dk)%nat -> (0 < d_model)%nat ->
  DecoderOnly.TransformerBlock_init dk d_model nh max_len prob p = Ok b ->
  good_tensor N T d_model x -> pad_mask_fits pad_mask x -> (T <= max_len)%nat ->
  open_key_everywhere true pad_mask N T T ->
  exists y, DecoderOnly.TransformerBlock_forward GELU b x pad_mask = Ok y /\
            good_tensor N T d_model y.
Proof.
  intros Hdk Hd Hb [Hx Fx] Hfit Hmax Hopen.
  eexists. split;
    [exact (TransformerBlock_forward_rows GELU _ _ _ _ _ _ _ _ _ N T Hb Hx Hfit Hmax)|].
  destruct (TransformerBlock_init_inv _ _ _ _ _ _ _ Hb) as [Hp ->].
  unfold TransformerBlock_row, DecoderOnly.CausalSelfAttention_init.
  cbn [DecoderOnly.mha DecoderOnly.ln1 DecoderOnly.ln2 DecoderOnly.ann].
  assert (Hrow : forall n i xi, (n < N)%nat -> nth_error (nth n x []) i = Some xi ->
            let x1 := residual_row (nn_LayerNorm d_model (eb_ln1 p)) xi
                        (attention_at (MultiHeadAttention_init dk d_model nh max_len true
                                         (eb_mha p))
                           (pad_row_of pad_mask n) i xi (nth n x []) (nth n x [])) in
            length x1 = d_model /\ finite_vec x1).
  { intros n i xi Hn Hi.
    destruct (has_shape_row _ _ _ _ _ _ _ Hx Hn Hi) as [Hl HiT].
    destruct (Hopen n i Hn HiT) as (j & Hj & Ho).
    apply attention_residual_finite; try assumption.
    - exact (finite_tensor_row x N n i xi (proj1 Hx) Fx Hn Hi).
    - exact (finite_tensor_nth x N n (proj1 Hx) Fx Hn).
    - exists j; split; [|exact Ho].
      rewrite (proj1 (has_shape_nth _ _ _ _ n Hx Hn)). exact Hj. }
  split.
  - apply (per_position_shape N T d_model d_model); [exact Hx|].
    intros n i xi Hn Hi. destruct (Hrow n i xi Hn Hi) as [Hl1 Hf1].
    apply FeedForward_residual_finite; assumption.
  - apply per_position_finite.
    intros n i xi Hn Hi. destruct (Hrow n i xi Hn Hi) as [Hl1 Hf1].
    apply FeedForward_residual_finite; assumption.
Qed.

Lemma mask_shape_fits (N T D : nat) (pad_mask : option (list (list Z))) (x : tensor3) :
  mask_shape N T pad_mask -> has_shape N T D x -> pad_mask_fits pad_mask x.
Proof.
  intros Hm Hx. destruct pad_mask as [pm|]; simpl in *; [|exact I].
  destruct Hm as [Hl Hr]. destruct Hx as [HN Hx].
  apply Forall2_of_lengths; [congruence|].
  intros row xn Hrow Hxn.
  rewrite (proj1 (Forall_forall _ _) Hr row Hrow).
  symmetry. exact (proj1 (proj1 (Forall_forall _ _) Hx xn Hxn)).
Qed.

Lemma Embedding_lookup_ok (e : Embedding) (id : Z) :
  (0 <= id < Z.of_nat (num_embeddings e))%Z ->
  Embedding_lookup e id = Ok (Embedding_row e id).
Proof.
  intros [H0 H1]. unfold Embedding_lookup.
  destruct (Z.leb_spec 0 id); [|lia]. destruct (Z.ltb_spec id (Z.of_nat (num_embeddings e))); [|lia].
  reflexivity.
Qed.

Lemma Embedding_forward_good (vocab_size d_model : nat) (w : nat -> nat -> R)
    (ids : list (list Z)) (N T : nat) :
  matrix_shape N T ids -> ids_in_vocab vocab_size ids ->
  Embedding_forward (nn_Embedding vocab_size d_model w) ids
  = Ok (map (map (Embedding_row (nn_Embedding vocab_size d_model w))) ids) /\
  good_tensor N T d_model (map (map (Embedding_row (nn_Embedding vocab_size d_model w))) ids).
Proof.
  intros [HN HT] Hv. split; [|split; [split|]].
  - unfold Embedding_forward.
    apply mapM_ok_ext; intros row Hrow. apply mapM_ok_ext; intros id Hid.
    apply Embedding_lookup_ok. simpl.
    exact (proj1 (Forall_forall _ _) (proj1 (Forall_forall _ _) Hv row Hrow) id Hid).
  - rewrite length_map; exact HN.
  - apply Forall_forall; intros xn Hxn. apply in_map_iff in Hxn.
    destruct Hxn as (row & <- & Hrow). split.
    + rewrite length_map. exact (proj1 (Forall_forall _ _) HT row Hrow).
    + apply Forall_forall; intros r Hr. apply in_map_iff in Hr.
      destruct Hr as (id & <- & _). unfold Embedding_row.
      rewrite length_map, length_seq. reflexivity.
  - apply Forall_forall; intros xn Hxn. apply in_map_iff in Hxn.
    destruct Hxn as (row & <- & Hrow).
    apply Forall_forall; intros r Hr. apply in_map_iff in Hr.
    destruct Hr as (id & <- & _). unfold Embedding_row.
    rewrite <- (map_map _ Fin). apply map_Fin_finite.
Qed.

(** *** The positional table *)

Lemma setitem_cols_shape (start w : nat) (src : list (list R)) (dw : nat)
    (dst r : list (list R)) (D : nat) :
  setitem_cols start w src dw dst = Ok r ->
  length src = length dst -> Forall (fun row => length row = D) dst ->
  length r = length dst /\ Forall (fun row => length row = D) r.
Proof.
  unfold setitem_cols.
  destruct ((w =? length (arange2 start dw)) || (w =? 1)); [|discriminate].
  intros H Hl Hd. injection H as <-. split.
  - rewrite length_map, length_combine. lia.
  - apply Forall_forall; intros row Hrow. apply in_map_iff in Hrow.
    destruct Hrow as ([s d] & <- & Hsd). simpl.
    rewrite length_map, enumerate_length.
    exact (proj1 (Forall_forall _ _) Hd d (in_combine_r _ _ _ _ Hsd)).
Qed.

Lemma PositionalEncoding_init_shape (d_model max_len : nat) (prob : R)
    (m : PositionalEncoding) :
  PositionalEncoding_init d_model max_len prob = Ok m ->
  length (pe m) = max_len /\ Forall (fun row => length row = d_model) (pe m).
Proof.
  unfold PositionalEncoding_init. intros H. inv_bind H as d Hd.
  destruct (d_model =? 0); [discriminate|].
  inv_bind H as pe1 H1. inv_bind H as pe2 H2. injection H as <-. simpl.
  destruct (setitem_cols_shape _ _ _ _ _ _ d_model H1) as [Hl1 Hr1].
  - rewrite !length_map, length_seq, repeat_length. reflexivity.
  - apply Forall_forall; intros row Hrow. apply repeat_spec in Hrow. subst row.
    apply repeat_length.
  - destruct (setitem_cols_shape _ _ _ _ _ _ d_model H2) as [Hl2 Hr2].
    + rewrite Hl1, !length_map, length_seq, repeat_length. reflexivity.
    + exact Hr1.
    + split; [|exact Hr2]. rewrite Hl2, Hl1. apply repeat_length.
Qed.

Lemma mat_sum_enumerate {A : Type} (xn : mat) (g : A -> vec) (tbl : list A) (d : A) :
  length xn = length tbl ->
  mat_sum xn (map g tbl)
  = map (fun iq => vec_sum (snd iq) (g (nth (fst iq) tbl d))) (enumerate xn).
Proof.
  intros Hl. unfold mat_sum.
  rewrite <- (list_as_nth_seq tbl d) at 1. rewrite <- Hl, map_map.
  rewrite combine_map_enumerate, map_map. reflexivity.
Qed.

Lemma PositionalEncoding_forward_good (d_model max_len : nat) (prob : R)
    (m : PositionalEncoding) (x : tensor3) (N T : nat) :
  PositionalEncoding_init d_model max_len prob = Ok m ->
  good_tensor N T d_model x -> (T <= max_len)%nat ->
  PositionalEncoding_forward m x
  = Ok (per_position N x (fun _ i xi => vec_sum xi (map Fin (nth i (pe m) [])))) /\
  good_tensor N T d_model
    (per_position N x (fun _ i xi => vec_sum xi (map Fin (nth i (pe m) [])))).
Proof.
  intros Hm [Hx Fx] Hmax.
  destruct (PositionalEncoding_init_shape _ _ _ _ Hm) as [Hlen Hrows].
  assert (Hrow : forall i, (i < max_len)%nat -> length (nth i (pe m) []) = d_model).
  { intros i Hi. apply (proj1 (Forall_forall _ _) Hrows). apply nth_In. lia. }
  split; [|split].
  - unfold PositionalEncoding_forward.
    match goal with
    | |- bind (mapM ?f x) _ = _ =>
        rewrite (mapM_ok_ext f
                   (fun xn => map (fun iq => vec_sum (snd iq) (map Fin (nth (fst iq) (pe m) [])))
                                  (enumerate xn)) x)
    end.
    + cbn [bind]. unfold Dropout_forward. f_equal. unfold per_position.
      rewrite <- (proj1 Hx). rewrite <- (list_as_nth_seq x []) at 1.
      rewrite map_map. reflexivity.
    + intros xn Hxn.
      destruct (proj1 (Forall_forall _ _) (proj2 Hx) xn Hxn) as [HT Hr].
      assert (HlT : length xn = length (firstn (length xn) (pe m)))
        by (rewrite length_firstn; lia).
      rewrite mat_add_ok.
      * rewrite (mat_sum_enumerate xn (map Fin) _ []) by exact HlT.
        f_equal. apply map_ext_in; intros [i xi] Hi. simpl.
        destruct (In_nth_error _ _ Hi) as [j Hj]. apply nth_error_enumerate in Hj.
        destruct Hj as [<- Hj]. simpl in *.
        assert (i < length xn)%nat by (apply nth_error_Some; congruence).
        rewrite nth_firstn. destruct (Nat.ltb_spec i (length xn)); [reflexivity | lia].
      * rewrite <- (map_id xn) at 1.
        apply Forall2_of_lengths; [rewrite !length_map; exact HlT|].
        intros r s Hr' Hs. rewrite map_id in Hr'. apply in_map_iff in Hs.
        destruct Hs as (row & <- & Hrow'). rewrite length_map.
        rewrite (proj1 (Forall_forall _ _) Hr r Hr').
        symmetry. apply (proj1 (Forall_forall _ _) Hrows).
        rewrite <- (firstn_skipn (length xn) (pe m)). apply in_or_app. left. exact Hrow'.
  - apply (per_position_shape N T d_model d_model); [exact Hx|].
    intros n i xi Hn Hi. destruct (has_shape_row _ _ _ _ _ _ _ Hx Hn Hi) as [Hl HiT].
    rewrite vec_sum_length; [exact Hl|]. rewrite length_map, Hrow by lia. exact Hl.
  - apply per_position_finite. intros n i xi Hn Hi.
    apply vec_sum_finite; [|apply map_Fin_finite].
    exact (finite_tensor_row x N n i xi (proj1 Hx) Fx Hn Hi).
Qed.

(** *** The stacks *)

Lemma apply_blocks_inv {B : Type} (f : B -> tensor3 -> result tensor3)
    (P : tensor3 -> Prop) (blocks : list B) (x : tensor3) :
  (forall b y, In b blocks -> P y -> exists z, f b y = Ok z /\ P z) -> P x ->
  exists z, apply_blocks f blocks x = Ok z /\ P z.
Proof.
  revert x. induction blocks as [|b blocks IH]; intros x Hf Hx; simpl.
  - exists x; split; [reflexivity | exact Hx].
  - destruct (Hf b x (or_introl eq_refl) Hx) as (z & Hz & Pz).
    rewrite Hz. cbn [bind]. apply IH; [|exact Pz].
    intros b' y Hb'. apply Hf. right; exact Hb'.
Qed.

Lemma mapM_In_inv {A B : Type} (g : A -> result B) (l : list A) (l' : list B) (b : B) :
  mapM g l = Ok l' -> In b l' -> exists a, In a l /\ g a = Ok b.
Proof.
  intros H Hb. destruct (In_nth_error _ _ Hb) as [i Hi].
  destruct (mapM_nth_error H Hi) as (a & Ha & Hg).
  exists a; split; [eapply nth_error_In; eauto | exact Hg].
Qed.

Lemma LayerNorm_forward_good (d : nat) (pl : LayerNormInit) (x : tensor3) (N T : nat) :
  (0 < d)%nat -> good_tensor N T d x ->
  exists y, LayerNorm_forward (nn_LayerNorm d pl) x = Ok y /\ good_tensor N T d y.
Proof.
  intros Hd [Hx Fx]. eexists. split; [|split].
  - apply LayerNorm_forward_ok. exact (has_shape_rows _ _ _ _ Hx).
  - apply (has_shape_map N T d d); [|exact Hx].
    intros row Hl. rewrite LayerNorm_out_length. exact Hl.
  - apply (finite_tensor_map d _ N T); try assumption.
    intros row Hl Hf. apply LayerNorm_out_finite; simpl; try assumption; try lra. lia.
Qed.

Lemma Linear_forward_good (i o : nat) (pl : LinearInit) (x : tensor3) (N T : nat) :
  good_tensor N T i x ->
  exists y, Linear_forward (nn_Linear i o pl) x = Ok y /\ good_tensor N T o y.
Proof.
  intros [Hx Fx]. eexists. split; [|split].
  - apply Linear_forward_ok. exact (has_shape_rows _ _ _ _ Hx).
  - apply (has_shape_map N T i o); [|exact Hx].
    intros row _. apply Linear_out_length.
  - apply (finite_tensor_map i _ N T); try assumption.
    intros row _ Hf. apply Linear_out_finite; exact Hf.
Qed.

Lemma Encoder_forward_good (GELU : R -> R)
    (vocab_size max_len dk d_model nh n_layers : nat) (prob : R) (p : EncoderInit)
    (m : Encoder) (ids : list (list Z)) (pad_mask : option (list (list Z))) (N T : nat) :
  Encoder_init vocab_size max_len dk d_model nh n_layers prob p = Ok m ->
  (0 < dk)%nat ->
  matrix_shape N T ids -> ids_in_vocab vocab_size ids -> (T <= max_len)%nat ->
  mask_shape N T pad_mask -> open_key_everywhere false pad_mask N T T ->
  exists y, Encoder_forward GELU m ids pad_mask = Ok y /\ good_tensor N T d_model y.
Proof.
  intros Hm Hdk Hids Hv Hmax Hmask Hopen.
  unfold Encoder_init in Hm. inv_bind Hm as pos Hpos. inv_bind Hm as blocks Hblocks.
  injection Hm as <-.
  destruct (PositionalEncoding_init_inv _ _ _ _ Hpos) as [_ Hd].
  unfold Encoder_forward.
  cbn [enc_embedding enc_pos_encoding enc_transformer_blocks enc_ln].
  destruct (Embedding_forward_good vocab_size d_model (ei_embedding p) ids N T Hids Hv)
    as [-> Hg0].
  cbn [bind].
  destruct (PositionalEncoding_forward_good d_model max_len prob pos _ N T Hpos Hg0 Hmax)
    as [-> Hg1].
  cbn [bind].
  assert (Hblk : forall b y, In b blocks -> good_tensor N T d_model y ->
            exists z, (fun block x => EncoderBlock_forward GELU block x pad_mask) b y = Ok z /\ good_tensor N T d_model z).
  { intros b y Hb Hy. destruct (mapM_In_inv _ _ _ _ Hblocks Hb) as (l & _ & Hl).
      apply (EncoderBlock_forward_good GELU dk d_model nh max_len prob (ei_blocks p l));
        try assumption.
      exact (mask_shape_fits N T d_model pad_mask y Hmask (proj1 Hy)). }
  destruct (apply_blocks_inv _ _ blocks _ Hblk Hg1) as (z & Hz' & Hz).
  cbv beta in Hz'. rewrite Hz'.
  cbn [bind]. apply LayerNorm_forward_good; assumption.
Qed.

Lemma Decoder_forward_good (GELU : R -> R)
    (vocab_size max_len dk d_model nh n_layers : nat) (prob : R) (p : DecoderInit)
    (m : Decoder) (enc_output : tensor3) (dec_input : list (list Z))
    (enc_mask dec_mask : option (list (list Z))) (N T Te : nat) :
  Decoder_init vocab_size max_len dk d_model nh n_layers prob p = Ok m ->
  (0 < dk)%nat ->
  good_tensor N Te d_model enc_output ->
  matrix_shape N T dec_input -> ids_in_vocab vocab_size dec_input -> (T <= max_len)%nat ->
  mask_shape N Te enc_mask -> mask_shape N T dec_mask ->
  open_key_everywhere true dec_mask N T T ->
  open_key_everywhere false enc_mask N T Te ->
  exists y, Decoder_forward GELU m enc_output dec_input enc_mask dec_mask = Ok y /\
            good_tensor N T vocab_size y.
Proof.
  intros Hm Hdk He Hids Hv Hmax Hme Hmd Hod Hoe.
  unfold Decoder_init in Hm. inv_bind Hm as pos Hpos. inv_bind Hm as blocks Hblocks.
  injection Hm as <-.
  destruct (PositionalEncoding_init_inv _ _ _ _ Hpos) as [_ Hd].
  unfold Decoder_forward.
  cbn [embedding pos_encoding transformer_blocks dec_ln dec_fc].
  destruct (Embedding_forward_good vocab_size d_model (di_embedding p) dec_input N T Hids Hv)
    as [-> Hg0].
  cbn [bind].
  destruct (PositionalEncoding_forward_good d_model max_len prob pos _ N T Hpos Hg0 Hmax)
    as [-> Hg1].
  cbn [bind].
  assert (Hblk : forall b y, In b blocks -> good_tensor N T d_model y ->
            exists z, (fun block x => DecoderBlock_forward GELU block enc_output x enc_mask dec_mask) b y = Ok z /\ good_tensor N T d_model z).
  { intros b y Hb Hy. destruct (mapM_In_inv _ _ _ _ Hblocks Hb) as (l & _ & Hl).
      apply (DecoderBlock_forward_good GELU dk d_model nh max_len prob (di_blocks p l)
               b enc_output y enc_mask dec_mask N T Te);
        try assumption.
      + exact (mask_shape_fits N T d_model dec_mask y Hmd (proj1 Hy)).
      + exact (mask_shape_fits N Te d_model enc_mask enc_output Hme (proj1 He)). }
  destruct (apply_blocks_inv _ _ blocks _ Hblk Hg1) as (z & Hz' & Hz).
  cbv beta in Hz'. rewrite Hz'.
  cbn [bind].
    destruct (LayerNorm_forward_good d_model (di_ln p) z N T Hd Hz) as (u & -> & Hu).
    cbn [bind]. apply Linear_forward_good; exact Hu.
Qed.

Lemma DecoderOnly_forward_good (GELU : R -> R)
    (vocab_size max_len dk d_model nh n_layers : nat) (prob : R) (p : EncoderInit)
    (p_fc : LinearInit) (m : DecoderOnly.Decoder) (ids : list (list Z))
    (pad_mask : option (list (list Z))) (N T : nat) :
  DecoderOnly.Decoder_init vocab_size max_len dk d_model nh n_layers prob p p_fc = Ok m ->
  (0 < dk)%nat ->
  matrix_shape N T ids -> ids_in_vocab vocab_size ids -> (T <= max_len)%nat ->
  mask_shape N T pad_mask -> open_key_everywhere true pad_mask N T T ->
  exists y, DecoderOnly.Decoder_forward GELU m ids pad_mask = Ok y /\
            good_tensor N T vocab_size y.
Proof.
  intros Hm Hdk Hids Hv Hmax Hmask Hopen.
  unfold DecoderOnly.Decoder_init in Hm.
  inv_bind Hm as pos Hpos. inv_bind Hm as blocks Hblocks. injection Hm as <-.
  destruct (PositionalEncoding_init_inv _ _ _ _ Hpos) as [_ Hd].
  unfold DecoderOnly.Decoder_forward.
  cbn [DecoderOnly.embedding DecoderOnly.pos_encoding DecoderOnly.transformer_blocks
       DecoderOnly.ln DecoderOnly.fc].
  destruct (Embedding_forward_good vocab_size d_model (ei_embedding p) ids N T Hids Hv)
    as [-> Hg0].
  cbn [bind].
  destruct (PositionalEncoding_forward_good d_model max_len prob pos _ N T Hpos Hg0 Hmax)
    as [-> Hg1].
  cbn [bind].
  assert (Hblk : forall b y, In b blocks -> good_tensor N T d_model y ->
            exists z, (fun block x => DecoderOnly.TransformerBlock_forward GELU block x pad_mask) b y = Ok z /\ good_tensor N T d_model z).
  { intros b y Hb Hy. destruct (mapM_In_inv _ _ _ _ Hblocks Hb) as (l & _ & Hl).
      apply (TransformerBlock_forward_good GELU dk d_model nh max_len prob (ei_blocks p l));
        try assumption.
      exact (mask_shape_fits N T d_model pad_mask y Hmask (proj1 Hy)). }
  destruct (apply_blocks_inv _ _ blocks _ Hblk Hg1) as (z & Hz' & Hz).
  cbv beta in Hz'. rewrite Hz'.
  cbn [bind].
    destruct (LayerNorm_forward_good d_model (ei_ln p) z N T Hd Hz) as (u & -> & Hu).
    cbn [bind]. apply Linear_forward_good; exact Hu.
Qed.

(** ** Keys that the causal mask closes do not count *)











Lemma masked_scores_ext_pad (m : MultiHeadAttention) (pad_row pad_row' : option (list Z))
    (i : nat) (qih : vec) (kh : mat) :
  (forall j, (j < length kh)%nat -> pad_open pad_row j = pad_open pad_row' j) ->
  masked_scores m pad_row i qih kh = masked_scores m pad_row' i qih kh.
Proof.
  intros H. unfold masked_scores. apply map_ext_in; intros [j kj] Hj. simpl.
  destruct (In_nth_error _ _ Hj) as [n Hn]. apply nth_error_enumerate in Hn.
  destruct Hn as [<- Hn]. simpl in *.
  unfold key_open. rewrite (H j); [reflexivity|].
  apply nth_error_Some. congruence.
Qed.




Lemma attention_row_ext_pad (m : MultiHeadAttention) (pad_row pad_row' : option (list Z))
    (i : nat) (qi : vec) (k v : mat) :
  (forall j, (j < length k)%nat -> pad_open pad_row j = pad_open pad_row' j) ->
  attention_row m pad_row i qi k v = attention_row m pad_row' i qi k v.
Proof.
  intros H. unfold attention_row. f_equal. f_equal.
  apply map_ext; intros h. unfold head_out.
  rewrite (masked_scores_ext_pad m pad_row pad_row');
    [reflexivity | rewrite length_map; exact H].
Qed.



Lemma truncate_nth {A : Type} (t : nat) (x : list (list A)) (n : nat) :
  nth n (truncate t x) [] = firstn t (nth n x []).
Proof.
  unfold truncate. destruct (Nat.lt_ge_cases n (length x)) as [H|H].
  - apply nth_map_lt. exact H.
  - rewrite !nth_overflow by (try rewrite length_map; exact H).
    symmetry. apply firstn_nil.
Qed.


Lemma truncate_shape (N T D t : nat) (x : tensor3) :
  has_shape N T D x -> (t <= T)%nat -> has_shape N t D (truncate t x).
Proof.
  intros [HN Hx] Ht. split; [unfold truncate; rewrite length_map; exact HN|].
  apply Forall_forall; intros yn Hy. unfold truncate in Hy. apply in_map_iff in Hy.
  destruct Hy as (xn & <- & Hxn).
  destruct (proj1 (Forall_forall _ _) Hx xn Hxn) as [HT Hr]. split.
  - rewrite length_firstn; lia.
  - apply Forall_forall; intros r Hrr. apply (proj1 (Forall_forall _ _) Hr).
    rewrite <- (firstn_skipn t xn). apply in_or_app; left; exact Hrr.
Qed.



Lemma pad_row_of_truncate (t : nat) (pad_mask : option (list (list Z))) (n : nat) :
  pad_row_of (option_map (truncate t) pad_mask) n
  = option_map (firstn t) (pad_row_of pad_mask n).
Proof.
  destruct pad_mask as [pm|]; simpl; [|reflexivity]. rewrite truncate_nth. reflexivity.
Qed.

Lemma open_key_truncate (pad_mask : option (list (list Z))) (N T t : nat) :
  open_key_everywhere true pad_mask N T T -> (t <= T)%nat ->
  open_key_everywhere true (option_map (truncate t) pad_mask) N t t.
Proof.
  intros H Ht n i Hn Hi. destruct (H n i Hn) as (j & Hj & Ho); [lia|].
  unfold key_open, causal_open in Ho. simpl in Ho.
  apply andb_true_iff in Ho. destruct Ho as [Hp Hc]. apply Nat.leb_le in Hc.
  exists j; split; [lia|].
  unfold key_open, causal_open. simpl. apply andb_true_iff; split; [|apply Nat.leb_le; lia].
  rewrite pad_row_of_truncate.
  destruct (pad_row_of pad_mask n) as [r|]; simpl in *; [|reflexivity].
  rewrite nth_firstn. destruct (Nat.ltb_spec j t); [exact Hp | lia].
Qed.

Lemma truncate_finite (t : nat) (x : tensor3) : finite_tensor x -> finite_tensor (truncate t x).
Proof.
  intros H. apply Forall_forall; intros yn Hy. unfold truncate in Hy.
  apply in_map_iff in Hy. destruct Hy as (xn & <- & Hxn).
  apply Forall_forall; intros r Hr.
  apply (proj1 (Forall_forall _ _) (proj1 (Forall_forall _ _) H xn Hxn)).
  rewrite <- (firstn_skipn t xn). apply in_or_app; left; exact Hr.
Qed.



Lemma truncate_good (N T D t : nat) (x : tensor3) :
  good_tensor N T D x -> (t <= T)%nat -> good_tensor N t D (truncate t x).
Proof.
  intros [Hx Fx] Ht. split; [apply truncate_shape with (T := T) | apply truncate_finite];
    assumption.
Qed.




Lemma open_key_cross_truncate (enc_mask : option (list (list Z))) (N T Te t : nat) :
  open_key_everywhere false enc_mask N T Te -> (t <= T)%nat ->
  open_key_everywhere false enc_mask N t Te.
Proof. intros H Ht n i Hn Hi. apply H; lia. Qed.



(** ** Keys that the padding mask closes do not count *)
















(** ** Masks that leave every query position an open key *)

Lemma open_key_no_mask (c : bool) (N T : nat) : open_key_everywhere c None N T T.
Proof.
  intros n i Hn Hi. exists i. split; [exact Hi|].
  unfold key_open, causal_open. simpl. rewrite Nat.leb_refl. apply orb_true_r.
Qed.

Lemma nth_pad_row (pm : list (list Z)) (N T n : nat) :
  matrix_shape N T pm -> (n < N)%nat -> In (nth n pm []) pm /\ length (nth n pm []) = T.
Proof.
  intros [HN HT] Hn.
  assert (Hin : In (nth n pm []) pm) by (apply nth_In; lia).
  split; [exact Hin | exact (proj1 (Forall_forall _ _) HT _ Hin)].
Qed.

Lemma open_key_rows_have_open (pm : list (list Z)) (N Tq T : nat) :
  matrix_shape N T pm -> rows_have_open pm ->
  open_key_everywhere false (Some pm) N Tq T.
Proof.
  intros Hs Ho n i Hn Hi. destruct (nth_pad_row pm N T n Hs Hn) as [Hin Hl].
  pose proof (proj1 (Forall_forall _ _) Ho _ Hin) as He.
  apply Exists_exists in He. destruct He as (z & Hz & Hnz).
  destruct (In_nth_error _ _ Hz) as [j Hj].
  exists j. split.
  - rewrite <- Hl. apply nth_error_Some. congruence.
  - unfold key_open, pad_open, causal_open. simpl.
    rewrite (nth_error_nth _ _ 0%Z Hj).
    destruct (Z.eqb_spec z 0); [contradiction | reflexivity].
Qed.

Lemma open_key_rows_start_open (pm : list (list Z)) (N T : nat) :
  matrix_shape N T pm -> rows_start_open pm ->
  open_key_everywhere true (Some pm) N T T.
Proof.
  intros Hs Ho n i Hn Hi. destruct (nth_pad_row pm N T n Hs Hn) as [Hin Hl].
  pose proof (proj1 (Forall_forall _ _) Ho _ Hin) as Hh.
  exists 0%nat. split; [lia|].
  unfold key_open, pad_open, causal_open. simpl.
  destruct (nth n pm []) as [|z r]; simpl in *; [lia|].
  destruct (Z.eqb_spec z 0); [contradiction | reflexivity].
Qed.

Lemma ones_like_shape (row : list Z) : matrix_shape 1 (length row) (ones_like [row]).
Proof.
  split; [reflexivity|]. repeat constructor. apply repeat_length.
Qed.

Lemma ones_like_start_open (row : list Z) : row <> [] -> rows_start_open (ones_like [row]).
Proof.
  intros Hne. destruct row as [|z r]; [contradiction|].
  repeat constructor. simpl. discriminate.
Qed.

(** ** The arg-max is a position of the row *)

Lemma argmax_from_bound (best_i : nat) (best : val) (i : nat) (l : list val) :
  (best_i < i)%nat -> (argmax_from best_i best i l < i + length l)%nat.
Proof.
  revert best_i best i. induction l as [|x l IH]; intros best_i best i Hlt; simpl; [lia|].
  destruct (beats x best).
  - specialize (IH i x (S i)). lia.
  - specialize (IH best_i best (S i)). lia.
Qed.

Lemma argmax_total (l : vec) :
  l <> [] -> exists p, argmax l = Ok p /\ (p < length l)%nat.
Proof.
  destruct l as [|x l]; [contradiction|]. intros _. simpl.
  eexists; split; [reflexivity|].
  pose proof (argmax_from_bound 0 x 1 l). lia.
Qed.

Section GreedyLoopTotal.

Variable call : list (list Z) -> list (list Z) -> result tensor3.
Variable eos : Z.
Variable vocab_size : nat.

Lemma greedy_step_total (row : list Z) (mask : list (list Z)) (y : tensor3) :
  call [row] mask = Ok y -> good_tensor 1 (length row) vocab_size y ->
  (0 < length row)%nat -> (0 < vocab_size)%nat ->
  exists p, (p < vocab_size)%nat /\
    greedy_step call eos ([row], mask)
    = Ok (([row ++ [Z.of_nat p]], ones_like [row ++ [Z.of_nat p]]),
          (Z.of_nat p =? eos)%Z).
Proof.
  intros Hcall [[HN Hy] _] HL Hv.
  destruct y as [|yn [|? ?]]; try discriminate HN.
  destruct (Forall_inv Hy) as [HT Hrows].
  destruct (rev yn) as [|last rest] eqn:Hrev.
  { apply (f_equal (@length _)) in Hrev. rewrite length_rev in Hrev. simpl in Hrev. lia. }
  assert (Hlast : length last = vocab_size).
  { apply (proj1 (Forall_forall _ _) Hrows). apply in_rev. rewrite Hrev. left; reflexivity. }
  destruct (argmax_total last) as (p & Hp & Hpl).
  { intros ->. simpl in Hlast. lia. }
  exists p. split; [lia|].
  unfold greedy_step. cbn [fst snd]. rewrite Hcall. cbn [bind].
  unfold predict, last_position. cbn [mapM]. rewrite Hrev. cbn [bind mapM].
  rewrite Hp. cbn [bind]. reflexivity.
Qed.

Variable max_len : nat.

(** The calls of the model succeed on every sequence of at most [max_len]
    ids of the vocabulary under a mask of its shape that opens the first
    position, and give one row of logits per position. *)
Hypothesis call_total :
  forall (row : list Z) (mask : list (list Z)),
    (0 < length row <= max_len)%nat -> ids_in_vocab vocab_size [row] ->
    matrix_shape 1 (length row) mask -> rows_start_open mask ->
    exists y, call [row] mask = Ok y /\ good_tensor 1 (length row) vocab_size y.

Lemma greedy_loop_total (n : nat) (row : list Z) (mask : list (list Z)) :
  (0 < vocab_size)%nat -> (0 < length row)%nat -> (length row + n <= max_len + 1)%nat ->
  ids_in_vocab vocab_size [row] ->
  matrix_shape 1 (length row) mask -> rows_start_open mask ->
  exists gen mask',
    greedy_loop call eos n ([row], mask) = Ok ([row ++ gen], mask') /\
    ids_in_vocab vocab_size [gen].
Proof.
  intros Hv. revert row mask.
  induction n as [|n IH]; intros row mask HL Hn Hrow Hms Hmo.
  - exists [], mask. simpl. rewrite app_nil_r. split; [reflexivity|].
    repeat constructor.
  - destruct (call_total row mask) as (y & Hy & Hgy); try assumption; [lia|].
    destruct (greedy_step_total row mask y Hy Hgy HL Hv) as (p & Hp & Hstep).
    cbn [greedy_loop]. rewrite Hstep. cbn [bind fst snd].
    assert (Hpv : ids_in_vocab vocab_size [[Z.of_nat p]]).
    { repeat constructor; lia. }
    destruct (Z.of_nat p =? eos)%Z.
    + exists [Z.of_nat p], (ones_like [row ++ [Z.of_nat p]]).
      split; [reflexivity | exact Hpv].
    + destruct (IH (row ++ [Z.of_nat p]) (ones_like [row ++ [Z.of_nat p]]))
        as (gen & mask' & Hloop & Hgen).
      * rewrite length_app; simpl; lia.
      * rewrite length_app; simpl; lia.
      * constructor; [|constructor]. apply Forall_app; split.
        -- exact (Forall_inv Hrow).
        -- exact (Forall_inv Hpv).
      * apply ones_like_shape.
      * apply ones_like_start_open. destruct row; discriminate.
      * exists (Z.of_nat p :: gen), mask'. split.
        -- rewrite Hloop. rewrite <- app_assoc. reflexivity.
        -- constructor; [|constructor]. constructor.
           ++ exact (Forall_inv (Forall_inv Hpv)).
           ++ exact (Forall_inv Hgen).
Qed.

End GreedyLoopTotal.

(** ** The inputs of the training loops, row by row *)

Lemma roll_row_forwards {A : Type} (row : list A) (a : A) :
  roll_row 1 (row ++ [a]) = a :: row.
Proof.
  unfold roll_row. rewrite length_app. simpl length. rewrite Nat.add_1_r.
  destruct (length row) as [|n] eqn:Hn.
  - destruct row; [reflexivity | discriminate].
  - assert (Hs : Z.to_nat (1 mod Z.of_nat (S (S n))) = 1%nat).
    { rewrite Z.mod_small by lia. reflexivity. }
    rewrite Hs.
    replace (S (S n) - 1)%nat with (length row) by lia.
    rewrite skipn_app, firstn_app, skipn_all, firstn_all, Nat.sub_diag. simpl.
    rewrite app_nil_r. reflexivity.
Qed.

Lemma roll_row_backwards {A : Type} (row : list A) (a : A) :
  roll_row (-1) (a :: row) = row ++ [a].
Proof.
  unfold roll_row. simpl length.
  assert (Hs : Z.to_nat (-1 mod Z.of_nat (S (length row))) = length row).
  { replace (-1)%Z with (Z.of_nat (length row) + (-1) * Z.of_nat (S (length row)))%Z by lia.
    rewrite Z.mod_add by lia. rewrite Z.mod_small by lia. apply Nat2Z.id. }
  rewrite Hs. replace (S (length row) - length row)%nat with 1%nat by lia.
  reflexivity.
Qed.

Lemma masked_fill_where_eq (c v : Z) (x : list (list Z)) :
  masked_fill_where (eq_scalar c x) v x
  = map (map (fun z => if (z =? c)%Z then v else z)) x.
Proof.
  unfold masked_fill_where, eq_scalar.
  rewrite <- (map_id x) at 2. rewrite combine_map_same, map_map.
  apply map_ext; intros row. simpl.
  rewrite <- (map_id row) at 2. rewrite combine_map_same, map_map. reflexivity.
Qed.

Lemma masked_fill_where_ones (c : Z) (x : list (list Z)) :
  masked_fill_where (eq_scalar c x) 0 (ones_like x)
  = map (map (fun z => if (z =? c)%Z then 0%Z else 1%Z)) x.
Proof.
  unfold masked_fill_where, eq_scalar, ones_like.
  rewrite combine_map_same, map_map. apply map_ext; intros row. simpl.
  rewrite repeat_map_seq.
  rewrite <- (list_as_nth_seq row 0%Z) at 1 3.
  rewrite map_map, combine_map_same, !map_map. reflexivity.
Qed.

Lemma mapM_ok_map {A B : Type} (f : A -> result B) (g : A -> B) (l : list A) :
  Forall (fun x => f x = Ok (g x)) l -> mapM f l = Ok (map g l).
Proof.
  intros H. apply mapM_ok_ext. intros x Hx. exact (proj1 (Forall_forall _ _) H x Hx).
Qed.

Lemma setitem_col_empty_row (j v : Z) (x : list (list Z)) :
  In [] x -> setitem_col j v x = Raise IndexError.
Proof.
  intros Hin. unfold setitem_col. apply mapM_Raise_In.
  - intros row e. simpl.
    destruct ((0 <=? (if (j <? 0)%Z then Z.of_nat (length row) + j else j))%Z &&
              ((if (j <? 0)%Z then Z.of_nat (length row) + j else j) <? Z.of_nat (length row))%Z);
      [discriminate | intros H; injection H as <-; reflexivity].
  - exists []. split; [exact Hin|]. simpl.
    repeat match goal with
           | |- context [Z.leb ?a ?b] => destruct (Z.leb_spec a b)
           | |- context [Z.ltb ?a ?b] => destruct (Z.ltb_spec a b)
           end; simpl; try reflexivity; lia.
Qed.

Lemma roll_row_nil {A : Type} (shifts : Z) : roll_row shifts (@nil A) = [].
Proof. reflexivity. Qed.

Lemma In_nil_roll {A : Type} (shifts : Z) (x : list (list A)) :
  In [] x -> In [] (roll shifts x).
Proof.
  intros H. unfold roll. apply in_map_iff. exists []. split; [reflexivity | exact H].
Qed.

(** The decoder input of a batch of labels: every row is the row of labels
    shifted by one position to the right, with the start id in front, without
    its last label, and with the pad id in place of the label padding -100. *)
Lemma train_dec_input_rows (pad_token_id : Z) (targets : list (list Z)) :
  Forall (fun row => row <> []) targets ->
  train_dec_input pad_token_id targets
  = Ok (map (fun row =>
               start_id :: map (fun z => if (z =? -100)%Z then pad_token_id else z)
                               (removelast row))
            targets).
Proof.
  intros Hne. unfold train_dec_input, roll, setitem_col.
  rewrite (mapM_ok_map _ (fun r => start_id :: tl r)).
  - cbn [bind]. rewrite masked_fill_where_eq, !map_map. f_equal.
    apply map_ext_in; intros row Hrow.
    pose proof (proj1 (Forall_forall _ _) Hne row Hrow) as Hr.
    rewrite (app_removelast_last 0%Z Hr) at 1. rewrite roll_row_forwards.
    reflexivity.
  - apply Forall_forall; intros r Hr. apply in_map_iff in Hr.
    destruct Hr as (row & <- & Hrow).
    pose proof (proj1 (Forall_forall _ _) Hne row Hrow) as Hn.
    rewrite (app_removelast_last 0%Z Hn). rewrite roll_row_forwards. reflexivity.
Qed.

Lemma train_dec_input_empty_row (pad_token_id : Z) (targets : list (list Z)) :
  In [] targets -> train_dec_input pad_token_id targets = Raise IndexError.
Proof.
  intros Hin. unfold train_dec_input.
  rewrite setitem_col_empty_row by (apply In_nil_roll; exact Hin). reflexivity.
Qed.

Lemma train_targets_rows (pad_token_id : Z) (input_ids : list (list Z)) :
  Forall (fun row => row <> []) input_ids ->
  train_targets pad_token_id input_ids
  = Ok (map (fun row => tl row ++ [pad_token_id]) input_ids).
Proof.
  intros Hne. unfold train_targets, roll, setitem_col. rewrite mapM_map.
  apply mapM_ok_map. apply Forall_forall; intros row Hrow.
  pose proof (proj1 (Forall_forall _ _) Hne row Hrow) as Hn.
  destruct row as [|a row]; [contradiction|].
  rewrite roll_row_backwards. cbn [tl].
  rewrite length_app. simpl length.
  replace (if (-1 <? 0)%Z then Z.of_nat (length row + 1) + -1 else -1)%Z
    with (Z.of_nat (length row)) by (simpl; lia).
  destruct (Z.leb_spec 0 (Z.of_nat (length row))); [|lia].
  destruct (Z.ltb_spec (Z.of_nat (length row)) (Z.of_nat (length row + 1))); [|lia].
  simpl andb. cbv iota. rewrite Nat2Z.id.
  rewrite firstn_app, firstn_all, Nat.sub_diag. simpl firstn. rewrite app_nil_r.
  rewrite skipn_all2 by (rewrite length_app; simpl; lia). reflexivity.
Qed.

Lemma train_targets_empty_row (pad_token_id : Z) (input_ids : list (list Z)) :
  In [] input_ids -> train_targets pad_token_id input_ids = Raise IndexError.
Proof.
  intros Hin. unfold train_targets.
  apply setitem_col_empty_row. apply In_nil_roll. exact Hin.
Qed.

(** ** Sequences longer than the positional table *)

Lemma broadcast2_mismatch {A B : Type} (xs : list A) (ys : list B) :
  length xs <> length ys -> (2 <= length xs)%nat -> (2 <= length ys)%nat ->
  broadcast2 xs ys = Raise ShapeError.
Proof.
  intros Hne Hx Hy. unfold broadcast2.
  destruct (Nat.eqb_spec (length xs) (length ys)); [contradiction|].
  destruct xs as [|x [|x' xs]]; simpl in Hx; try lia.
  destruct ys as [|y [|y' ys]]; simpl in Hy; try lia. reflexivity.
Qed.

Lemma PositionalEncoding_forward_too_long (d_model max_len : nat) (prob : R)
    (m : PositionalEncoding) (x : tensor3) (N T D : nat) :
  PositionalEncoding_init d_model max_len prob = Ok m ->
  has_shape N T D x -> (0 < N)%nat -> (2 <= max_len)%nat -> (max_len < T)%nat ->
  PositionalEncoding_forward m x = Raise ShapeError.
Proof.
  intros Hm [HN Hx] HN0 H2 HT.
  destruct (PositionalEncoding_init_shape _ _ _ _ Hm) as [Hlen _].
  unfold PositionalEncoding_forward.
  destruct x as [|xn x]; [simpl in HN; lia|].
  destruct (Forall_inv Hx) as [HlT _].
  cbn [mapM]. unfold mat_add at 1.
  rewrite broadcast2_mismatch; [reflexivity | | lia |];
    rewrite !length_map, length_firstn; lia.
Qed.

Lemma Encoder_forward_too_long (GELU : R -> R)
    (vocab_size max_len dk d_model nh n_layers : nat) (prob : R) (p : EncoderInit)
    (m : Encoder) (ids : list (list Z)) (pad_mask : option (list (list Z))) (N T : nat) :
  Encoder_init vocab_size max_len dk d_model nh n_layers prob p = Ok m ->
  matrix_shape N T ids -> ids_in_vocab vocab_size ids -> (0 < N)%nat ->
  (2 <= max_len)%nat -> (max_len < T)%nat ->
  Encoder_forward GELU m ids pad_mask = Raise ShapeError.
Proof.
  intros Hm Hids Hv HN H2 HT.
  unfold Encoder_init in Hm. inv_bind Hm as pos Hpos. inv_bind Hm as blocks Hblocks.
  injection Hm as <-.
  unfold Encoder_forward. cbn [enc_embedding enc_pos_encoding].
  destruct (Embedding_forward_good vocab_size d_model (ei_embedding p) ids N T Hids Hv)
    as [-> [Hs _]].
  cbn [bind].
  rewrite (PositionalEncoding_forward_too_long d_model max_len prob pos _ N T d_model
             Hpos Hs HN H2 HT).
  reflexivity.
Qed.

Lemma Decoder_forward_too_long (GELU : R -> R)
    (vocab_size max_len dk d_model nh n_layers : nat) (prob : R) (p : DecoderInit)
    (m : Decoder) (enc_output : tensor3) (dec_input : list (list Z))
    (enc_mask dec_mask : option (list (list Z))) (N T : nat) :
  Decoder_init vocab_size max_len dk d_model nh n_layers prob p = Ok m ->
  matrix_shape N T dec_input -> ids_in_vocab vocab_size dec_input -> (0 < N)%nat ->
  (2 <= max_len)%nat -> (max_len < T)%nat ->
  Decoder_forward GELU m enc_output dec_input enc_mask dec_mask = Raise ShapeError.
Proof.
  intros Hm Hids Hv HN H2 HT.
  unfold Decoder_init in Hm. inv_bind Hm as pos Hpos. inv_bind Hm as blocks Hblocks.
  injection Hm as <-.
  unfold Decoder_forward. cbn [embedding pos_encoding].
  destruct (Embedding_forward_good vocab_size d_model (di_embedding p) dec_input N T Hids Hv)
    as [-> [Hs _]].
  cbn [bind].
  rewrite (PositionalEncoding_forward_too_long d_model max_len prob pos _ N T d_model
             Hpos Hs HN H2 HT).
  reflexivity.
Qed.

Lemma DecoderOnly_forward_too_long (GELU : R -> R)
    (vocab_size max_len dk d_model nh n_layers : nat) (prob : R) (p : EncoderInit)
    (p_fc : LinearInit) (m : DecoderOnly.Decoder) (ids : list (list Z))
    (pad_mask : option (list (list Z))) (N T : nat) :
  DecoderOnly.Decoder_init vocab_size max_len dk d_model nh n_layers prob p p_fc = Ok m ->
  matrix_shape N T ids -> ids_in_vocab vocab_size ids -> (0 < N)%nat ->
  (2 <= max_len)%nat -> (max_len < T)%nat ->
  DecoderOnly.Decoder_forward GELU m ids pad_mask = Raise ShapeError.
Proof.
  intros Hm Hids Hv HN H2 HT.
  unfold DecoderOnly.Decoder_init in Hm.
  inv_bind Hm as pos Hpos. inv_bind Hm as blocks Hblocks. injection Hm as <-.
  unfold DecoderOnly.Decoder_forward.
  cbn [DecoderOnly.embedding DecoderOnly.pos_encoding].
  destruct (Embedding_forward_good vocab_size d_model (ei_embedding p) ids N T Hids Hv)
    as [-> [Hs _]].
  cbn [bind].
  rewrite (PositionalEncoding_forward_too_long d_model max_len prob pos _ N T d_model
             Hpos Hs HN H2 HT).
  reflexivity.
Qed.

(** ** A generation loop whose first call raises *)

Lemma greedy_loop_first_call_raises
    (call : list (list Z) -> list (list Z) -> result tensor3) (eos : Z) (n : nat)
    (st : gen_state) (e : exn) :
  call (fst st) (snd st) = Raise e -> greedy_loop call eos (S n) st = Raise e.
Proof.
  intros H. cbn [greedy_loop]. unfold greedy_step. rewrite H. reflexivity.
Qed.

(** ** What the constructors return *)

Lemma valid_probability_true (p : R) : valid_probability p = true <-> (0 <= p <= 1)%R.
Proof.
  unfold valid_probability.
  destruct (Rle_dec 0 p), (Rle_dec p 1); split; intros H;
    try discriminate; try reflexivity; try (split; assumption); destruct H; contradiction.
Qed.

Lemma nn_Dropout_invalid (p : R) :
  valid_probability p = false -> nn_Dropout p = Raise ValueError.
Proof.
  unfold valid_probability, nn_Dropout.
  destruct (Rle_dec 0 p), (Rle_dec p 1); intros H; try discriminate; reflexivity.
Qed.

Lemma FeedForward_init_valid (d_model : nat) (prob : R) (p : LinearInit * LinearInit) :
  (0 <= prob <= 1)%R ->
  FeedForward_init d_model prob p = Ok (built_FeedForward d_model prob p).
Proof.
  intros Hp. unfold FeedForward_init. rewrite (nn_Dropout_valid prob Hp). reflexivity.
Qed.

Lemma EncoderBlock_init_valid (dk d_model nh max_len : nat) (prob : R)
    (p : EncoderBlockInit) :
  (0 <= prob <= 1)%R ->
  EncoderBlock_init dk d_model nh max_len prob p
  = Ok (built_EncoderBlock dk d_model nh max_len prob p).
Proof.
  intros Hp. unfold EncoderBlock_init.
  rewrite (FeedForward_init_valid _ _ _ Hp), (nn_Dropout_valid prob Hp). reflexivity.
Qed.

Lemma DecoderBlock_init_valid (dk d_model nh max_len : nat) (prob : R)
    (p : DecoderBlockInit) :
  (0 <= prob <= 1)%R ->
  DecoderBlock_init dk d_model nh max_len prob p
  = Ok (built_DecoderBlock dk d_model nh max_len prob p).
Proof.
  intros Hp. unfold DecoderBlock_init.
  rewrite (FeedForward_init_valid _ _ _ Hp), (nn_Dropout_valid prob Hp). reflexivity.
Qed.

Lemma TransformerBlock_init_valid (dk d_model nh max_len : nat) (prob : R)
    (p : EncoderBlockInit) :
  (0 <= prob <= 1)%R ->
  DecoderOnly.TransformerBlock_init dk d_model nh max_len prob p
  = Ok (built_TransformerBlock dk d_model nh max_len prob p).
Proof.
  intros Hp. unfold DecoderOnly.TransformerBlock_init.
  rewrite (FeedForward_init_valid _ _ _ Hp), (nn_Dropout_valid prob Hp). reflexivity.
Qed.

Lemma mapM_ok_all {A B : Type} (f : A -> result B) (g : A -> B) (l : list A) :
  (forall x, f x = Ok (g x)) -> mapM f l = Ok (map g l).
Proof.
  intros H. apply mapM_ok_map. apply Forall_forall. intros x _. apply H.
Qed.

Lemma built_Encoder_ok (vocab_size max_len dk d_model nh n_layers : nat) (prob : R)
    (p : EncoderInit) :
  (0 <= prob <= 1)%R -> Nat.even d_model = true -> (0 < d_model)%nat ->
  Encoder_init vocab_size max_len dk d_model nh n_layers prob p
  = Ok (built_Encoder vocab_size max_len dk d_model nh n_layers prob p).
Proof.
  intros Hp He Hd. unfold Encoder_init.
  rewrite (PositionalEncoding_init_even d_model max_len prob Hp He Hd). cbn [bind].
  rewrite (mapM_ok_all _ (fun l => built_EncoderBlock dk d_model nh max_len prob
                                                      (ei_blocks p l)))
    by (intros l; apply EncoderBlock_init_valid; exact Hp).
  reflexivity.
Qed.

Lemma built_Decoder_ok (vocab_size max_len dk d_model nh n_layers : nat) (prob : R)
    (p : DecoderInit) :
  (0 <= prob <= 1)%R -> Nat.even d_model = true -> (0 < d_model)%nat ->
  Decoder_init vocab_size max_len dk d_model nh n_layers prob p
  = Ok (built_Decoder vocab_size max_len dk d_model nh n_layers prob p).
Proof.
  intros Hp He Hd. unfold Decoder_init.
  rewrite (PositionalEncoding_init_even d_model max_len prob Hp He Hd). cbn [bind].
  rewrite (mapM_ok_all _ (fun l => built_DecoderBlock dk d_model nh max_len prob
                                                      (di_blocks p l)))
    by (intros l; apply DecoderBlock_init_valid; exact Hp).
  reflexivity.
Qed.

Lemma built_DecoderOnly_ok (vocab_size max_len dk d_model nh n_layers : nat) (prob : R)
    (p : EncoderInit) (p_fc : LinearInit) :
  (0 <= prob <= 1)%R -> Nat.even d_model = true -> (0 < d_model)%nat ->
  DecoderOnly.Decoder_init vocab_size max_len dk d_model nh n_layers prob p p_fc
  = Ok (built_DecoderOnly vocab_size max_len dk d_model nh n_layers prob p p_fc).
Proof.
  intros Hp He Hd. unfold DecoderOnly.Decoder_init.
  rewrite (PositionalEncoding_init_even d_model max_len prob Hp He Hd). cbn [bind].
  rewrite (mapM_ok_all _ (fun l => built_TransformerBlock dk d_model nh max_len prob
                                                          (ei_blocks p l)))
    by (intros l; apply TransformerBlock_init_valid; exact Hp).
  reflexivity.
Qed.

Lemma PositionalEncoding_init_outcome (d_model max_len : nat) (prob : R) :
  constructs (PositionalEncoding_init d_model max_len prob)
             (construction_error d_model prob).
Proof.
  unfold construction_error, constructs.
  destruct (valid_probability prob) eqn:Hv.
  - apply valid_probability_true in Hv.
    destruct (Nat.eqb_spec d_model 0) as [->|Hd0].
    + unfold PositionalEncoding_init. rewrite (nn_Dropout_valid prob Hv). reflexivity.
    + destruct (Nat.odd d_model) eqn:Hodd; cbn [andb].
      * destruct (Nat.leb_spec 3 d_model) as [H3|H3].
        -- apply PositionalEncoding_init_odd; assumption.
        -- assert (d_model = 1)%nat as ->.
           { destruct d_model as [|[|[|d]]]; try lia; try reflexivity.
             simpl in Hodd. discriminate. }
           destruct (PositionalEncoding_init_one max_len prob Hv) as [m [Hm _]].
           exists m. exact Hm.
      * eexists. apply PositionalEncoding_init_even; [exact Hv | | lia].
        rewrite <- Nat.negb_odd, Hodd. reflexivity.
  - unfold PositionalEncoding_init. rewrite (nn_Dropout_invalid prob Hv). reflexivity.
Qed.

Lemma stack_init_outcome {B M : Type} (d_model max_len n_layers : nat) (prob : R)
    (block_init : nat -> result B) (build : PositionalEncoding -> list B -> M) :
  (valid_probability prob = true -> forall l, exists b, block_init l = Ok b) ->
  constructs (pos_encoding <- PositionalEncoding_init d_model max_len prob ;;
              transformer_blocks <- mapM block_init (seq 0 n_layers) ;;
              Ok (build pos_encoding transformer_blocks))
             (construction_error d_model prob).
Proof.
  intros Hb. pose proof (PositionalEncoding_init_outcome d_model max_len prob) as H.
  unfold constructs in *.
  assert (Hv : construction_error d_model prob = None -> valid_probability prob = true).
  { unfold construction_error. destruct (valid_probability prob); [reflexivity|discriminate]. }
  destruct (construction_error d_model prob) as [e|].
  - rewrite H. reflexivity.
  - destruct H as [m ->]. cbn [bind].
    specialize (Hb (Hv eq_refl)).
    assert (Hall : exists bs, mapM block_init (seq 0 n_layers) = Ok bs).
    { induction (seq 0 n_layers) as [|l ls IH]; [exists []; reflexivity|].
      destruct (Hb l) as [b Hl]. destruct IH as [bs Hbs].
      exists (b :: bs). cbn [mapM]. rewrite Hl. cbn [bind]. rewrite Hbs. reflexivity. }
    destruct Hall as [bs ->]. cbn [bind]. eexists. reflexivity.
Qed.

(** ** The decoder mask of the training loop *)

Lemma train_dec_mask_entries (pad_token_id : Z) (dec_input : list (list Z)) :
  train_dec_mask pad_token_id dec_input
  = map (map (fun z => if (z =? pad_token_id)%Z then 0%Z else 1%Z)) dec_input.
Proof.
  unfold train_dec_mask. apply masked_fill_where_ones.
Qed.

(** * The code as a whole *)

Lemma open_key_some (pad_mask : option (list (list Z))) (N Tq T : nat) :
  mask_shape N T pad_mask -> some_key_open pad_mask -> (0 < T)%nat ->
  open_key_everywhere false pad_mask N Tq T.
Proof.
  destruct pad_mask as [pm|]; intros Hs Ho HT.
  - exact (open_key_rows_have_open pm N Tq T Hs Ho).
  - intros n i _ _. exists 0%nat. split; [exact HT | reflexivity].
Qed.

Lemma open_key_first (pad_mask : option (list (list Z))) (N T : nat) :
  mask_shape N T pad_mask -> first_key_open pad_mask ->
  open_key_everywhere true pad_mask N T T.
Proof.
  destruct pad_mask as [pm|]; intros Hs Ho.
  - exact (open_key_rows_start_open pm N T Hs Ho).
  - apply open_key_no_mask.
Qed.

Lemma small_encoder_ok (vocab_size max_len : nat) :
  Encoder_init vocab_size max_len 1 2 1 1 0 tiny_encoder_init
  = Ok (small_encoder vocab_size max_len).
Proof. apply built_Encoder_ok; [lra | reflexivity | lia]. Qed.

Lemma small_decoder_ok (vocab_size max_len : nat) :
  Decoder_init vocab_size max_len 1 2 1 1 0 tiny_decoder_init
  = Ok (small_decoder vocab_size max_len).
Proof. apply built_Decoder_ok; [lra | reflexivity | lia]. Qed.

Lemma small_decoder_only_ok (vocab_size max_len : nat) :
  DecoderOnly.Decoder_init vocab_size max_len 1 2 1 1 0 tiny_encoder_init
                           (fun _ _ => 0%R, fun o => INR o)
  = Ok (small_decoder_only vocab_size max_len).
Proof. apply built_DecoderOnly_ok; [lra | reflexivity | lia]. Qed.

(** Closed side conditions on shapes, ids and masks. *)
Ltac shape_facts :=
  repeat first [ lia | reflexivity | discriminate | lra
               | split | constructor | (eexists; reflexivity) ].

(** ** Attention *)

(** X1. [MultiHeadAttention.forward] on queries of shape (N, Tq, d_model) and
    keys and values of shape (N, Tk, d_model) without NaN returns, without an
    exception, a tensor of shape (N, Tq, d_model) without NaN, provided that
    [d_k > 0], the padding mask has the shape of the keys, a causal module has
    room for both lengths, and every query position is left an open key. *)
Theorem attention_returns_finite_values (dk d_model nh max_len : nat) (is_causal : bool)
    (p : MHAInit) (q k v : tensor3) (pad_mask : option (list (list Z)))
    (N Tq Tk : nat) :
  (0 < dk)%nat ->
  has_shape N Tq d_model q -> has_shape N Tk d_model k -> has_shape N Tk d_model v ->
  finite_tensor q -> finite_tensor k -> finite_tensor v ->
  pad_mask_fits pad_mask k ->
  (is_causal = true -> (Tq <= max_len)%nat /\ (Tk <= max_len)%nat) ->
  (forall n i, (n < N)%nat -> (i < Tq)%nat ->
     exists j, (j < Tk)%nat /\ key_open is_causal (pad_row_of pad_mask n) i j = true) ->
  exists y,
    MultiHeadAttention_forward
      (MultiHeadAttention_init dk d_model nh max_len is_causal p) q k v pad_mask = Ok y /\
    has_shape N Tq d_model y /\ finite_tensor y.
Proof.
  intros Hd Hq Hk Hv Fq Fk Fv Hfit Hmax Hopen.
  eexists. split; [|split].
  - apply (MultiHeadAttention_forward_per_position dk d_model nh max_len is_causal p
             q k v pad_mask N Tq Tk); assumption.
  - apply (per_position_shape N Tq d_model d_model q); [exact Hq|].
    intros n i xi Hn Hi. apply attention_at_length.
  - apply per_position_finite. intros n i xi Hn Hi.
    destruct (has_shape_row _ _ _ _ _ _ _ Hq Hn Hi) as [_ HiT].
    destruct (Hopen n i Hn HiT) as (j & Hj & Ho).
    apply attention_at_finite.
    + exact Hd.
    + exact (finite_tensor_row q N n i xi (proj1 Hq) Fq Hn Hi).
    + exact (finite_tensor_nth k N n (proj1 Hk) Fk Hn).
    + exact (finite_tensor_nth v N n (proj1 Hv) Fv Hn).
    + exists j; split; [|exact Ho].
      rewrite (proj1 (has_shape_nth _ _ _ _ n Hk Hn)). exact Hj.
Qed.

Lemma attention_returns_finite_values_witness :
  exists y,
    MultiHeadAttention_forward (MultiHeadAttention_init 1 1 1 4 true unit_mha)
      two_tokens two_tokens two_tokens (Some [[1; 0]]%Z) = Ok y /\
    has_shape 1 2 1 y /\ finite_tensor y.
Proof.
  apply (attention_returns_finite_values 1 1 1 4 true unit_mha two_tokens two_tokens
           two_tokens (Some [[1; 0]]%Z) 1 2 2); unfold two_tokens; try solve [shape_facts].
  intros [|n] [|[|i]] Hn Hi; try lia; exists 0%nat; split; try lia; reflexivity.
Defined.

(** X2. On inputs of one shape (N, T, d_model) with [T <= max_len],
    [CausalSelfAttention.forward] of the decoder-only notebook and
    [MultiHeadAttention.forward] with [causal=True] of the encoder-decoder
    notebook, built from the same parameters, give the same result. *)
Theorem CausalSelfAttention_is_causal_MultiHeadAttention
    (dk d_model nh max_len : nat) (p : MHAInit)
    (q k v : tensor3) (pad_mask : option (list (list Z))) (N T : nat) :
  has_shape N T d_model q -> has_shape N T d_model k -> has_shape N T d_model v ->
  pad_mask_fits pad_mask k -> (T <= max_len)%nat ->
  DecoderOnly.CausalSelfAttention_forward
    (DecoderOnly.CausalSelfAttention_init dk d_model nh max_len p) q k v pad_mask
  = MultiHeadAttention_forward
      (MultiHeadAttention_init dk d_model nh max_len true p) q k v pad_mask.
Proof.
  intros Hq Hk Hv Hfit Hmax.
  rewrite (CausalSelfAttention_forward_per_position dk d_model nh max_len p q k v pad_mask
             N T Hq Hk Hv Hfit Hmax).
  rewrite (MultiHeadAttention_forward_per_position dk d_model nh max_len true p q k v
             pad_mask N T T Hq Hk Hv Hfit (fun _ => conj Hmax Hmax)).
  reflexivity.
Qed.

Lemma CausalSelfAttention_is_causal_MultiHeadAttention_witness :
  DecoderOnly.CausalSelfAttention_forward
    (DecoderOnly.CausalSelfAttention_init 1 1 1 4 unit_mha)
    two_tokens two_tokens two_tokens (Some [[1; 0]]%Z)
  = MultiHeadAttention_forward (MultiHeadAttention_init 1 1 1 4 true unit_mha)
      two_tokens two_tokens two_tokens (Some [[1; 0]]%Z).
Proof.
  apply (CausalSelfAttention_is_causal_MultiHeadAttention 1 1 1 4 unit_mha
           two_tokens two_tokens two_tokens (Some [[1; 0]]%Z) 1 2);
    unfold two_tokens; shape_facts.
Defined.

(** ** Blocks *)

(** X3. [EncoderBlock.forward] on a tensor of shape (N, T, d_model) without
    NaN, with a padding mask of shape (N, T) that leaves a key open in every
    row, returns a tensor of the same shape without NaN. *)
Theorem EncoderBlock_forward_returns (GELU : R -> R) (dk d_model nh max_len : nat)
    (prob : R) (p : EncoderBlockInit) (b : EncoderBlock) (x : tensor3)
    (pad_mask : option (list (list Z))) (N T : nat) :
  (0 < dk)%nat -> (0 < d_model)%nat ->
  EncoderBlock_init dk d_model nh max_len prob p = Ok b ->
  good_tensor N T d_model x -> mask_shape N T pad_mask -> some_key_open pad_mask ->
  exists y, EncoderBlock_forward GELU b x pad_mask = Ok y /\ good_tensor N T d_model y.
Proof.
  intros Hdk Hd Hb Hx Hs Ho.
  apply (EncoderBlock_forward_good GELU dk d_model nh max_len prob p b x pad_mask N T
           Hdk Hd Hb Hx (mask_shape_fits N T d_model pad_mask x Hs (proj1 Hx))).
  destruct (Nat.eq_dec T 0) as [->|HT].
  - intros n i _ Hi. lia.
  - apply open_key_some; [exact Hs | exact Ho | lia].
Qed.

Lemma EncoderBlock_forward_returns_witness :
  exists y,
    EncoderBlock_forward (fun x => x) (built_EncoderBlock 1 2 1 4 0 unit_encoder_block)
      [[[Fin 0; Fin 0]; [Fin 1; Fin 0]]] (Some [[1; 0]]%Z) = Ok y /\
    good_tensor 1 2 2 y.
Proof.
  apply (EncoderBlock_forward_returns (fun x => x) 1 2 1 4 0 unit_encoder_block
           (built_EncoderBlock 1 2 1 4 0 unit_encoder_block)
           [[[Fin 0; Fin 0]; [Fin 1; Fin 0]]] (Some [[1; 0]]%Z) 1 2);
    try solve [shape_facts].
  apply EncoderBlock_init_valid. lra.
Defined.



(** ** Stacks *)

(** X5. [Encoder.forward] on token ids of shape (N, T) inside the vocabulary,
    with [T <= max_len] and a padding mask of shape (N, T) that leaves a key
    open in every row, returns a tensor of shape (N, T, d_model) without
    NaN. *)
Theorem Encoder_forward_returns (GELU : R -> R)
    (vocab_size max_len dk d_model nh n_layers : nat) (prob : R) (p : EncoderInit)
    (m : Encoder) (ids : list (list Z)) (pad_mask : option (list (list Z))) (N T : nat) :
  Encoder_init vocab_size max_len dk d_model nh n_layers prob p = Ok m ->
  (0 < dk)%nat ->
  matrix_shape N T ids -> ids_in_vocab vocab_size ids -> (T <= max_len)%nat ->
  mask_shape N T pad_mask -> some_key_open pad_mask ->
  exists y, Encoder_forward GELU m ids pad_mask = Ok y /\ good_tensor N T d_model y.
Proof.
  intros Hm Hdk Hids Hv HT Hs Ho.
  apply (Encoder_forward_good GELU vocab_size max_len dk d_model nh n_layers prob p m ids
           pad_mask N T Hm Hdk Hids Hv HT Hs).
  destruct (Nat.eq_dec T 0) as [->|HT0].
  - intros n i _ Hi. lia.
  - apply open_key_some; [exact Hs | exact Ho | lia].
Qed.

Lemma Encoder_forward_returns_witness :
  exists y,
    Encoder_forward (fun x => x) (small_encoder 2 4) [[0; 1]]%Z (Some [[1; 0]]%Z) = Ok y /\
    good_tensor 1 2 2 y.
Proof.
  apply (Encoder_forward_returns (fun x => x) 2 4 1 2 1 1 0 tiny_encoder_init
           (small_encoder 2 4) [[0; 1]]%Z (Some [[1; 0]]%Z) 1 2);
    try solve [shape_facts].
  apply small_encoder_ok.
Defined.

(** X6. [Decoder.forward] of the encoder-decoder notebook, on an encoder
    output of shape (N, Te, d_model) without NaN and decoder ids of shape
    (N, T) inside the vocabulary with [T <= max_len], returns logits of shape
    (N, T, vocab_size) without NaN, when the encoder mask leaves a key open in
    every row and the decoder mask leaves the first key open. *)
Theorem Decoder_forward_returns (GELU : R -> R)
    (vocab_size max_len dk d_model nh n_layers : nat) (prob : R) (p : DecoderInit)
    (m : Decoder) (enc_output : tensor3) (dec_input : list (list Z))
    (enc_mask dec_mask : option (list (list Z))) (N T Te : nat) :
  Decoder_init vocab_size max_len dk d_model nh n_layers prob p = Ok m ->
  (0 < dk)%nat -> (0 < Te)%nat ->
  good_tensor N Te d_model enc_output ->
  matrix_shape N T dec_input -> ids_in_vocab vocab_size dec_input -> (T <= max_len)%nat ->
  mask_shape N Te enc_mask -> mask_shape N T dec_mask ->
  some_key_open enc_mask -> first_key_open dec_mask ->
  exists y, Decoder_forward GELU m enc_output dec_input enc_mask dec_mask = Ok y /\
            good_tensor N T vocab_size y.
Proof.
  intros Hm Hdk HTe He Hids Hv HT Hse Hsd Hoe Hod.
  exact (Decoder_forward_good GELU vocab_size max_len dk d_model nh n_layers prob p m
           enc_output dec_input enc_mask dec_mask N T Te Hm Hdk He Hids Hv HT Hse Hsd
           (open_key_first dec_mask N T Hsd Hod)
           (open_key_some enc_mask N T Te Hse Hoe HTe)).
Qed.

Lemma Decoder_forward_returns_witness :
  exists y,
    Decoder_forward (fun x => x) (small_decoder 2 4) [[[Fin 0; Fin 1]]] [[0; 1]]%Z
                    (Some [[1]]%Z) (Some [[1; 0]]%Z) = Ok y /\
    good_tensor 1 2 2 y.
Proof.
  apply (Decoder_forward_returns (fun x => x) 2 4 1 2 1 1 0 tiny_decoder_init
           (small_decoder 2 4) [[[Fin 0; Fin 1]]] [[0; 1]]%Z
           (Some [[1]]%Z) (Some [[1; 0]]%Z) 1 2 1);
    try solve [shape_facts].
  apply small_decoder_ok.
Defined.

(** X7. [Decoder.forward] of the decoder-only notebook on token ids of shape
    (N, T) inside the vocabulary, with [T <= max_len] and a padding mask that
    leaves the first key of every row open, returns logits of shape
    (N, T, vocab_size) without NaN. *)
Theorem DecoderOnly_forward_returns (GELU : R -> R)
    (vocab_size max_len dk d_model nh n_layers : nat) (prob : R) (p : EncoderInit)
    (p_fc : LinearInit) (m : DecoderOnly.Decoder) (ids : list (list Z))
    (pad_mask : option (list (list Z))) (N T : nat) :
  DecoderOnly.Decoder_init vocab_size max_len dk d_model nh n_layers prob p p_fc = Ok m ->
  (0 < dk)%nat ->
  matrix_shape N T ids -> ids_in_vocab vocab_size ids -> (T <= max_len)%nat ->
  mask_shape N T pad_mask -> first_key_open pad_mask ->
  exists y, DecoderOnly.Decoder_forward GELU m ids pad_mask = Ok y /\
            good_tensor N T vocab_size y.
Proof.
  intros Hm Hdk Hids Hv HT Hs Ho.
  exact (DecoderOnly_forward_good GELU vocab_size max_len dk d_model nh n_layers prob p
           p_fc m ids pad_mask N T Hm Hdk Hids Hv HT Hs (open_key_first pad_mask N T Hs Ho)).
Qed.

Lemma DecoderOnly_forward_returns_witness :
  exists y,
    DecoderOnly.Decoder_forward (fun x => x) (small_decoder_only 2 4) [[0; 1]]%Z
                                (Some [[1; 0]]%Z) = Ok y /\
    good_tensor 1 2 2 y.
Proof.
  apply (DecoderOnly_forward_returns (fun x => x) 2 4 1 2 1 1 0 tiny_encoder_init
           (fun _ _ => 0%R, fun o => INR o)
           (small_decoder_only 2 4) [[0; 1]]%Z (Some [[1; 0]]%Z) 1 2);
    try solve [shape_facts].
  apply small_decoder_only_ok.
Defined.

(** X8. [Transformer.forward] on encoder ids of shape (N, Te) and decoder ids
    of shape (N, T), all inside the vocabularies and within the maximal
    lengths, returns logits of shape (N, T, vocab_size) without NaN, when
    every row of the encoder mask has an open entry and every row of the
    decoder mask starts with one. *)
Theorem Transformer_forward_returns (GELU : R -> R)
    (vocab_e max_len_e dk_e nh_e layers_e : nat) (prob_e : R) (p_e : EncoderInit)
    (vocab_d max_len_d dk_d nh_d layers_d : nat) (prob_d : R) (p_d : DecoderInit)
    (d_model : nat) (enc : Encoder) (dec : Decoder)
    (enc_input dec_input enc_mask dec_mask : list (list Z)) (N Te T : nat) :
  Encoder_init vocab_e max_len_e dk_e d_model nh_e layers_e prob_e p_e = Ok enc ->
  Decoder_init vocab_d max_len_d dk_d d_model nh_d layers_d prob_d p_d = Ok dec ->
  (0 < dk_e)%nat -> (0 < dk_d)%nat ->
  matrix_shape N Te enc_input -> ids_in_vocab vocab_e enc_input -> (Te <= max_len_e)%nat ->
  matrix_shape N T dec_input -> ids_in_vocab vocab_d dec_input -> (T <= max_len_d)%nat ->
  matrix_shape N Te enc_mask -> rows_have_open enc_mask ->
  matrix_shape N T dec_mask -> rows_start_open dec_mask ->
  exists y,
    Transformer_forward GELU {| encoder := enc; decoder := dec |}
                        enc_input dec_input enc_mask dec_mask = Ok y /\
    good_tensor N T vocab_d y.
Proof.
  intros He Hd Hke Hkd Hie Hve Hme Hid Hvd Hmd Hse Hoe Hsd Hod.
  unfold Transformer_forward. cbn [encoder decoder].
  destruct (Encoder_forward_good GELU vocab_e max_len_e dk_e d_model nh_e layers_e prob_e
              p_e enc enc_input (Some enc_mask) N Te He Hke Hie Hve Hme Hse
              (open_key_rows_have_open enc_mask N Te Te Hse Hoe)) as (eo & -> & Hgeo).
  cbn [bind].
  destruct (Decoder_forward_good GELU vocab_d max_len_d dk_d d_model nh_d layers_d prob_d
              p_d dec eo dec_input (Some enc_mask) (Some dec_mask) N T Te Hd Hkd Hgeo
              Hid Hvd Hmd Hse Hsd
              (open_key_rows_start_open dec_mask N T Hsd Hod)
              (open_key_rows_have_open enc_mask N T Te Hse Hoe)) as (y & -> & Hgy).
  cbn [bind]. exists y. split; [reflexivity | exact Hgy].
Qed.

Lemma Transformer_forward_returns_witness :
  exists y,
    Transformer_forward (fun x => x)
      {| encoder := small_encoder 3 4; decoder := small_decoder 2 4 |}
      [[2; 0; 1]]%Z [[0; 1]]%Z [[1; 1; 0]]%Z [[1; 0]]%Z = Ok y /\
    good_tensor 1 2 2 y.
Proof.
  apply (Transformer_forward_returns (fun x => x)
           3 4 1 1 1 0 tiny_encoder_init 2 4 1 1 1 0 tiny_decoder_init 2
           (small_encoder 3 4) (small_decoder 2 4)
           [[2; 0; 1]]%Z [[0; 1]]%Z [[1; 1; 0]]%Z [[1; 0]]%Z 1 3 2);
    try solve [shape_facts].
  - apply small_encoder_ok.
  - apply small_decoder_ok.
Defined.

(** ** Causality *)





(** ** Padding *)







(** ** Generation *)



(** X15. The generation loop of the decoder-only notebook returns: for a
    non-empty prompt inside the vocabulary whose 20 extensions fit the
    positional table, with a mask whose first entry is not 0, it ends without
    an exception with the prompt followed by between 1 and 20 generated ids,
    all inside the vocabulary. *)
Theorem generate_returns (GELU : R -> R)
    (vocab_size max_len dk d_model nh n_layers : nat) (prob : R) (p : EncoderInit)
    (p_fc : LinearInit) (model : DecoderOnly.Decoder) (sep_token_id : Z)
    (prompt : list Z) (mask : list (list Z)) :
  DecoderOnly.Decoder_init vocab_size max_len dk d_model nh n_layers prob p p_fc = Ok model ->
  (0 < dk)%nat ->
  (0 < length prompt)%nat ->
  (length prompt + DecoderOnly.generation_steps <= max_len + 1)%nat ->
  ids_in_vocab vocab_size [prompt] ->
  matrix_shape 1 (length prompt) mask -> rows_start_open mask ->
  exists gen mask',
    DecoderOnly.generate GELU model sep_token_id [prompt] mask
    = Ok ([prompt ++ gen], mask') /\
    (1 <= length gen <= DecoderOnly.generation_steps)%nat /\
    ids_in_vocab vocab_size [gen].
Proof.
  intros Hm Hdk HL Hlen Hv Hms Hmo.
  unfold DecoderOnly.generate.
  assert (Hvpos : (0 < vocab_size)%nat).
  { destruct prompt as [|z r]; [simpl in HL; lia|].
    pose proof (Forall_inv (Forall_inv Hv)). simpl in H. lia. }
  destruct (greedy_loop_total
              (fun input_ids mask => DecoderOnly.Decoder_forward GELU model input_ids
                                       (Some mask))
              sep_token_id vocab_size max_len) with (n := DecoderOnly.generation_steps)
              (row := prompt) (mask := mask) as (gen & mask' & Hloop & Hgen);
    try assumption.
  - intros row mk HLr Hrow Hmsr Hmor.
    apply (DecoderOnly_forward_good GELU vocab_size max_len dk d_model nh n_layers prob
             p p_fc model [row] (Some mk) 1 (length row)); try assumption.
    + split; [reflexivity | repeat constructor].
    + lia.
    + apply open_key_rows_start_open; assumption.
  - pose proof (greedy_loop_halts
                  (fun input_ids mask => DecoderOnly.Decoder_forward GELU model input_ids
                                           (Some mask))
                  sep_token_id DecoderOnly.generation_steps prompt mask) as Hh.
    rewrite Hloop in Hh |- *.
    destruct Hh as (gen' & Hg' & Hpos & Hle & _).
    injection Hg' as Hg'. apply app_inv_head in Hg'. subst gen'.
    exists gen, mask'. split; [reflexivity|]. split; [|exact Hgen].
    split; [apply Hpos; unfold DecoderOnly.generation_steps; lia | exact Hle].
Qed.

Lemma generate_returns_witness :
  exists gen mask',
    DecoderOnly.generate (fun x => x) (small_decoder_only 2 24) 1%Z [[0; 1]%Z] [[1; 1]]%Z
    = Ok ([[0; 1]%Z ++ gen], mask') /\
    (1 <= length gen <= DecoderOnly.generation_steps)%nat /\
    ids_in_vocab 2 [gen].
Proof.
  apply (generate_returns (fun x => x) 2 24 1 2 1 1 0 tiny_encoder_init
           (fun _ _ => 0%R, fun o => INR o) (small_decoder_only 2 24) 1%Z
           [0; 1]%Z [[1; 1]]%Z).
  - apply small_decoder_only_ok.
  - lia.
  - simpl. lia.
  - unfold DecoderOnly.generation_steps. simpl. lia.
  - shape_facts.
  - shape_facts.
  - shape_facts.
Defined.

(** X16. [translate] needs the start id 65001 in the decoder vocabulary: with
    a decoder of at most 65001 embeddings it never returns.  It ends with the
    exception of the encoder, if there is one, and with an IndexError of the
    embedding lookup in its first decoder call otherwise. *)
Theorem translate_needs_start_id_in_vocabulary (GELU : R -> R)
    (vocab_size max_len dk d_model nh n_layers : nat) (prob : R) (p : DecoderInit)
    (enc : Encoder) (dec : Decoder) (input_ids attention_mask : list (list Z)) :
  Decoder_init vocab_size max_len dk d_model nh n_layers prob p = Ok dec ->
  (Z.of_nat vocab_size <= start_id)%Z ->
  translate GELU enc dec input_ids attention_mask
  = match Encoder_forward GELU enc input_ids (Some attention_mask) with
    | Ok _ => Raise IndexError
    | Raise e => Raise e
    end.
Proof.
  intros Hm Hv. unfold translate.
  destruct (Encoder_forward GELU enc input_ids (Some attention_mask)) as [eo|e];
    [|reflexivity].
  cbn [bind]. unfold translate_loop, max_steps.
  rewrite (greedy_loop_first_call_raises _ _ _ _ IndexError); [reflexivity|].
  unfold translate_start, translate_call. cbn [fst snd].
  unfold Decoder_init in Hm. inv_bind Hm as pos Hpos. inv_bind Hm as blocks Hblocks.
  injection Hm as <-.
  unfold Decoder_forward. cbn [embedding].
  rewrite Embedding_forward_out_of_range; [reflexivity|].
  exists [start_id], start_id. simpl. split; [auto|]. split; [auto|]. right. exact Hv.
Qed.

Lemma translate_needs_start_id_in_vocabulary_witness :
  translate (fun x => x) (small_encoder 2 4) (small_decoder 2 32) [[0; 1]]%Z [[1; 0]]%Z
  = match Encoder_forward (fun x => x) (small_encoder 2 4) [[0; 1]]%Z (Some [[1; 0]]%Z) with
    | Ok _ => Raise IndexError
    | Raise e => Raise e
    end.
Proof.
  apply (translate_needs_start_id_in_vocabulary (fun x => x) 2 32 1 2 1 1 0
           tiny_decoder_init (small_encoder 2 4) (small_decoder 2 32)
           [[0; 1]]%Z [[1; 0]]%Z).
  - apply small_decoder_ok.
  - unfold start_id. lia.
Defined.

(** ** Errors *)

(** X17. A sequence longer than the positional table is refused: with
    [2 <= max_len < T], the forward passes of the encoder, of the decoder and
    of the decoder-only model on ids of shape (N, T), [N > 0], inside the
    vocabulary end with the shape error of the addition of the positional
    encoding. *)
Theorem sequence_longer_than_max_len_raises (GELU : R -> R)
    (vocab_size max_len dk d_model nh n_layers : nat) (prob : R)
    (p_e : EncoderInit) (p_d : DecoderInit) (p_fc : LinearInit)
    (ids : list (list Z)) (N T : nat) :
  matrix_shape N T ids -> ids_in_vocab vocab_size ids -> (0 < N)%nat ->
  (2 <= max_len)%nat -> (max_len < T)%nat ->
  (forall m pad_mask,
     Encoder_init vocab_size max_len dk d_model nh n_layers prob p_e = Ok m ->
     Encoder_forward GELU m ids pad_mask = Raise ShapeError) /\
  (forall m enc_output enc_mask dec_mask,
     Decoder_init vocab_size max_len dk d_model nh n_layers prob p_d = Ok m ->
     Decoder_forward GELU m enc_output ids enc_mask dec_mask = Raise ShapeError) /\
  (forall m pad_mask,
     DecoderOnly.Decoder_init vocab_size max_len dk d_model nh n_layers prob p_e p_fc
     = Ok m ->
     DecoderOnly.Decoder_forward GELU m ids pad_mask = Raise ShapeError).
Proof.
  intros Hids Hv HN H2 HT. split; [|split].
  - intros m pad_mask Hm.
    exact (Encoder_forward_too_long GELU vocab_size max_len dk d_model nh n_layers prob
             p_e m ids pad_mask N T Hm Hids Hv HN H2 HT).
  - intros m enc_output enc_mask dec_mask Hm.
    exact (Decoder_forward_too_long GELU vocab_size max_len dk d_model nh n_layers prob
             p_d m enc_output ids enc_mask dec_mask N T Hm Hids Hv HN H2 HT).
  - intros m pad_mask Hm.
    exact (DecoderOnly_forward_too_long GELU vocab_size max_len dk d_model nh n_layers
             prob p_e p_fc m ids pad_mask N T Hm Hids Hv HN H2 HT).
Qed.

Lemma sequence_longer_than_max_len_raises_witness :
  Encoder_forward (fun x => x) (small_encoder 2 2) [[0; 1; 0]]%Z None = Raise ShapeError /\
  Decoder_forward (fun x => x) (small_decoder 2 2) [[[Fin 0; Fin 0]]] [[0; 1; 0]]%Z
                  None None = Raise ShapeError /\
  DecoderOnly.Decoder_forward (fun x => x) (small_decoder_only 2 2) [[0; 1; 0]]%Z None
  = Raise ShapeError.
Proof.
  assert (Hids : matrix_shape 1 3 [[0; 1; 0]]%Z) by shape_facts.
  assert (Hv : ids_in_vocab 2 [[0; 1; 0]]%Z) by shape_facts.
  destruct (sequence_longer_than_max_len_raises (fun x => x) 2 2 1 2 1 1 0
              tiny_encoder_init tiny_decoder_init (fun _ _ => 0%R, fun o => INR o)
              [[0; 1; 0]]%Z 1 3 Hids Hv ltac:(lia) ltac:(lia) ltac:(lia))
    as (He & Hd & Ho).
  split; [|split].
  - apply He. apply small_encoder_ok.
  - apply Hd. apply small_decoder_ok.
  - apply Ho. apply small_decoder_only_ok.
Defined.

(** X18. The constructors of the three stacks end in the same way: with a
    ValueError when [dropout_prob] is outside [0, 1]; otherwise with a
    ZeroDivisionError when [d_model] is 0; otherwise with a shape error when
    [d_model] is odd and at least 3; and with a module in every other case,
    whatever the other sizes. *)
Theorem stack_construction_outcome (vocab_size max_len dk d_model nh n_layers : nat)
    (prob : R) (p_e : EncoderInit) (p_d : DecoderInit) (p_fc : LinearInit) :
  constructs (Encoder_init vocab_size max_len dk d_model nh n_layers prob p_e)
             (construction_error d_model prob) /\
  constructs (Decoder_init vocab_size max_len dk d_model nh n_layers prob p_d)
             (construction_error d_model prob) /\
  constructs (DecoderOnly.Decoder_init vocab_size max_len dk d_model nh n_layers prob
                                       p_e p_fc)
             (construction_error d_model prob).
Proof.
  split; [|split].
  - unfold Encoder_init.
    apply (stack_init_outcome d_model max_len n_layers prob
             (fun l => EncoderBlock_init dk d_model nh max_len prob (ei_blocks p_e l))
             (fun pos blocks =>
                {| enc_embedding := nn_Embedding vocab_size d_model (ei_embedding p_e);
                   enc_pos_encoding := pos;
                   enc_transformer_blocks := blocks;
                   enc_ln := nn_LayerNorm d_model (ei_ln p_e) |})).
    intros Hv l. eexists. apply EncoderBlock_init_valid.
    apply valid_probability_true. exact Hv.
  - unfold Decoder_init.
    apply (stack_init_outcome d_model max_len n_layers prob
             (fun l => DecoderBlock_init dk d_model nh max_len prob (di_blocks p_d l))
             (fun pos blocks =>
                {| embedding := nn_Embedding vocab_size d_model (di_embedding p_d);
                   pos_encoding := pos;
                   transformer_blocks := blocks;
                   dec_ln := nn_LayerNorm d_model (di_ln p_d);
                   dec_fc := nn_Linear d_model vocab_size (di_fc p_d) |})).
    intros Hv l. eexists. apply DecoderBlock_init_valid.
    apply valid_probability_true. exact Hv.
  - unfold DecoderOnly.Decoder_init.
    apply (stack_init_outcome d_model max_len n_layers prob
             (fun l => DecoderOnly.TransformerBlock_init dk d_model nh max_len prob
                                                         (ei_blocks p_e l))
             (fun pos blocks =>
                {| DecoderOnly.embedding := nn_Embedding vocab_size d_model (ei_embedding p_e);
                   DecoderOnly.pos_encoding := pos;
                   DecoderOnly.transformer_blocks := blocks;
                   DecoderOnly.ln := nn_LayerNorm d_model (ei_ln p_e);
                   DecoderOnly.fc := nn_Linear d_model vocab_size p_fc |})).
    intros Hv l. eexists. apply TransformerBlock_init_valid.
    apply valid_probability_true. exact Hv.
Qed.

(** ** The inputs of the training loops *)

(** X19. The decoder input of the training loop of the encoder-decoder
    notebook: for targets of shape (N, T) with [T > 0], every row is the start
    id 65001 followed by the row of targets without its last entry, with the
    entries -100 replaced by the pad id.  For [T = 0] and [N > 0] the
    assignment to column 0 ends with an IndexError. *)
Theorem train_decoder_input (pad_token_id : Z) (targets : list (list Z)) (N T : nat) :
  matrix_shape N T targets ->
  ((0 < T)%nat ->
   train_dec_input pad_token_id targets
   = Ok (map (fun row =>
                start_id :: map (fun z => if (z =? -100)%Z then pad_token_id else z)
                                (removelast row))
             targets)) /\
  (T = 0%nat -> (0 < N)%nat -> train_dec_input pad_token_id targets = Raise IndexError).
Proof.
  intros [HN HT]. split.
  - intros H0. apply train_dec_input_rows.
    apply Forall_forall. intros row Hrow ->.
    pose proof (proj1 (Forall_forall _ _) HT _ Hrow) as Hl. simpl in Hl. lia.
  - intros -> HN0. apply train_dec_input_empty_row.
    destruct targets as [|row rest]; [simpl in HN; lia|].
    pose proof (Forall_inv HT) as Hl. apply length_zero_iff_nil in Hl. subst row.
    left. reflexivity.
Qed.

Lemma train_decoder_input_witness :
  ((0 < 3)%nat ->
   train_dec_input 0 [[5; 6; -100]; [7; -100; -100]]%Z
   = Ok (map (fun row =>
                start_id :: map (fun z => if (z =? -100)%Z then 0%Z else z)
                                (removelast row))
             [[5; 6; -100]; [7; -100; -100]]%Z)) /\
  (3%nat = 0%nat -> (0 < 2)%nat ->
   train_dec_input 0 [[5; 6; -100]; [7; -100; -100]]%Z = Raise IndexError).
Proof.
  apply (train_decoder_input 0 [[5; 6; -100]; [7; -100; -100]]%Z 2 3). shape_facts.
Defined.

(** X20. The decoder mask of the training loop: for a decoder input built
    from targets of shape (N, T), the mask has the shape (N, T), holds 0
    exactly where the decoder input holds the pad id and 1 elsewhere, and,
    when the pad id is not the start id 65001, every row starts with 1. *)
Theorem train_decoder_mask (pad_token_id : Z) (targets dec_input : list (list Z))
    (N T : nat) :
  matrix_shape N T targets ->
  train_dec_input pad_token_id targets = Ok dec_input ->
  train_dec_mask pad_token_id dec_input
  = map (map (fun z => if (z =? pad_token_id)%Z then 0%Z else 1%Z)) dec_input /\
  matrix_shape N T (train_dec_mask pad_token_id dec_input) /\
  (pad_token_id <> start_id -> rows_start_open (train_dec_mask pad_token_id dec_input)).
Proof.
  intros Hs Hd. rewrite train_dec_mask_entries.
  destruct Hs as [HN HT].
  assert (Hrows : Forall (fun row => row <> []) targets).
  { apply Forall_forall. intros row Hrow ->.
    rewrite (train_dec_input_empty_row pad_token_id targets Hrow) in Hd. discriminate. }
  rewrite (train_dec_input_rows pad_token_id targets Hrows) in Hd.
  injection Hd as <-. split; [reflexivity|]. split; [split|].
  - rewrite !length_map. exact HN.
  - rewrite map_map. apply Forall_forall. intros r Hr.
    apply in_map_iff in Hr. destruct Hr as (row & <- & Hrow).
    pose proof (proj1 (Forall_forall _ _) HT _ Hrow) as Hl.
    pose proof (proj1 (Forall_forall _ _) Hrows _ Hrow) as Hne.
    rewrite length_map. cbn [length]. rewrite length_map.
    destruct row as [|a row]; [contradiction|].
    rewrite <- Hl. clear. revert a.
    induction row as [|b row IH]; intros a; [reflexivity|].
    change (removelast (a :: b :: row)) with (a :: removelast (b :: row)).
    cbn [length]. f_equal. apply IH.
  - intros Hp. unfold rows_start_open. rewrite map_map.
    apply Forall_forall. intros r Hr.
    apply in_map_iff in Hr. destruct Hr as (row & <- & _).
    cbn [map hd].
    destruct (Z.eqb_spec start_id pad_token_id) as [E|_]; [congruence | discriminate].
Qed.

Lemma train_decoder_mask_witness :
  train_dec_mask 0 [[65001; 5; 6]; [65001; 7; 0]]%Z
  = map (map (fun z => if (z =? 0)%Z then 0%Z else 1%Z)) [[65001; 5; 6]; [65001; 7; 0]]%Z /\
  matrix_shape 2 3 (train_dec_mask 0 [[65001; 5; 6]; [65001; 7; 0]]%Z) /\
  (0%Z <> start_id -> rows_start_open (train_dec_mask 0 [[65001; 5; 6]; [65001; 7; 0]]%Z)).
Proof.
  apply (train_decoder_mask 0 [[5; 6; -100]; [7; -100; -100]]%Z
           [[65001; 5; 6]; [65001; 7; 0]]%Z 2 3).
  - shape_facts.
  - reflexivity.
Defined.

(** X21. The targets of the training loop of the decoder-only notebook: for
    input ids of shape (N, T) with [T > 0], every row of targets is the row of
    ids without its first entry, followed by the pad id.  For [T = 0] and
    [N > 0] the assignment to the last column ends with an IndexError. *)
Theorem train_targets_shift (pad_token_id : Z) (input_ids : list (list Z)) (N T : nat) :
  matrix_shape N T input_ids ->
  ((0 < T)%nat ->
   train_targets pad_token_id input_ids
   = Ok (map (fun row => tl row ++ [pad_token_id]) input_ids)) /\
  (T = 0%nat -> (0 < N)%nat -> train_targets pad_token_id input_ids = Raise IndexError).
Proof.
  intros [HN HT]. split.
  - intros H0. apply train_targets_rows.
    apply Forall_forall. intros row Hrow ->.
    pose proof (proj1 (Forall_forall _ _) HT _ Hrow) as Hl. simpl in Hl. lia.
  - intros -> HN0. apply train_targets_empty_row.
    destruct input_ids as [|row rest]; [simpl in HN; lia|].
    pose proof (Forall_inv HT) as Hl. apply length_zero_iff_nil in Hl. subst row.
    left. reflexivity.
Qed.

Lemma train_targets_shift_witness :
  ((0 < 3)%nat ->
   train_targets 0 [[5; 6; 7]; [8; 9; 0]]%Z
   = Ok (map (fun row => tl row ++ [0%Z]) [[5; 6; 7]; [8; 9; 0]]%Z)) /\
  (3%nat = 0%nat -> (0 < 2)%nat ->
   train_targets 0 [[5; 6; 7]; [8; 9; 0]]%Z = Raise IndexError).
Proof.
  apply (train_targets_shift 0 [[5; 6; 7]; [8; 9; 0]]%Z 2 3). shape_facts.
Defined.

(** ** The elements of a batch do not influence each other *)


Lemma batch_elem_shape (N T D n : nat) (x : tensor3) :
  has_shape N T D x -> (n < N)%nat -> has_shape 1 T D (batch_elem n x).
Proof.
  intros Hx Hn. split; [reflexivity|].
  constructor; [|constructor]. exact (has_shape_nth N T D x n Hx Hn).
Qed.

Lemma batch_elem_good (N T D n : nat) (x : tensor3) :
  good_tensor N T D x -> (n < N)%nat -> good_tensor 1 T D (batch_elem n x).
Proof.
  intros [Hx Fx] Hn. split; [exact (batch_elem_shape N T D n x Hx Hn)|].
  constructor; [|constructor]. exact (finite_tensor_nth x N n (proj1 Hx) Fx Hn).
Qed.




Lemma pad_row_of_batch_elem (pad_mask : option (list (list Z))) (n : nat) :
  pad_row_of (option_map (batch_elem n) pad_mask) 0 = pad_row_of pad_mask n.
Proof. destruct pad_mask; reflexivity. Qed.

Lemma open_key_batch_elem (c : bool) (pad_mask : option (list (list Z)))
    (N Tq Tk n : nat) :
  open_key_everywhere c pad_mask N Tq Tk -> (n < N)%nat ->
  open_key_everywhere c (option_map (batch_elem n) pad_mask) 1 Tq Tk.
Proof.
  intros Ho Hn n' i Hn' Hi. assert (n' = 0)%nat as -> by lia.
  rewrite pad_row_of_batch_elem. exact (Ho n i Hn Hi).
Qed.








(** ** Batches *)





(** ** The values of the padding mask *)

(** X24. [MultiHeadAttention.forward] depends on the padding mask only
    through the places of its zeros: two masks of the shape of the keys whose
    entries are 0 at the same places give the same result, and a mask without
    zeros gives the result of no mask. *)
Theorem attention_mask_matters_through_zeros (dk d_model nh max_len : nat)
    (is_causal : bool) (p : MHAInit) (q k v : tensor3)
    (pad_mask pad_mask' : option (list (list Z))) (N Tq Tk : nat) :
  has_shape N Tq d_model q -> has_shape N Tk d_model k -> has_shape N Tk d_model v ->
  mask_shape N Tk pad_mask -> mask_shape N Tk pad_mask' ->
  (is_causal = true -> (Tq <= max_len)%nat /\ (Tk <= max_len)%nat) ->
  same_closed_keys pad_mask pad_mask' N Tk ->
  MultiHeadAttention_forward
    (MultiHeadAttention_init dk d_model nh max_len is_causal p) q k v pad_mask
  = MultiHeadAttention_forward
      (MultiHeadAttention_init dk d_model nh max_len is_causal p) q k v pad_mask'.
Proof.
  intros Hq Hk Hv Hm Hm' Hc Hsame.
  rewrite (MultiHeadAttention_forward_per_position dk d_model nh max_len is_causal p
             q k v pad_mask N Tq Tk Hq Hk Hv (mask_shape_fits N Tk d_model _ k Hm Hk) Hc).
  rewrite (MultiHeadAttention_forward_per_position dk d_model nh max_len is_causal p
             q k v pad_mask' N Tq Tk Hq Hk Hv (mask_shape_fits N Tk d_model _ k Hm' Hk) Hc).
  f_equal. apply per_position_ext. intros n i xi Hn _.
  unfold attention_at. apply attention_row_ext_pad.
  intros j Hj. apply Hsame; [exact Hn|].
  rewrite length_map in Hj. rewrite (proj1 (has_shape_nth N Tk d_model k n Hk Hn)) in Hj.
  exact Hj.
Qed.

Lemma attention_mask_matters_through_zeros_witness :
  MultiHeadAttention_forward (MultiHeadAttention_init 1 1 1 4 true unit_mha)
    two_tokens two_tokens two_tokens (Some [[2; 5]]%Z)
  = MultiHeadAttention_forward (MultiHeadAttention_init 1 1 1 4 true unit_mha)
      two_tokens two_tokens two_tokens None.
Proof.
  apply (attention_mask_matters_through_zeros 1 1 1 4 true unit_mha
           two_tokens two_tokens two_tokens (Some [[2; 5]]%Z) None 1 2 2);
    unfold two_tokens; try solve [shape_facts].
  intros [|n] [|[|j]] Hn Hj; try lia; reflexivity.
Defined.
